(** * aide_predict: protein sequences and their collections

    A shallow embedding of [aide_predict/utils/data_structures.py]:
    [ProteinCharacter], [ProteinSequence], the in-memory collection
    [ProteinSequences] and the file-backed [ProteinSequencesOnFile].

    Conventions of the embedding.
    - A Python [str] is a [list ascii]: symbols are 8-bit characters.
      [str.isspace] is Python's on that range; [str.upper] is Python's on
      the ASCII letters and leaves every other symbol as it is.
    - A Python [int] supplied by a caller is a [Z]; lengths and loop
      counters, which Python keeps non-negative, are [nat].
    - A raised exception is the [Raise] case of [result]; each raise site
      of the source has its own tag.
    - What the module imports from files that are not part of the sources
      (the three alphabets of [constants.py], [os.path.exists], the builtin
      [hash]) is collected in the class [Env]. *)

From Stdlib Require Import ZArith Ascii String List Lia.
From Stdlib Require Import DecimalString Sorted.
From stdpp Require Import base decidable option list gmap strings.

Open Scope Z_scope.
Open Scope list_scope.

(** ** Python values *)

Abbreviation str := (list ascii).

(** ["..."] literals of the examples. *)
Definition lit (s : string) : str := list_ascii_of_string s.

Inductive site :=
  | NotASingleCharacter        (* ProteinCharacter.__new__, line 49 *)
  | InvalidCharacter (c : ascii) (* ProteinCharacter.__new__, line 51 *)
  | PositionOutOfRange         (* mutate, line 177; get_protein_character, line 205 *)
  | StructureDoesNotExist     (* structure.setter, line 251 *)
  | NotAligned                 (* get_alignment_mapping, line 512 *)
  | AlreadyGapped              (* apply_alignment_mapping, line 542 *)
  | IndexNotInMapping (i : nat) (* apply_alignment_mapping, line 547 *)
  | InvalidMapping (i pos : nat) (* apply_alignment_mapping, line 553 *)
  | MaxOfEmpty                 (* builtin max on an empty iterable *)
  | RangeStepZero              (* builtin range with step 0 *)
  | ListIndex                  (* list or str subscript out of range *)
  | IndexOutOfRange            (* ProteinSequencesOnFile.__getitem__, line 682 *)
  | IdNotFound                 (* ProteinSequencesOnFile.__getitem__, line 688 *)
  | NoneAsIndex.               (* subscript or seek with None *)

Inductive exn :=
  | ValueError (s : site)
  | IndexError (s : site)
  | KeyError (s : site)
  | TypeError (s : site).

Inductive result (A : Type) :=
  | Ok (a : A)
  | Raise (e : exn).
Arguments Ok {A} a.
Arguments Raise {A} e.

#[global] Instance result_ret : MRet result := fun _ a => Ok a.
#[global] Instance result_bind : MBind result := fun _ _ k m =>
  match m with
  | Ok a => k a
  | Raise e => Raise e
  end.

(** A comprehension whose body may raise: left to right, the first
    exception ends it. *)
Fixpoint mapR {A B} (f : A -> result B) (l : list A) : result (list B) :=
  match l with
  | [] => Ok []
  | a :: r => b ← f a; bs ← mapR f r; Ok (b :: bs)
  end.

(** A [for] loop over [l] that updates the local state [s]. *)
Fixpoint foldR {A S} (f : S -> A -> result S) (l : list A) (s : S) : result S :=
  match l with
  | [] => Ok s
  | a :: r => s' ← f s a; foldR f r s'
  end.

(** [enumerate(l)] *)
Definition enumerate {A} (l : list A) : list (nat * A) :=
  zip (seq 0 (length l)) l.

(** [str.upper] and [str.isspace] on one symbol. *)
Definition upper (c : ascii) : ascii :=
  let n := nat_of_ascii c in
  if (97 <=? n)%nat && (n <=? 122)%nat then ascii_of_nat (n - 32) else c.

Definition isspace (c : ascii) : bool :=
  let n := nat_of_ascii c in
  ((9 <=? n)%nat && (n <=? 13)%nat) || ((28 <=? n)%nat && (n <=? 32)%nat)
  || (n =? 133)%nat || (n =? 160)%nat.

(** [l[start:stop]] without a step, as CPython adjusts the two bounds. *)
Definition adjust_index (n i : Z) : Z :=
  if i <? 0 then Z.max 0 (i + n) else Z.min i n.

Definition py_slice {A} (l : list A) (start stop : option Z) : list A :=
  let n := Z.of_nat (length l) in
  let lo := match start with None => 0 | Some i => adjust_index n i end in
  let hi := match stop with None => n | Some i => adjust_index n i end in
  take (Z.to_nat (hi - lo)) (drop (Z.to_nat lo) l).

(** [range(start, stop, step)]: CPython computes the length first. *)
Definition range_length (lo hi step : Z) : Z :=
  if 0 <? step then (if lo <? hi then (hi - lo - 1) / step + 1 else 0)
  else (if hi <? lo then (lo - hi - 1) / (- step) + 1 else 0).

Definition py_range (lo hi step : Z) : result (list Z) :=
  if step =? 0 then Raise (ValueError RangeStepZero)
  else Ok (map (fun k => lo + Z.of_nat k * step)
               (seq 0 (Z.to_nat (range_length lo hi step)))).

(** [l[i]] with Python's negative subscripts. *)
Definition norm_index (n i : Z) : option nat :=
  let j := if i <? 0 then i + n else i in
  if (j <? 0) || (n <=? j) then None else Some (Z.to_nat j).

Definition py_index {A} (l : list A) (i : Z) : result A :=
  match norm_index (Z.of_nat (length l)) i with
  | Some j => match l !! j with
              | Some a => Ok a
              | None => Raise (IndexError ListIndex)
              end
  | None => Raise (IndexError ListIndex)
  end.

(** [l[i] = x], where [i] may be [None]. *)
Definition py_setitem {A} (l : list A) (i : option Z) (x : A) : result (list A) :=
  match i with
  | None => Raise (TypeError NoneAsIndex)
  | Some i => match norm_index (Z.of_nat (length l)) i with
              | Some j => Ok (<[j := x]> l)
              | None => Raise (IndexError ListIndex)
              end
  end.

(** [max(iterable)] *)
Definition py_max (l : list Z) : result Z :=
  match l with
  | [] => Raise (ValueError MaxOfEmpty)
  | x :: r => Ok (fold_left Z.max r x)
  end.

(** [filter(None, l)] keeps the truthy items: neither [None] nor [0]. *)
Definition filter_None (l : list (option Z)) : list Z :=
  omap (fun v => match v with
                 | Some z => if decide (z = 0) then None else Some z
                 | None => None
                 end) l.

(** ** What the module imports *)

Class Env := {
  AA_SINGLE : list ascii;
  GAP_CHARACTERS : list ascii;
  NON_CONONICAL_AA_SINGLE : list ascii;
  (** [os.path.exists] *)
  path_exists : str -> bool;
  (** the builtin [hash] of the pair [(tuple(characters), id)] *)
  py_hash : list ascii -> option str -> Z;
}.

(** ** ProteinCharacter *)

Module ProteinCharacter.
Section Defs.
Context `{E : Env}.

Definition valid_symbol (c : ascii) : bool :=
  bool_decide (upper c ∈ AA_SINGLE ++ GAP_CHARACTERS ++ NON_CONONICAL_AA_SINGLE).

(** [ProteinCharacter.__new__] *)
Definition new (seq : str) : result ascii :=
  match seq with
  | [c] =>
      if negb (valid_symbol c) then Raise (ValueError (InvalidCharacter c))
      else Ok c
  | _ => Raise (ValueError NotASingleCharacter)
  end.

Definition is_gap (c : ascii) : bool := bool_decide (c ∈ GAP_CHARACTERS).

Definition is_non_canonical (c : ascii) : bool :=
  bool_decide (c ∈ NON_CONONICAL_AA_SINGLE).

End Defs.
End ProteinCharacter.

(** ** ProteinSequence

    The [str] payload and [_characters] hold the same symbols (line 98)
    and neither is ever updated, so the field [chars] stands for both. *)

Module ProteinSequence.

Record t := mk {
  chars : str;
  _id : option str;
  _structure : option str;
}.

Section Defs.
Context `{E : Env}.

(** [structure.setter] *)
Definition set_structure (s : t) (new_structure : str) : result t :=
  if path_exists new_structure
  then Ok (mk (chars s) (_id s) (Some new_structure))
  else Raise (ValueError StructureDoesNotExist).

(** [id.setter] *)
Definition set_id (s : t) (new_id : str) : t :=
  mk (chars s) (Some new_id) (_structure s).

(** [ProteinSequence.__new__] *)
Definition new (seq : str) (id structure : option str) : result t :=
  cs ← mapR (fun c => ProteinCharacter.new [c]) seq;
  let obj := mk cs None None in
  let obj := match id with Some i => set_id obj i | None => obj end in
  match structure with
  | Some p => set_structure obj p
  | None => Ok obj
  end.

Definition len (s : t) : nat := length (chars s).

(** [__hash__] *)
Definition hash (s : t) : Z := py_hash (chars s) (_id s).

(** [__eq__] *)
Definition eq (s o : t) : bool := bool_decide (hash s = hash o).

Definition has_gaps (s : t) : bool :=
  existsb ProteinCharacter.is_gap (chars s).

Definition has_non_canonical (s : t) : bool :=
  existsb ProteinCharacter.is_non_canonical (chars s).

Definition with_no_gaps (s : t) : result t :=
  new (filter (fun c => c ∉ GAP_CHARACTERS) (chars s)) (_id s) (_structure s).

(** [sum(c.is_gap for c in self._characters)] *)
Definition num_gaps (s : t) : Z :=
  fold_left (fun acc c => acc + (if ProteinCharacter.is_gap c then 1 else 0))
            (chars s) 0.

Definition base_length (s : t) : Z := Z.of_nat (len s) - num_gaps s.

Definition mutate (s : t) (position : Z) (new_character : str) : result t :=
  if (position <? 0) || (position >=? Z.of_nat (len s))
  then Raise (ValueError PositionOutOfRange)
  else
    let new_seq := py_slice (chars s) None (Some position)
                   ++ new_character
                   ++ py_slice (chars s) (Some (position + 1)) None in
    new new_seq None (_structure s).

(** [mutated_positions]; [other] is a [str] or a [ProteinSequence], read
    symbol by symbol either way. *)
Definition mutated_positions (s : t) (other : str) : list nat :=
  omap (fun '(i, (a, b)) => if decide (a ≠ b) then Some i else None)
       (enumerate (zip (chars s) other)).

Definition get_protein_character (s : t) (position : Z) : result ascii :=
  if (position <? 0) || (position >=? Z.of_nat (len s))
  then Raise (IndexError PositionOutOfRange)
  else py_index (chars s) position.

Definition slice_as_protein_sequence (s : t) (start stop : Z) : result t :=
  new (py_slice (chars s) (Some start) (Some stop)) (_id s) (_structure s).

End Defs.
End ProteinSequence.

(** ** ProteinSequences, the in-memory collection ([UserList.data]) *)

Inductive warning := SequencesNotAligned.  (* warnings.warn, line 352 *)

(** What [seq.id or hash(seq)] evaluates to. *)
Inductive key :=
  | KStr (s : str)
  | KInt (z : Z).

#[global] Instance key_eq_dec : EqDecision key.
Proof. solve_decision. Defined.

(** A Python [dict] under such keys: the items in insertion order; a
    [str] and an [int] are never the same key. *)
Fixpoint key_dict_set {V} (k : key) (v : V) (d : list (key * V))
  : list (key * V) :=
  match d with
  | [] => [(k, v)]
  | (k', v') :: r =>
      if decide (k' = k) then (k, v) :: r else (k', v') :: key_dict_set k v r
  end.

Fixpoint key_dict_get {V} (k : key) (d : list (key * V)) : option V :=
  match d with
  | [] => None
  | (k', v') :: r => if decide (k' = k) then Some v' else key_dict_get k r
  end.

Module ProteinSequences.

Abbreviation t := (list ProteinSequence.t).

Section Defs.
Context `{E : Env}.

Definition aligned (self : t) : bool :=
  bool_decide (size (list_to_set (ProteinSequence.len <$> self) : gset nat) = 1%nat).

Definition fixed_length (self : t) : bool :=
  bool_decide
    (size (list_to_set (ProteinSequence.base_length <$> self) : gset Z) = 1%nat).

Definition width (self : t) : result (option nat) :=
  if aligned self
  then s ← py_index self 0; Ok (Some (ProteinSequence.len s))
  else Ok None.

Definition has_gaps (self : t) : bool := existsb ProteinSequence.has_gaps self.

(** One turn of the loop of [mutated_positions], at column [i]. *)
Definition mutated_step (self : t) (mutated : list nat) (i : nat)
  : result (list nat) :=
  cs ← mapR (fun s => ProteinSequence.get_protein_character s (Z.of_nat i)) self;
  let chars : gset ascii := list_to_set cs in
  if decide (1 < size chars)%nat then Ok (mutated ++ [i]) else Ok mutated.

(** The warnings emitted, and the value returned or the exception raised. *)
Definition mutated_positions (self : t)
  : list warning * result (option (list nat)) :=
  if negb (aligned self) then ([SequencesNotAligned], Ok None)
  else if bool_decide (self = []) then ([], Ok (Some []))
  else
    ([], s0 ← py_index self 0;
         let seq_length := ProteinSequence.len s0 in
         mutated ← foldR (mutated_step self) (seq 0 seq_length) [];
         Ok (Some mutated)).

(** [seq.id or hash(seq)]: the identifier unless it is [None] or empty. *)
Definition id_or_hash (s : ProteinSequence.t) : key :=
  match ProteinSequence._id s with
  | Some (c :: i) => KStr (c :: i)
  | _ => KInt (ProteinSequence.hash s)
  end.

(** [to_dict]: the comprehension assigns the members' items in order. *)
Definition to_dict (self : t) : list (key * str) :=
  fold_left (fun d s => key_dict_set (id_or_hash s) (ProteinSequence.chars s) d)
            self [].

Definition iter_batches (self : t) (batch_size : Z) : result (list t) :=
  starts ← py_range 0 (Z.of_nat (length self)) batch_size;
  Ok (map (fun i => py_slice self (Some i) (Some (i + batch_size))) starts).

Definition with_no_gaps (self : t) : result t :=
  mapR ProteinSequence.with_no_gaps self.

(** The body of the outer loop of [get_alignment_mapping] for one member:
    the pair [(seq_mapping, original_pos)] after the inner loop. *)
Definition seq_mapping_of (s : ProteinSequence.t) : list (option Z) * Z :=
  fold_left (fun '(seq_mapping, original_pos) '(aligned_pos, char) =>
               if negb (ProteinCharacter.is_gap char)
               then (seq_mapping ++ [Some (Z.of_nat aligned_pos)],
                     original_pos + 1)
               else (seq_mapping, original_pos))
            (enumerate (ProteinSequence.chars s)) ([], 0).

Definition get_alignment_mapping (self : t)
  : result (gmap Z (list (option Z))) :=
  if negb (aligned self) then Raise (ValueError NotAligned)
  else Ok (fold_left (fun mapping '(i, s) =>
                        <[Z.of_nat i := fst (seq_mapping_of s)]> mapping)
                     (enumerate self) ∅).

(** One turn of the inner loop of [apply_alignment_mapping] for the
    member [s] at index [i]. *)
Definition place (i : nat) (s : ProteinSequence.t) (aligned_seq : str)
    (item : nat * option Z) : result str :=
  let '(original_pos, aligned_pos) := item in
  if (ProteinSequence.len s <=? original_pos)%nat
  then Raise (ValueError (InvalidMapping i original_pos))
  else c ← py_index (ProteinSequence.chars s) (Z.of_nat original_pos);
       py_setitem aligned_seq aligned_pos c.

(** One turn of the outer loop of [apply_alignment_mapping]. *)
Definition align_member (mapping : gmap Z (list (option Z)))
    (item : nat * ProteinSequence.t) : result ProteinSequence.t :=
  let '(i, s) := item in
  match mapping !! Z.of_nat i with
  | None => Raise (ValueError (IndexNotInMapping i))
  | Some seq_mapping =>
      m ← py_max (filter_None seq_mapping);
      let aligned_seq := replicate (Z.to_nat (m + 1)) "-"%char in
      aligned_seq ← foldR (place i s) (enumerate seq_mapping) aligned_seq;
      (* [''.join(aligned_seq)] is the buffer read as a [str] *)
      ProteinSequence.new aligned_seq (ProteinSequence._id s)
                          (ProteinSequence._structure s)
  end.

Definition apply_alignment_mapping (self : t)
    (mapping : gmap Z (list (option Z))) : result t :=
  if has_gaps self then Raise (ValueError AlreadyGapped)
  else mapR (align_member mapping) (enumerate self).

End Defs.
End ProteinSequences.

(** ** Text files

    A file is the [str] that its text handle delivers: the characters
    decoded, the line ends as ["\n"]. Reading at an offset is another
    matter, see [plain_text] and [read_at]. *)

Definition newline : ascii := "010"%char.

(** [for line in f]: the lines of the file, each with its line end. *)
Fixpoint file_lines (f : str) : list str :=
  match f with
  | [] => []
  | c :: r =>
      if decide (c = newline) then [c] :: file_lines r
      else match file_lines r with
           | [] => [[c]]
           | l :: ls => (c :: l) :: ls
           end
  end.

(** [line.startswith('>')] *)
Definition is_header (line : str) : bool :=
  match line with
  | c :: _ => bool_decide (c = ">"%char)
  | [] => false
  end.

(** [s.strip()] *)
Fixpoint lstrip (s : str) : str :=
  match s with
  | c :: r => if isspace c then lstrip r else s
  | [] => []
  end.

Definition py_strip (s : str) : str := rev (lstrip (rev (lstrip s))).

(** [s.split()]: the maximal runs of symbols that are not whitespace;
    [split_from cur s] has the run [cur] already read. *)
Fixpoint split_from (cur s : str) : list str :=
  match s with
  | [] => match cur with [] => [] | _ => [cur] end
  | c :: r =>
      if isspace c
      then match cur with [] => split_from [] r | _ => cur :: split_from [] r end
      else split_from (cur ++ [c]) r
  end.

Definition py_split (s : str) : list str := split_from [] s.

(** [''.join(parts)] *)
Definition join (parts : list str) : str := concat parts.

(** A byte that the text handle delivers as one character, itself: an
    ASCII byte that is not a carriage return (universal newlines turn
    ["\r\n"] and ["\r"] into ["\n"]; a byte from 128 on is part of an
    encoded character or is decoded to another one). *)
Definition plain_byte (c : ascii) : bool :=
  (nat_of_ascii c <? 128)%nat && negb (nat_of_ascii c =? 13)%nat.

(** The file on disk is [f], and all its bytes are plain: ASCII text
    with ["\n"] line ends. The characters read are then the bytes on
    disk, and the offset of a character is the offset of its byte. A file
    with ["\r\n"] line ends, or with a character that is not ASCII, is
    not of this kind. *)
Definition plain_text (f : str) : Prop := forallb plain_byte f = true.

(** [f.seek(start); f.read(n)], where [start] was computed by adding up
    the lengths of the lines read, in characters, and [seek] takes an
    offset in bytes: this is what the handle returns on a file of
    [plain_text]. On another file the two offsets differ (a character of
    several bytes, a line end of two), and the model is the read of its
    decoded text at the offset in characters. *)
Definition read_at (f : str) (start n : nat) : str := take n (drop start f).

(** [str(k)] for the key a record is written under. *)
Definition str_of_key (k : key) : str :=
  match k with
  | KStr s => s
  | KInt z => list_ascii_of_string (NilZero.string_of_int (Z.to_int z))
  end.

(** Modelled from the spec: [aide_predict/io/bio_files.py] is not among the
    sources. Section 6 describes the flat sequence file: a header line
    beginning with the marker character followed by a whitespace-delimited
    identifier token, then content lines until the next header or the end
    of the file. [write_fasta] writes each record as its header line and
    one content line. *)
Definition write_fasta (records : list (key * str)) : str :=
  concat (map (fun '(k, s) => ">"%char :: str_of_key k ++ [newline]
                              ++ s ++ [newline]) records).

(** Modelled from the spec: [aide_predict/io/bio_files.py] is not among the
    sources. Section 6: the identifier of a record is the first
    whitespace-delimited token after the marker of its header line (empty
    when the line has none); the content lines up to the next header are
    concatenated with their whitespace stripped. Lines before the first
    header belong to no record. The state of the scan is the record being
    read and the records already complete. *)
Definition read_fasta_step (st : option (str * str) * list (str * str))
    (line : str) : option (str * str) * list (str * str) :=
  let '(cur, done) := st in
  if is_header line
  then (Some (default [] (head (py_split (drop 1 line))), []),
        done ++ option_list cur)
  else match cur with
       | Some (id, content) => (Some (id, content ++ join (py_split line)), done)
       | None => (None, done)
       end.

Definition read_fasta (f : str) : list (str * str) :=
  let '(cur, done) := fold_left read_fasta_step (file_lines f) (None, []) in
  done ++ option_list cur.

Module FastaIO.
Section Defs.
Context `{E : Env}.

(** [ProteinSequences.to_fasta]: the content written to [output_path]. *)
Definition to_fasta (self : ProteinSequences.t) : str :=
  write_fasta (map (fun s => (ProteinSequences.id_or_hash s,
                              ProteinSequence.chars s)) self).

(** [ProteinSequences.from_fasta] on the content of [input_path]. *)
Definition from_fasta (input : str) : result ProteinSequences.t :=
  mapR (fun '(id, s) => ProteinSequence.new s (Some id) None)
       (read_fasta input).

End Defs.
End FastaIO.

(** ** ProteinSequencesOnFile *)

(** A Python [dict] with [str] keys: the items in insertion order.
    Assigning to a key that is present keeps its place. *)
Fixpoint dict_set {V} (k : str) (v : V) (d : list (str * V)) : list (str * V) :=
  match d with
  | [] => [(k, v)]
  | (k', v') :: r =>
      if decide (k' = k) then (k, v) :: r else (k', v') :: dict_set k v r
  end.

Fixpoint dict_get {V} (k : str) (d : list (str * V)) : option V :=
  match d with
  | [] => None
  | (k', v') :: r => if decide (k' = k) then Some v' else dict_get k r
  end.

Definition dict_keys {V} (d : list (str * V)) : list str := map fst d.
Definition dict_values {V} (d : list (str * V)) : list V := map snd d.

Module ProteinSequencesOnFile.

(** An entry of [_index]. *)
Record info := mkInfo {
  start : option nat;
  length_ : nat;
  has_gaps_ : bool;
  base_length_ : nat;
}.

(** The local variables of [_create_index], with [self._index]. *)
Record scan := mkScan {
  current_id : option str;
  seq_start : option nat;
  seq_length : nat;
  scan_has_gaps : bool;
  scan_base_length : nat;
  file_pos : nat;
  index : list (str * info);
}.

Record t := mk {
  file : str;           (* the content of [file_path] *)
  _index : list (str * info);
  _aligned : bool;
  _fixed_length : bool;
  _width : option nat;
  _has_gaps : bool;
}.

Section Defs.
Context `{E : Env}.

(** [self._index[current_id] = {...}] when [current_id is not None] *)
Definition flush (st : scan) : list (str * info) :=
  match current_id st with
  | Some id =>
      dict_set id (mkInfo (seq_start st) (seq_length st) (scan_has_gaps st)
                          (scan_base_length st)) (index st)
  | None => index st
  end.

(** One turn of the loop of [_create_index]. *)
Definition scan_line (st : scan) (line : str) : result scan :=
  if is_header line then
    let index' := flush st in
    id ← py_index (py_split (py_strip (py_slice line (Some 1) None))) 0;
    Ok (mkScan (Some id) (Some (file_pos st + length line)%nat)
               0%nat false 0%nat
               (file_pos st + length line)%nat index')
  else
    let s := py_strip line in
    Ok (mkScan (current_id st) (seq_start st)
               (seq_length st + length s)%nat
               (scan_has_gaps st || bool_decide ("-"%char ∈ s))
               (scan_base_length st
                + length (filter (fun c => c ≠ "-"%char) s))%nat
               (file_pos st + length line)%nat (index st)).

Definition _create_index (f : str) : result (list (str * info)) :=
  st ← foldR scan_line (file_lines f)
             (mkScan None None 0%nat false 0%nat 0%nat []);
  Ok (flush st).

(** [_compute_global_properties]; [next(iter(lengths))] is taken when the
    set has one element. *)
Definition _compute_global_properties (f : str) (idx : list (str * info)) : t :=
  let lengths : gset nat := list_to_set (length_ <$> dict_values idx) in
  let base_lengths : gset nat := list_to_set (base_length_ <$> dict_values idx) in
  let aligned := bool_decide (size lengths = 1%nat) in
  mk f idx aligned
     (bool_decide (size base_lengths = 1%nat))
     (if aligned then head (elements lengths) else None)
     (existsb has_gaps_ (dict_values idx)).

(** [__init__] on a file whose content is [f]. *)
Definition new (f : str) : result t :=
  idx ← _create_index f;
  Ok (_compute_global_properties f idx).

(** [__len__] *)
Definition len (self : t) : nat := length (_index self).

(** [__getitem__]; the subscript is an [int] or an identifier. *)
Definition getitem (self : t) (index : Z + str) : result ProteinSequence.t :=
  id ← match index with
       | inl i =>
           if (i <? 0) || (i >=? Z.of_nat (len self))
           then Raise (IndexError IndexOutOfRange)
           else py_index (dict_keys (_index self)) i
       | inr id => Ok id
       end;
  match dict_get id (_index self) with
  | None => Raise (KeyError IdNotFound)
  | Some inf =>
      match start inf with
      | None => Raise (TypeError NoneAsIndex)
      | Some st =>
          let sequence := join (py_split (read_at (file self) st (length_ inf))) in
          ProteinSequence.new sequence (Some id) None
      end
  end.

(** [__iter__]: the members a full iteration yields. *)
Definition iter (self : t) : result ProteinSequences.t :=
  mapR (fun '(id, s) => ProteinSequence.new s (Some id) None)
       (read_fasta (file self)).

Definition aligned (self : t) : bool := _aligned self.
Definition fixed_length (self : t) : bool := _fixed_length self.
Definition width (self : t) : option nat := _width self.
Definition has_gaps (self : t) : bool := _has_gaps self.

Definition iter_batches (self : t) (batch_size : Z)
  : result (list ProteinSequences.t) :=
  starts ← py_range 0 (Z.of_nat (len self)) batch_size;
  mapR (fun i => mapR (fun id => getitem self (inr id))
                      (py_slice (dict_keys (_index self))
                                (Some i) (Some (i + batch_size))))
       starts.

(** [to_dict]: [{id: str(self[id]) for id in self._index}]. *)
Definition to_dict (self : t) : result (list (str * str)) :=
  foldR (fun d id => s ← getitem self (inr id);
                     Ok (dict_set id (ProteinSequence.chars s) d))
        (dict_keys (_index self)) [].

(** [positions[i].add(char)] for every symbol of one member. *)
Definition add_symbols (positions : list (gset ascii)) (cs : str)
  : result (list (gset ascii)) :=
  foldR (fun positions '(i, char) =>
           chars ← py_index positions (Z.of_nat i);
           py_setitem positions (Some (Z.of_nat i)) (chars ∪ {[char]}))
        (enumerate cs) positions.

(** [mutated_positions]; the members come from [__iter__] one at a time,
    and [range(self.width)] needs an [int]. *)
Definition mutated_positions (self : t) : result (option (list nat)) :=
  if negb (aligned self) then Ok None
  else
    match width self with
    | None => Raise (TypeError NoneAsIndex)
    | Some w =>
        positions ← foldR (fun positions '(id, seq) =>
                             s ← ProteinSequence.new seq (Some id) None;
                             add_symbols positions (ProteinSequence.chars s))
                          (read_fasta (file self))
                          (replicate w (∅ : gset ascii));
        Ok (Some (omap (fun '(i, chars) =>
                          if decide (1 < size chars)%nat then Some i else None)
                       (enumerate positions)))
    end.

End Defs.
End ProteinSequencesOnFile.

(** ** An environment for the examples *)

(** Modelled from the spec: [constants.py] is not among the sources. The
    glossary names the twenty standard symbols as the canonical alphabet;
    section 8 has ["-"] as a gap and ["X"] as a non-canonical symbol. The
    one existing path and the hash are chosen for the examples (CPython
    salts [hash] per process; no statement below depends on its values). *)
Definition demo_env : Env := {|
  AA_SINGLE := lit "ACDEFGHIKLMNPQRSTVWY";
  GAP_CHARACTERS := lit "-";
  NON_CONONICAL_AA_SINGLE := lit "BJOUXZ";
  path_exists := fun p => bool_decide (p = lit "wt.pdb");
  py_hash := fun cs id =>
    fold_left (fun h c => (31 * h + Z.of_nat (nat_of_ascii c)) mod 2 ^ 61) cs
              (match id with None => 7 | Some i => 11 + Z.of_nat (length i) end);
|}.

(** [ProteinSequence(seq, id)] of the examples, as the record it builds. *)
Definition pseq (seq : string) (id : option string) : ProteinSequence.t :=
  ProteinSequence.mk (lit seq) (lit <$> id) None.

(** * The vocabulary of the statements *)

Section Vocabulary.
Context `{E : Env}.

(** ** Sequences *)

(** Every symbol of [cs] passes [ProteinCharacter.__new__]. *)
Definition all_valid (cs : str) : Prop :=
  Forall (fun c => ProteinCharacter.valid_symbol c = true) cs.

(** What [ProteinSequence.__new__] and the structure setter establish. *)
Definition wf (s : ProteinSequence.t) : Prop :=
  all_valid (ProteinSequence.chars s)
  /\ forall p, ProteinSequence._structure s = Some p -> path_exists p = true.

(** Column [i] of the collection shows more than one symbol. *)
Definition varies (C : ProteinSequences.t) (i : nat) : Prop :=
  exists s t c d,
    s ∈ C /\ t ∈ C
    /\ ProteinSequence.chars s !! i = Some c
    /\ ProteinSequence.chars t !! i = Some d
    /\ c <> d.

(** The upper-case form of every symbol of [s] is in one of the three
    alphabets. *)
Definition validated (s : ProteinSequence.t) : Prop :=
  forall c, c ∈ ProteinSequence.chars s ->
    upper c ∈ AA_SINGLE \/ upper c ∈ GAP_CHARACTERS
    \/ upper c ∈ NON_CONONICAL_AA_SINGLE.

(** The columns of the symbols of [cs] that are not gaps, when [cs]
    starts at column [a]. *)
Fixpoint columns_from (a : nat) (cs : str) : list nat :=
  match cs with
  | [] => []
  | c :: r =>
      if ProteinCharacter.is_gap c then columns_from (S a) r
      else a :: columns_from (S a) r
  end.

(** A column as an item of a mapping. *)
Definition some_col (p : nat) : option Z := Some (Z.of_nat p).

(** [s.with_no_gaps()] of a sequence the constructor built. *)
Definition stripped (s : ProteinSequence.t) : ProteinSequence.t :=
  ProteinSequence.mk
    (filter (fun c => c ∉ GAP_CHARACTERS) (ProteinSequence.chars s))
    (ProteinSequence._id s) (ProteinSequence._structure s).

(** The last column holds a symbol and is not column [0]. *)
Definition ends_in_symbol (s : ProteinSequence.t) : Prop :=
  exists pre c, ProteinSequence.chars s = pre ++ [c] /\ pre <> []
                /\ ProteinCharacter.is_gap c = false.

(** Every gap of [s] is written ["-"]. *)
Definition dash_gaps (s : ProteinSequence.t) : Prop :=
  forall c, c ∈ ProteinSequence.chars s ->
    ProteinCharacter.is_gap c = true -> c = "-"%char.

(** ** Files made of records *)

Definition no_space (s : str) : Prop := Forall (fun c => isspace c = false) s.

(** A line of the file with its line end. *)
Definition ended (l : str) : str := l ++ [newline].

(** The header line of the identifier [id]. *)
Definition header_line (id : str) : str := ">"%char :: ended id.

(** A record is the identifier of its header line and its content lines;
    these are its lines in the file. *)
Definition record_lines (r : str * list str) : list str :=
  header_line r.1 :: (ended <$> r.2).

(** The file that holds the records [recs]. *)
Definition render (recs : list (str * list str)) : str :=
  concat (concat (record_lines <$> recs)).

(** An identifier that is one word. *)
Definition plain_id (id : str) : Prop := id <> [] /\ no_space id.

(** A content line: no whitespace, and not read as a header. *)
Definition plain_line (l : str) : Prop :=
  no_space l /\ is_header (ended l) = false.

(** A record that reads back as written. *)
Definition plain_record (r : str * list str) : Prop :=
  plain_id r.1 /\ Forall plain_line r.2.

(** The records a state of [read_fasta_step] stands for. *)
Definition flushed (st : option (str * str) * list (str * str))
  : list (str * str) := st.2 ++ option_list st.1.

(** No symbol of the alphabets is whitespace or the header marker. *)
Definition plain_alphabet : Prop :=
  forall c, ProteinCharacter.valid_symbol c = true ->
    isspace c = false /\ c <> ">"%char.

(** The member carries an identifier that is one word. *)
Definition has_plain_id (s : ProteinSequence.t) : Prop :=
  exists i, ProteinSequence._id s = Some i /\ plain_id i.

(** The record [to_fasta] writes for a member that has an identifier. *)
Definition record_of (s : ProteinSequence.t) : str * list str :=
  (default [] (ProteinSequence._id s), [ProteinSequence.chars s]).

(** ** The index of a file made of records *)

(** The entry of the record [r] whose header line starts at [pos]. *)
Definition entry_of (pos : nat) (r : str * list str)
  : ProteinSequencesOnFile.info :=
  ProteinSequencesOnFile.mkInfo (Some (pos + length (header_line r.1))%nat)
         (length (concat r.2))
         (bool_decide ("-"%char ∈ concat r.2))
         (length (filter (fun c => c ≠ "-"%char) (concat r.2))).

(** The number of symbols the record takes in the file. *)
Definition record_size (r : str * list str) : nat :=
  length (concat (record_lines r)).

(** The entries of the records of a file, the first header at [pos]. *)
Fixpoint entries (pos : nat) (recs : list (str * list str))
  : list (str * ProteinSequencesOnFile.info) :=
  match recs with
  | [] => []
  | r :: recs => (r.1, entry_of pos r) :: entries (pos + record_size r) recs
  end.

(** [d[k] = v] for each item [(k, v)] of [es], in order. *)
Definition set_all (es d : list (str * ProteinSequencesOnFile.info))
  : list (str * ProteinSequencesOnFile.info) :=
  fold_left (fun d e => dict_set e.1 e.2 d) es d.

(** In [cs] the gaps are the symbols ["-"]. *)
Definition dash_only (cs : str) : Prop :=
  forall c, c ∈ cs -> c ∈ GAP_CHARACTERS <-> c = "-"%char.

(** A record of a sequence file: an identifier that is one word, content
    lines of valid symbols, ["-"] for the gaps. *)
Definition sequence_record (r : str * list str) : Prop :=
  plain_id r.1 /\ Forall all_valid r.2 /\ dash_only (concat r.2).

(** The member that [from_fasta] builds from the record. *)
Definition member (r : str * list str) : ProteinSequence.t :=
  ProteinSequence.mk (concat r.2) (Some r.1) None.

(** The file whose lines are [lines], each with its line end. *)
Definition text (lines : list string) : str :=
  concat ((fun l => ended (lit l)) <$> lines).

(** ** The index of any file *)

(** An entry of the index of a file of [n] symbols: the identifier is
    one word, the content starts at an offset from which [length] symbols
    can be read, and the gaps counted are the symbols that make [length]
    exceed [base_length]. *)
Definition entry_ok (n : nat) (e : str * ProteinSequencesOnFile.info) : Prop :=
  plain_id e.1
  /\ (exists p, ProteinSequencesOnFile.start e.2 = Some p
                /\ (p + ProteinSequencesOnFile.length_ e.2 <= n)%nat)
  /\ (ProteinSequencesOnFile.base_length_ e.2
      <= ProteinSequencesOnFile.length_ e.2)%nat
  /\ (ProteinSequencesOnFile.has_gaps_ e.2 = true
      <-> (ProteinSequencesOnFile.base_length_ e.2
           < ProteinSequencesOnFile.length_ e.2)%nat).

(** What the loop of [_create_index] keeps true of its variables. *)
Definition scan_ok (n : nat) (st : ProteinSequencesOnFile.scan) : Prop :=
  NoDup (dict_keys (ProteinSequencesOnFile.index st))
  /\ Forall (entry_ok n) (ProteinSequencesOnFile.index st)
  /\ match ProteinSequencesOnFile.current_id st with
     | Some id =>
         plain_id id
         /\ exists p, ProteinSequencesOnFile.seq_start st = Some p
                      /\ (p + ProteinSequencesOnFile.seq_length st
                          <= ProteinSequencesOnFile.file_pos st)%nat
     | None => ProteinSequencesOnFile.index st = []
     end
  /\ (ProteinSequencesOnFile.scan_base_length st
      <= ProteinSequencesOnFile.seq_length st)%nat
  /\ (ProteinSequencesOnFile.scan_has_gaps st = true
      <-> (ProteinSequencesOnFile.scan_base_length st
           < ProteinSequencesOnFile.seq_length st)%nat).

(** ** Any file, by its lines *)

(** The identifier of a header line: the first word after the marker. *)
Definition header_id (h : str) : option str := head (py_split (drop 1 h)).

(** A record as it stands in a file is its header line and the lines
    that follow, up to the next header line. These are its lines, its
    identifier, and its symbols: what the lines hold apart from
    whitespace. *)
Definition raw_lines (r : str * list str) : list str := r.1 :: r.2.

Definition raw_id (r : str * list str) : str := default [] (header_id r.1).

Definition raw_content (r : str * list str) : str :=
  filter (fun c => isspace c = false) (concat r.2).

(** The member that reading the record gives. *)
Definition raw_member (r : str * list str) : ProteinSequence.t :=
  ProteinSequence.mk (raw_content r) (Some (raw_id r)) None.

(** A line of symbols: not a header line; blanks only at its two ends,
    none between its symbols; ["-"] for the gaps. It may be blank. *)
Definition symbol_line (l : str) : Prop :=
  is_header l = false /\ no_space (py_strip l) /\ dash_only (py_strip l).

(** A record of a sequence file: the header line carries an identifier
    (and what it likes after it), the other lines are lines of symbols. *)
Definition raw_record (r : str * list str) : Prop :=
  is_header r.1 = true /\ is_Some (header_id r.1) /\ Forall symbol_line r.2.

(** The symbols of the record stand together, directly after its header
    line: no blank and no line end comes before the last of them. *)
Definition compact (r : str * list str) : Prop :=
  no_space (take (length (raw_content r)) (concat r.2)).

(** The lines of [f] are the lines [pre], none of them a header line,
    followed by the lines of the records [recs]. *)
Definition parsed (f : str) (pre : list str) (recs : list (str * list str))
  : Prop :=
  file_lines f = pre ++ concat (raw_lines <$> recs)
  /\ Forall (fun l => is_header l = false) pre.

(** The entry of the record [r] whose header line starts at [pos]. *)
Definition raw_entry (pos : nat) (r : str * list str)
  : ProteinSequencesOnFile.info :=
  ProteinSequencesOnFile.mkInfo (Some (pos + length r.1)%nat)
         (length (raw_content r))
         (bool_decide ("-"%char ∈ raw_content r))
         (length (filter (fun c => c ≠ "-"%char) (raw_content r))).

Definition raw_size (r : str * list str) : nat :=
  length (concat (raw_lines r)).

Fixpoint raw_entries (pos : nat) (recs : list (str * list str))
  : list (str * ProteinSequencesOnFile.info) :=
  match recs with
  | [] => []
  | r :: recs => (raw_id r, raw_entry pos r)
                 :: raw_entries (pos + raw_size r) recs
  end.

End Vocabulary.

Arguments record_lines : simpl never.
Arguments header_line : simpl never.
Arguments ended : simpl never.

(** * Properties *)

Arguments ProteinCharacter.new : simpl never.
Arguments ProteinSequence.new : simpl never.
Arguments ProteinSequence.get_protein_character : simpl never.
Arguments ProteinSequence.with_no_gaps : simpl never.
Arguments py_index : simpl never.
Arguments py_setitem : simpl never.
Arguments py_slice : simpl never.
Arguments py_max : simpl never.
Arguments ProteinSequences.mutated_step : simpl never.
Arguments ProteinSequences.align_member : simpl never.
Arguments ProteinSequences.place : simpl never.

(** ** The result monad *)

Lemma bind_Ok {A B} (m : result A) (k : A -> result B) (b : B) :
  (m ≫= k) = Ok b <-> exists a, m = Ok a /\ k a = Ok b.
Proof.
  destruct m as [a|e]; simpl; split.
  - intros H. by exists a.
  - by intros (a' & [= ->] & H).
  - discriminate.
  - by intros (a' & [=] & _).
Qed.

Lemma mapR_Ok_Forall2 {A B} (f : A -> result B) (l : list A) (k : list B) :
  mapR f l = Ok k <-> Forall2 (fun a b => f a = Ok b) l k.
Proof.
  revert k. induction l as [|a l IH]; intros k; simpl.
  - split; [intros [= <-]; constructor | by inversion 1].
  - split.
    + intros H. apply bind_Ok in H as (b & Hb & H).
      apply bind_Ok in H as (bs & Hbs & [= <-]).
      constructor; [done | by apply IH].
    + inversion 1 as [|? b ? bs Hb Hbs]; subst.
      rewrite Hb. simpl. apply IH in Hbs. by rewrite Hbs.
Qed.

Lemma mapR_fmap {A B} (f : A -> result B) (g : A -> B) (l : list A) :
  Forall (fun a => f a = Ok (g a)) l -> mapR f l = Ok (g <$> l).
Proof.
  intros H. apply mapR_Ok_Forall2. induction H; constructor; auto.
Qed.

Lemma mapR_length {A B} (f : A -> result B) (l : list A) (k : list B) :
  mapR f l = Ok k -> length k = length l.
Proof. intros H%mapR_Ok_Forall2. symmetry. by eapply Forall2_length. Qed.

Lemma mapR_take_drop {A B} (f : A -> result B) (l : list A) (k : list B) n m :
  mapR f l = Ok k -> mapR f (take n (drop m l)) = Ok (take n (drop m k)).
Proof.
  rewrite !mapR_Ok_Forall2. intros H.
  by apply Forall2_take, Forall2_drop.
Qed.

(** ** Construction validates every symbol *)

Section Sequence.
Context `{E : Env}.

Lemma characters_Ok (cs : str) :
  all_valid cs -> mapR (fun c => ProteinCharacter.new [c]) cs = Ok cs.
Proof.
  intros H. rewrite <- (list_fmap_id cs) at 2. apply mapR_fmap.
  eapply Forall_impl; [exact H|]. intros c Hc. simpl.
  unfold ProteinCharacter.new. by rewrite Hc.
Qed.

Lemma characters_inv (cs cs' : str) :
  mapR (fun c => ProteinCharacter.new [c]) cs = Ok cs' ->
  cs' = cs /\ all_valid cs.
Proof.
  revert cs'. induction cs as [|c cs IH]; intros cs'; simpl.
  - intros [= <-]. split; [done | constructor].
  - intros H. apply bind_Ok in H as (b & Hb & H).
    apply bind_Ok in H as (bs & Hbs & [= <-]).
    destruct (IH _ Hbs) as [-> Hv].
    unfold ProteinCharacter.new in Hb.
    destruct (ProteinCharacter.valid_symbol c) eqn:Hc; simpl in Hb; [|done].
    injection Hb as <-. split; [done | by constructor].
Qed.

(** The first symbol that is not valid is the one reported. *)
Lemma characters_invalid (pre post : str) (c : ascii) :
  all_valid pre -> ProteinCharacter.valid_symbol c = false ->
  mapR (fun c => ProteinCharacter.new [c]) (pre ++ c :: post)
  = Raise (ValueError (InvalidCharacter c)).
Proof.
  intros Hpre Hc. induction Hpre as [|a pre Ha _ IH]; simpl.
  - unfold ProteinCharacter.new. by rewrite Hc.
  - rewrite IH. unfold ProteinCharacter.new. by rewrite Ha.
Qed.

Lemma new_Ok (seq : str) (id structure : option str) :
  all_valid seq ->
  (forall p, structure = Some p -> path_exists p = true) ->
  ProteinSequence.new seq id structure
  = Ok (ProteinSequence.mk seq id structure).
Proof.
  intros Hv Hp. unfold ProteinSequence.new. rewrite characters_Ok by done.
  simpl. destruct structure as [p|].
  - unfold ProteinSequence.set_structure. rewrite (Hp p eq_refl).
    by destruct id.
  - by destruct id.
Qed.

Lemma new_inv (seq : str) (id structure : option str) (s : ProteinSequence.t) :
  ProteinSequence.new seq id structure = Ok s ->
  s = ProteinSequence.mk seq id structure /\ wf s.
Proof.
  unfold ProteinSequence.new. intros H.
  apply bind_Ok in H as (cs & Hcs & H).
  apply characters_inv in Hcs as [-> Hv].
  destruct structure as [p|].
  - unfold ProteinSequence.set_structure in H.
    destruct (path_exists p) eqn:Hp; [|done].
    injection H as <-. split; [by destruct id|].
    split; [by destruct id|]. simpl. by intros ? [= <-].
  - injection H as <-. split; [by destruct id|].
    split; [by destruct id | by destruct id].
Qed.

Lemma new_wf_Ok (s : ProteinSequence.t) (id : option str) (cs : str) :
  wf s -> all_valid cs ->
  ProteinSequence.new cs id (ProteinSequence._structure s)
  = Ok (ProteinSequence.mk cs id (ProteinSequence._structure s)).
Proof. intros [_ Hp] Hv. by apply new_Ok. Qed.

End Sequence.

(** ** Slices and subscripts *)

Lemma py_slice_prefix {A} (l : list A) (p : Z) :
  0 <= p <= Z.of_nat (length l) ->
  py_slice l None (Some p) = take (Z.to_nat p) l.
Proof.
  intros Hp. unfold py_slice, adjust_index.
  destruct (Z.ltb_spec p 0); [lia|].
  rewrite Z.min_l by lia. rewrite Z.sub_0_r. done.
Qed.

Lemma py_slice_suffix {A} (l : list A) (p : Z) :
  0 <= p <= Z.of_nat (length l) ->
  py_slice l (Some p) None = drop (Z.to_nat p) l.
Proof.
  intros Hp. unfold py_slice, adjust_index.
  destruct (Z.ltb_spec p 0); [lia|].
  rewrite Z.min_l by lia. apply take_ge. rewrite length_drop. lia.
Qed.

Lemma py_slice_window {A} (l : list A) (a n : nat) :
  py_slice l (Some (Z.of_nat a)) (Some (Z.of_nat a + Z.of_nat n))
  = take n (drop a l).
Proof.
  unfold py_slice, adjust_index.
  destruct (Z.ltb_spec (Z.of_nat a) 0); [lia|].
  destruct (Z.ltb_spec (Z.of_nat a + Z.of_nat n) 0); [lia|].
  destruct (Z.le_gt_cases (Z.of_nat a) (Z.of_nat (length l))) as [Ha|Ha].
  - rewrite (Z.min_l (Z.of_nat a)) by lia. rewrite Nat2Z.id.
    destruct (Z.le_gt_cases (Z.of_nat a + Z.of_nat n) (Z.of_nat (length l))).
    + rewrite Z.min_l by lia. f_equal. lia.
    + rewrite Z.min_r by lia. rewrite !take_ge; [done| |];
        rewrite length_drop; lia.
  - rewrite !Z.min_r by lia. rewrite Z.sub_diag. simpl.
    rewrite (drop_ge l a) by lia. by rewrite take_nil.
Qed.

Lemma py_index_lookup {A} (l : list A) (i : nat) (a : A) :
  l !! i = Some a -> py_index l (Z.of_nat i) = Ok a.
Proof.
  intros H. pose proof (lookup_lt_Some _ _ _ H) as Hlt.
  unfold py_index, norm_index.
  destruct (Z.ltb_spec (Z.of_nat i) 0); [lia|].
  destruct (Z.ltb_spec (Z.of_nat i) 0); [lia|].
  destruct (Z.leb_spec (Z.of_nat (length l)) (Z.of_nat i)); [lia|].
  simpl. by rewrite Nat2Z.id, H.
Qed.

Lemma py_setitem_lookup {A} (l : list A) (i : nat) (x : A) :
  (i < length l)%nat ->
  py_setitem l (Some (Z.of_nat i)) x = Ok (<[i := x]> l).
Proof.
  intros Hlt. unfold py_setitem, norm_index.
  destruct (Z.ltb_spec (Z.of_nat i) 0); [lia|].
  destruct (Z.ltb_spec (Z.of_nat i) 0); [lia|].
  destruct (Z.leb_spec (Z.of_nat (length l)) (Z.of_nat i)); [lia|].
  simpl. by rewrite Nat2Z.id.
Qed.

(** ** mutate *)

Section Mutate.
Context `{E : Env}.

Lemma mutate_out_of_range (s : ProteinSequence.t) (p : Z) (nc : str) :
  ~ (0 <= p < Z.of_nat (ProteinSequence.len s)) ->
  ProteinSequence.mutate s p nc = Raise (ValueError PositionOutOfRange).
Proof.
  intros Hp. unfold ProteinSequence.mutate.
  destruct (Z.ltb_spec p 0); [done|].
  destruct (Z.geb_spec p (Z.of_nat (ProteinSequence.len s))); [done|lia].
Qed.

Lemma mutate_in_range (s : ProteinSequence.t) (p : Z) (nc : str) :
  0 <= p < Z.of_nat (ProteinSequence.len s) ->
  ProteinSequence.mutate s p nc
  = ProteinSequence.new
      (take (Z.to_nat p) (ProteinSequence.chars s) ++ nc
       ++ drop (S (Z.to_nat p)) (ProteinSequence.chars s))
      None (ProteinSequence._structure s).
Proof.
  intros Hp. unfold ProteinSequence.mutate, ProteinSequence.len in *.
  destruct (Z.ltb_spec p 0); [lia|].
  destruct (Z.geb_spec p (Z.of_nat (length (ProteinSequence.chars s)))); [lia|].
  simpl. rewrite py_slice_prefix, py_slice_suffix by lia.
  by replace (Z.to_nat (p + 1)) with (S (Z.to_nat p)) by lia.
Qed.

(** C4. For a sequence [s] as the constructor builds it, a valid symbol
    [c] and a position [p]: when [0 <= p < len s], [mutate s p c] returns a
    new sequence of the same length that has [c] at [p] and the symbols of
    [s] everywhere else, no identifier, and the structure of [s]; for any
    other [p], and whatever the new symbol, it raises the range error. *)
Theorem mutate_replaces_one_symbol (s : ProteinSequence.t) (p : Z) (c : ascii) :
  wf s -> ProteinCharacter.valid_symbol c = true ->
  (0 <= p < Z.of_nat (ProteinSequence.len s) ->
   exists s',
     ProteinSequence.mutate s p [c] = Ok s'
     /\ ProteinSequence.len s' = ProteinSequence.len s
     /\ ProteinSequence.chars s' !! Z.to_nat p = Some c
     /\ (forall q, q <> Z.to_nat p ->
           ProteinSequence.chars s' !! q = ProteinSequence.chars s !! q)
     /\ ProteinSequence._id s' = None
     /\ ProteinSequence._structure s' = ProteinSequence._structure s)
  /\ (~ (0 <= p < Z.of_nat (ProteinSequence.len s)) ->
      forall new_character,
        ProteinSequence.mutate s p new_character
        = Raise (ValueError PositionOutOfRange)).
Proof.
  intros Hwf Hc. split.
  - intros Hp. rewrite mutate_in_range by done.
    unfold ProteinSequence.len in *.
    set (cs := ProteinSequence.chars s) in *.
    set (n := Z.to_nat p).
    assert (Hn : (n < length cs)%nat) by lia.
    assert (Hv : all_valid (take n cs ++ [c] ++ drop (S n) cs)).
    { destruct Hwf as [Hv _]. unfold all_valid in *.
      rewrite !Forall_app. split_and!.
      - by apply Forall_take.
      - by constructor.
      - by apply Forall_drop. }
    rewrite new_wf_Ok by done. eexists. split; [done|]. simpl.
    rewrite <- insert_take_drop by done.
    split_and!; try done.
    + by rewrite length_insert.
    + by apply list_lookup_insert_eq.
    + intros q Hq. by apply list_lookup_insert_ne.
  - intros Hp nc. by apply mutate_out_of_range.
Qed.

End Mutate.

(** Well-formedness of a concrete sequence, by evaluation. *)
Ltac wf_by_eval :=
  split;
  [ repeat (constructor; [vm_compute; reflexivity|]); constructor
  | simpl; intros ? ?; first [discriminate | simplify_eq; vm_compute; reflexivity] ].

Lemma mutate_replaces_one_symbol_witness :
  exists s',
    ProteinSequence.mutate (E := demo_env) (pseq "ACDE" (Some "x")) 2 ["W"%char]
    = Ok s'
    /\ ProteinSequence.len s' = 4%nat
    /\ ProteinSequence.chars s' !! 2%nat = Some "W"%char
    /\ (forall q, q <> 2%nat ->
          ProteinSequence.chars s' !! q = lit "ACDE" !! q)
    /\ ProteinSequence._id s' = None
    /\ ProteinSequence._structure s' = None.
Proof.
  refine (proj1 (mutate_replaces_one_symbol (E := demo_env)
                   (pseq "ACDE" (Some "x")) 2 "W"%char _ _) _).
  - wf_by_eval.
  - vm_compute; reflexivity.
  - vm_compute. split; discriminate || reflexivity.
Defined.

(** ** One distinct value: [len(set(...)) == 1] *)

Lemma size_one_iff `{Countable A} (l : list A) :
  size (list_to_set l : gset A) = 1%nat
  <-> exists x, x ∈ l /\ forall y, y ∈ l -> y = x.
Proof.
  split.
  - intros Hs. apply size_1_elem_of in Hs as [x Hx].
    apply leibniz_equiv in Hx. exists x. split.
    + apply (elem_of_list_to_set (C := gset A)). rewrite Hx. set_solver.
    + intros y Hy. apply (elem_of_list_to_set (C := gset A)) in Hy.
      rewrite Hx in Hy. set_solver.
  - intros (x & Hx & Hall).
    assert (Heq : (list_to_set l : gset A) = {[x]}).
    { apply set_eq. intros y. rewrite elem_of_list_to_set, elem_of_singleton.
      split; [by apply Hall | by intros ->]. }
    rewrite Heq. apply size_singleton.
Qed.

Lemma size_one_fmap `{Countable A} {B} (f : B -> A) (l : list B) :
  size (list_to_set (f <$> l) : gset A) = 1%nat
  <-> exists b, b ∈ l /\ forall b', b' ∈ l -> f b' = f b.
Proof.
  rewrite size_one_iff. split.
  - intros (x & Hx & Hall). apply list_elem_of_fmap in Hx as (b & -> & Hb).
    exists b. split; [done|]. intros b' Hb'. apply Hall.
    apply list_elem_of_fmap. by exists b'.
  - intros (b & Hb & Hall). exists (f b). split.
    + apply list_elem_of_fmap. by exists b.
    + intros y Hy. apply list_elem_of_fmap in Hy as (b' & -> & Hb').
      by apply Hall.
Qed.

Lemma aligned_iff (C : ProteinSequences.t) :
  ProteinSequences.aligned C = true
  <-> exists s, s ∈ C /\
        forall s', s' ∈ C -> ProteinSequence.len s' = ProteinSequence.len s.
Proof.
  unfold ProteinSequences.aligned. rewrite bool_decide_eq_true.
  apply size_one_fmap.
Qed.

Lemma aligned_head (C : ProteinSequences.t) :
  ProteinSequences.aligned C = true ->
  exists s0 r, C = s0 :: r /\
    forall s, s ∈ C -> ProteinSequence.len s = ProteinSequence.len s0.
Proof.
  intros (s & Hs & Hall)%aligned_iff. destruct C as [|s0 r].
  - by apply elem_of_nil in Hs.
  - exists s0, r. split; [done|]. intros s' Hs'.
    rewrite (Hall s') by done. symmetry. apply Hall. by left.
Qed.

Lemma aligned_nonempty (C : ProteinSequences.t) :
  ProteinSequences.aligned C = true -> C <> [].
Proof. by intros (s0 & r & -> & _)%aligned_head. Qed.

Section Empty.
Context `{E : Env}.

(** C9. The collection with no member is neither aligned nor of fixed
    length, its width is [None] and is computed without an exception, and
    [mutated_positions] warns and returns [None]; in every collection that
    passes the alignment test of [mutated_positions], the test [not self]
    that follows it is false. *)
Theorem empty_collection_properties :
  ProteinSequences.aligned [] = false
  /\ ProteinSequences.fixed_length [] = false
  /\ ProteinSequences.width [] = Ok None
  /\ ProteinSequences.mutated_positions [] = ([SequencesNotAligned], Ok None)
  /\ forall C : ProteinSequences.t,
       negb (ProteinSequences.aligned C) = false -> bool_decide (C = []) = false.
Proof.
  assert (Ha : ProteinSequences.aligned [] = false).
  { apply not_true_is_false. by intros H%aligned_nonempty. }
  split_and!.
  - exact Ha.
  - apply bool_decide_eq_false. rewrite size_one_fmap.
    intros (b & Hb & _). by apply elem_of_nil in Hb.
  - unfold ProteinSequences.width. by rewrite Ha.
  - unfold ProteinSequences.mutated_positions. by rewrite Ha.
  - intros C HC. apply negb_false_iff in HC.
    apply bool_decide_eq_false. by apply aligned_nonempty.
Qed.

End Empty.

Lemma empty_collection_properties_witness :
  bool_decide ([pseq "ACDE" None] = []) = false.
Proof.
  refine (proj2 (proj2 (proj2 (proj2
            (empty_collection_properties (E := demo_env))))) _ _).
  vm_compute; reflexivity.
Defined.

(** ** iter_batches *)

Lemma mapR_py_slice {A B} (f : A -> result B) (l : list A) (k : list B) a b :
  mapR f l = Ok k -> mapR f (py_slice l a b) = Ok (py_slice k a b).
Proof.
  intros H. unfold py_slice. rewrite (mapR_length _ _ _ H).
  by apply mapR_take_drop.
Qed.

Lemma concat_windows {A} (l : list A) (n m : nat) :
  concat (map (fun k => take n (drop (k * n) l)) (seq 0 m)) = take (m * n) l.
Proof.
  induction m as [|m IH].
  - by rewrite take_0.
  - rewrite seq_S, map_app, concat_app, IH. simpl. rewrite app_nil_r.
    rewrite take_take_drop. f_equal. lia.
Qed.

Lemma range_from_zero (L n : nat) :
  (1 <= n)%nat ->
  exists cnt : nat,
    py_range 0 (Z.of_nat L) (Z.of_nat n)
    = Ok (map (fun k => Z.of_nat (k * n)) (seq 0 cnt))
    /\ Z.of_nat cnt = (Z.of_nat L + Z.of_nat n - 1) / Z.of_nat n
    /\ (L <= cnt * n)%nat
    /\ (cnt * n < L + n)%nat.
Proof.
  intros Hn. unfold py_range, range_length.
  destruct (Z.eqb_spec (Z.of_nat n) 0); [lia|].
  destruct (Z.ltb_spec 0 (Z.of_nat n)); [|lia].
  set (q := (Z.of_nat L + Z.of_nat n - 1) / Z.of_nat n).
  assert (Hq : Z.of_nat n * q <= Z.of_nat L + Z.of_nat n - 1
               < Z.of_nat n * q + Z.of_nat n).
  { subst q. pose proof (Z.mul_div_le (Z.of_nat L + Z.of_nat n - 1) (Z.of_nat n)).
    pose proof (Z.mul_succ_div_gt (Z.of_nat L + Z.of_nat n - 1) (Z.of_nat n)).
    lia. }
  assert (Hq0 : 0 <= q) by (subst q; apply Z.div_pos; lia).
  assert (Hlen : (if 0 <? Z.of_nat L then (Z.of_nat L - 0 - 1) / Z.of_nat n + 1
                  else 0) = q).
  { destruct (Z.ltb_spec 0 (Z.of_nat L)).
    - subst q. rewrite <- Z.div_add by lia. f_equal. lia.
    - subst q. symmetry. apply Z.div_small. lia. }
  rewrite Hlen. exists (Z.to_nat q). split_and!.
  - f_equal. apply map_ext. intros k. lia.
  - lia.
  - nia.
  - nia.
Qed.

Section Batches.
Context `{E : Env}.

(** In memory: [ceil(L/n)] batches, batch [k] the window of [n] members
    that starts at member [k*n]. *)
Lemma batches_are_windows (C : ProteinSequences.t) (n : Z) :
  1 <= n ->
  exists bs,
    ProteinSequences.iter_batches C n = Ok bs
    /\ Z.of_nat (length bs) = (Z.of_nat (length C) + n - 1) / n
    /\ (forall k b, bs !! k = Some b ->
          b = take (Z.to_nat n) (drop (k * Z.to_nat n) C))
    /\ (forall k b, bs !! k = Some b -> (S k < length bs)%nat ->
          Z.of_nat (length b) = n)
    /\ (forall b, last bs = Some b ->
          Z.of_nat (length b)
          = if Z.of_nat (length C) mod n =? 0 then n
            else Z.of_nat (length C) mod n)
    /\ concat bs = C.
Proof.
  intros Hn.
  set (m := Z.to_nat n). assert (Hm : (1 <= m)%nat) by lia.
  assert (Hnm : n = Z.of_nat m) by lia.
  destruct (range_from_zero (length C) m Hm) as (cnt & Hr & Hcnt & Hge & Hlt).
  exists (map (fun k => take m (drop (k * m) C)) (seq 0 cnt)).
  assert (Hlook : forall k b,
    map (fun k => take m (drop (k * m) C)) (seq 0 cnt) !! k = Some b ->
    (k < cnt)%nat /\ b = take m (drop (k * m) C)).
  { intros k b Hk. rewrite list_lookup_fmap in Hk.
    destruct (seq 0 cnt !! k) as [k'|] eqn:Hk'; [|done].
    apply lookup_seq in Hk' as [-> ?]. simpl in Hk. by injection Hk as <-. }
  split_and!.
  + unfold ProteinSequences.iter_batches. rewrite Hnm, Hr. simpl. f_equal.
    rewrite map_map. apply map_ext. intros k.
    replace (Z.to_nat (Z.of_nat m)) with m by lia.
    apply py_slice_window.
  + rewrite length_map, length_seq. by rewrite Hnm.
  + intros k b Hk. by apply Hlook in Hk as [_ ->].
  + intros k b Hk Hlast. rewrite length_map, length_seq in Hlast.
    apply Hlook in Hk as [_ ->]. rewrite length_take, length_drop. nia.
  + intros b Hb. rewrite last_lookup in Hb. rewrite length_map, length_seq in Hb.
    assert (Hc : (0 < cnt)%nat).
    { destruct cnt; [|lia]. simpl in Hb. discriminate. }
    apply Hlook in Hb as [_ ->]. rewrite length_take, length_drop.
    replace (Init.Nat.pred cnt) with (cnt - 1)%nat by lia.
    rewrite Hnm. set (L := length C) in *.
    assert (HL : Z.of_nat L = Z.of_nat m * Z.of_nat (cnt - 1)
                              + (Z.of_nat L - Z.of_nat m * Z.of_nat (cnt - 1)))
      by lia.
    destruct (decide (L = cnt * m)%nat) as [Heq|Hne].
    * assert (Hmod : Z.of_nat L mod Z.of_nat m = 0).
      { rewrite Heq, Nat2Z.inj_mul. apply Z.mod_mul. lia. }
      rewrite Hmod. simpl. nia.
    * assert (Hmod : Z.of_nat L mod Z.of_nat m
                     = Z.of_nat L - Z.of_nat m * Z.of_nat (cnt - 1)).
      { symmetry. apply (Z.mod_unique_pos _ _ (Z.of_nat (cnt - 1))); nia. }
      rewrite Hmod.
      destruct (Z.eqb_spec (Z.of_nat L - Z.of_nat m * Z.of_nat (cnt - 1)) 0); nia.
  + rewrite concat_windows. apply take_ge. lia.
Qed.

(** On file: when every member the index lists can be read, the batches
    are those of the list of these members. *)
Lemma on_file_batches_of_members (F : ProteinSequencesOnFile.t)
    (members : ProteinSequences.t) (n : Z) :
  mapR (fun id => ProteinSequencesOnFile.getitem F (inr id))
       (dict_keys (ProteinSequencesOnFile._index F)) = Ok members ->
  length members = ProteinSequencesOnFile.len F
  /\ ProteinSequencesOnFile.iter_batches F n
     = ProteinSequences.iter_batches members n.
Proof.
  intros Hmem. split.
  + rewrite (mapR_length _ _ _ Hmem). unfold dict_keys.
    by rewrite length_map.
  + unfold ProteinSequencesOnFile.iter_batches, ProteinSequences.iter_batches.
    unfold ProteinSequencesOnFile.len.
    rewrite (mapR_length _ _ _ Hmem).
    replace (length (dict_keys (ProteinSequencesOnFile._index F)))
      with (length (ProteinSequencesOnFile._index F))
      by (unfold dict_keys; by rewrite length_map).
    destruct (py_range 0 (Z.of_nat (length (ProteinSequencesOnFile._index F))) n)
      as [starts|e]; [|done].
    simpl. induction starts as [|i starts IH]; [done|].
    simpl. rewrite (mapR_py_slice _ _ _ _ _ Hmem). simpl.
    by rewrite IH.
Qed.

Lemma mapR_app {A B} (g : A -> result B) (a b : list A) :
  mapR g (a ++ b) = (x ← mapR g a; y ← mapR g b; Ok (x ++ y)).
Proof.
  induction a as [|c a IH]; simpl.
  - by destruct (mapR g b).
  - destruct (g c); simpl; [|done]. rewrite IH.
    destruct (mapR g a); simpl; [|done]. by destruct (mapR g b).
Qed.

Lemma mapR_concat {A B} (g : A -> result B) (ws : list (list A)) :
  mapR g (concat ws) = (bs ← mapR (mapR g) ws; Ok (concat bs)).
Proof.
  induction ws as [|w ws IH]; [done|].
  cbn [concat mapR]. rewrite mapR_app, IH.
  destruct (mapR g w); simpl; [|done].
  by destruct (mapR (mapR g) ws).
Qed.

Lemma mapR_map {A B D} (g : B -> result D) (h : A -> B) (l : list A) :
  mapR g (map h l) = mapR (fun a => g (h a)) l.
Proof. induction l as [|a l IH]; simpl; [done|]. by rewrite IH. Qed.

(** On file: the first member that cannot be read ends the iteration
    with its exception. *)
Lemma on_file_batches_raise (F : ProteinSequencesOnFile.t) (n : Z) (e : exn) :
  1 <= n ->
  mapR (fun id => ProteinSequencesOnFile.getitem F (inr id))
       (dict_keys (ProteinSequencesOnFile._index F)) = Raise e ->
  ProteinSequencesOnFile.iter_batches F n = Raise e.
Proof.
  intros Hn Hmem. set (keys := dict_keys (ProteinSequencesOnFile._index F)) in *.
  set (m := Z.to_nat n). assert (Hm : (1 <= m)%nat) by lia.
  assert (Hnm : n = Z.of_nat m) by lia.
  assert (HL : ProteinSequencesOnFile.len F = length keys).
  { unfold ProteinSequencesOnFile.len, keys, dict_keys.
    by rewrite length_map. }
  destruct (range_from_zero (length keys) m Hm)
    as (cnt & Hr & Hcnt & Hge & Hlt).
  unfold ProteinSequencesOnFile.iter_batches. fold keys.
  rewrite HL, Hnm, Hr. simpl. rewrite mapR_map.
  assert (Hwin : mapR (fun k =>
                    mapR (fun id => ProteinSequencesOnFile.getitem F (inr id))
                         (py_slice keys (Some (Z.of_nat (k * m)))
                                   (Some (Z.of_nat (k * m) + Z.of_nat m))))
                      (seq 0 cnt)
                 = mapR (mapR (fun id =>
                                 ProteinSequencesOnFile.getitem F (inr id)))
                        (map (fun k => take m (drop (k * m) keys))
                             (seq 0 cnt))).
  { rewrite mapR_map. generalize (seq 0 cnt). intros l.
    induction l as [|k l IH]; [done|].
    simpl. by rewrite py_slice_window, IH. }
  rewrite Hwin.
  assert (Hcat : concat (map (fun k => take m (drop (k * m) keys)) (seq 0 cnt))
                 = keys).
  { rewrite concat_windows. apply take_ge. lia. }
  rewrite <- Hcat, mapR_concat in Hmem.
  destruct (mapR (mapR _) _) as [bs|e']; simpl in Hmem; [done|].
  by injection Hmem as ->.
Qed.

End Batches.

(** ** mutated_positions *)

Lemma size_gt_one_iff `{Countable A} (l : list A) :
  (1 < size (list_to_set l : gset A))%nat
  <-> exists x y, x ∈ l /\ y ∈ l /\ x <> y.
Proof.
  split.
  - intros Hs.
    destruct (size_pos_elem_of (list_to_set l : gset A)) as [x Hx]; [lia|].
    apply elem_of_list_to_set in Hx.
    destruct (decide (Forall (fun y => y = x) l)) as [Hall|Hex].
    + assert (size (list_to_set l : gset A) = 1%nat); [|lia].
      apply size_one_iff. exists x. split; [done|].
      intros y Hy. by eapply Forall_forall in Hall.
    + apply not_Forall_Exists in Hex; [|apply _].
      apply Exists_exists in Hex as (y & Hy & Hne).
      simpl in Hne. exists x, y. split_and!; [done | done | congruence].
  - intros (x & y & Hx & Hy & Hne).
    assert (Hsub : ({[x]} ∪ {[y]} : gset A) ⊆ list_to_set l).
    { intros z [->%elem_of_singleton| ->%elem_of_singleton]%elem_of_union;
        by apply elem_of_list_to_set. }
    apply subseteq_size in Hsub.
    rewrite size_union in Hsub by set_solver.
    rewrite !size_singleton in Hsub. lia.
Qed.

(** The symbols of column [i]. *)
Lemma column_Ok (C : ProteinSequences.t) (n i : nat) :
  (forall s, s ∈ C -> ProteinSequence.len s = n) -> (i < n)%nat ->
  exists cs,
    mapR (fun s => ProteinSequence.get_protein_character s (Z.of_nat i)) C = Ok cs
    /\ Forall2 (fun s c => ProteinSequence.chars s !! i = Some c) C cs.
Proof.
  intros Hlen Hi. induction C as [|s C IH].
  - exists []. split; [done | constructor].
  - destruct IH as (cs & Hcs & Hall).
    { intros s' Hs'. apply Hlen. by right. }
    assert (Hs : ProteinSequence.len s = n) by (apply Hlen; by left).
    destruct (lookup_lt_is_Some_2 (ProteinSequence.chars s) i) as [c Hc].
    { unfold ProteinSequence.len in Hs. lia. }
    exists (c :: cs). split; [|by constructor].
    simpl. rewrite Hcs. unfold ProteinSequence.get_protein_character.
    destruct (Z.ltb_spec (Z.of_nat i) 0); [lia|].
    destruct (Z.geb_spec (Z.of_nat i) (Z.of_nat (ProteinSequence.len s))); [lia|].
    simpl. by rewrite (py_index_lookup _ _ _ Hc).
Qed.

Lemma column_varies (C : ProteinSequences.t) (cs : list ascii) (i : nat) :
  Forall2 (fun s c => ProteinSequence.chars s !! i = Some c) C cs ->
  (1 < size (list_to_set cs : gset ascii))%nat <-> varies C i.
Proof.
  intros Hall. rewrite size_gt_one_iff. split.
  - intros (c & d & Hc & Hd & Hne).
    apply list_elem_of_lookup in Hc as [j Hj], Hd as [k Hk].
    destruct (Forall2_lookup_r _ _ _ _ _ Hall Hj) as (s & Hs & Hsc).
    destruct (Forall2_lookup_r _ _ _ _ _ Hall Hk) as (t & Ht & Htd).
    exists s, t, c, d. split_and!; try done; by eapply list_elem_of_lookup_2.
  - intros (s & t & c & d & Hs & Ht & Hc & Hd & Hne).
    apply list_elem_of_lookup in Hs as [j Hj], Ht as [k Hk].
    destruct (Forall2_lookup_l _ _ _ _ _ Hall Hj) as (c' & Hc' & Hsc).
    destruct (Forall2_lookup_l _ _ _ _ _ Hall Hk) as (d' & Hd' & Htd).
    exists c, d. rewrite Hc in Hsc. rewrite Hd in Htd. simplify_eq.
    split_and!; try done; by eapply list_elem_of_lookup_2.
Qed.

Lemma mutated_step_varies (C : ProteinSequences.t) (n i : nat) (acc : list nat) :
  (forall s, s ∈ C -> ProteinSequence.len s = n) -> (i < n)%nat ->
  (varies C i /\ ProteinSequences.mutated_step C acc i = Ok (acc ++ [i]))
  \/ (~ varies C i /\ ProteinSequences.mutated_step C acc i = Ok acc).
Proof.
  intros Hlen Hi. destruct (column_Ok C n i Hlen Hi) as (cs & Hcs & Hall).
  unfold ProteinSequences.mutated_step. rewrite Hcs. simpl.
  pose proof (column_varies C cs i Hall) as Hv.
  destruct (decide (1 < size (list_to_set cs : gset ascii))%nat) as [Hd|Hd].
  - left. split; [by apply Hv | done].
  - right. split; [by rewrite <- Hv | done].
Qed.

Lemma mutated_loop (C : ProteinSequences.t) (n k a : nat) (acc : list nat) :
  (forall s, s ∈ C -> ProteinSequence.len s = n) -> (a + k <= n)%nat ->
  exists l,
    foldR (ProteinSequences.mutated_step C)
          (seq a k) acc = Ok (acc ++ l)
    /\ StronglySorted lt l
    /\ forall i, i ∈ l <-> (a <= i < a + k)%nat /\ varies C i.
Proof.
  intros Hlen. revert a acc. induction k as [|k IH]; intros a acc Hk.
  - exists []. rewrite app_nil_r. split_and!; [done | constructor |].
    intros i. split; [by intros ?%elem_of_nil | lia].
  - simpl.
    destruct (mutated_step_varies C n a acc Hlen) as [[Hv Hst]|[Hv Hst]];
      [lia| |]; rewrite Hst; simpl.
    + destruct (IH (S a) (acc ++ [a])) as (l & Hl & Hs & Hin); [lia|].
      exists (a :: l). rewrite Hl, <- app_assoc. split_and!; [done| |].
      * constructor; [done|]. apply Forall_forall. intros i Hi.
        apply Hin in Hi. lia.
      * intros i. rewrite elem_of_cons, Hin. split.
        -- intros [->|[? ?]]; [split; [lia | done] | split; [lia|done]].
        -- intros [? ?]. destruct (decide (i = a)); [by left | right].
           split; [lia | done].
    + destruct (IH (S a) acc) as (l & Hl & Hs & Hin); [lia|].
      exists l. split_and!; [done | done |].
      intros i. rewrite Hin. split.
      * intros [? ?]. split; [lia | done].
      * intros [? Hvi]. split; [|done].
        destruct (decide (i = a)) as [->|]; [done|lia].
Qed.

(** C5. On a collection that is not aligned, [mutated_positions] emits
    the warning and returns [None]. On an aligned collection it emits
    nothing and returns the columns at which two members carry different
    symbols, each once and in increasing order. On the members ["ACDE"]
    and ["AC-E"] it returns [[2]]. *)
Theorem mutated_positions_columns :
  (forall C : ProteinSequences.t,
     ProteinSequences.aligned C = false ->
     ProteinSequences.mutated_positions C = ([SequencesNotAligned], Ok None))
  /\ (forall C : ProteinSequences.t,
        ProteinSequences.aligned C = true ->
        exists l,
          ProteinSequences.mutated_positions C = ([], Ok (Some l))
          /\ StronglySorted lt l
          /\ forall i, i ∈ l <-> varies C i)
  /\ ProteinSequences.mutated_positions [pseq "ACDE" None; pseq "AC-E" None]
     = ([], Ok (Some [2%nat])).
Proof.
  split_and!.
  - intros C Ha. unfold ProteinSequences.mutated_positions. by rewrite Ha.
  - intros C Ha. unfold ProteinSequences.mutated_positions. rewrite Ha. simpl.
    destruct (aligned_head C Ha) as (s0 & r & -> & Hlen).
    rewrite bool_decide_eq_false_2 by done.
    change (py_index (s0 :: r) 0) with (Ok s0). simpl.
    destruct (mutated_loop (s0 :: r) (ProteinSequence.len s0)
                (ProteinSequence.len s0) 0 [] Hlen) as (l & Hl & Hs & Hin); [lia|].
    exists l. simpl in Hl. rewrite Hl. split_and!; [done | done |].
    intros i. rewrite Hin. split; [by intros [_ ?]|].
    intros Hv. split; [|done].
    destruct Hv as (s & _ & c & _ & Hs' & _ & Hc & _).
    apply lookup_lt_Some in Hc. rewrite <- (Hlen s Hs').
    unfold ProteinSequence.len. lia.
  - vm_compute. reflexivity.
Qed.

Lemma mutated_positions_columns_witness :
  exists l,
    ProteinSequences.mutated_positions [pseq "ACDE" None; pseq "AC-E" None]
    = ([], Ok (Some l))
    /\ StronglySorted lt l
    /\ forall i, i ∈ l <-> varies [pseq "ACDE" None; pseq "AC-E" None] i.
Proof.
  refine (proj1 (proj2 mutated_positions_columns) _ _).
  vm_compute; reflexivity.
Defined.

(** ** Every returned sequence is validated *)

Section Validated.
Context `{E : Env}.

Lemma all_valid_validated (s : ProteinSequence.t) :
  all_valid (ProteinSequence.chars s) <-> validated s.
Proof.
  unfold all_valid, validated. rewrite Forall_forall.
  split; intros H c Hc; specialize (H c Hc);
    unfold ProteinCharacter.valid_symbol in *.
  - apply bool_decide_eq_true in H. by rewrite !elem_of_app in H.
  - apply bool_decide_eq_true. by rewrite !elem_of_app.
Qed.

Lemma new_validated (seq : str) (id structure : option str) (s : ProteinSequence.t) :
  ProteinSequence.new seq id structure = Ok s -> validated s.
Proof. intros [_ [Hv _]]%new_inv. by apply all_valid_validated. Qed.

(** C8. Whatever [ProteinSequence.__new__], [mutate], [with_no_gaps],
    [slice_as_protein_sequence] and [apply_alignment_mapping] return
    holds only symbols whose upper-case form is in one of the three
    alphabets. [mutate] with a symbol outside them never returns: it
    raises, and on a sequence built by the constructor and a position in
    range the exception is the constructor's, for that symbol. *)
Theorem returned_sequences_validated :
  (forall seq id structure s,
     ProteinSequence.new seq id structure = Ok s -> validated s)
  /\ (forall s p new_character s',
        ProteinSequence.mutate s p new_character = Ok s' -> validated s')
  /\ (forall s s', ProteinSequence.with_no_gaps s = Ok s' -> validated s')
  /\ (forall s start stop s',
        ProteinSequence.slice_as_protein_sequence s start stop = Ok s' ->
        validated s')
  /\ (forall C mapping C',
        ProteinSequences.apply_alignment_mapping C mapping = Ok C' ->
        forall s', s' ∈ C' -> validated s')
  /\ (forall s p c,
        ProteinCharacter.valid_symbol c = false ->
        (exists e, ProteinSequence.mutate s p [c] = Raise e)
        /\ (wf s -> 0 <= p < Z.of_nat (ProteinSequence.len s) ->
            ProteinSequence.mutate s p [c]
            = Raise (ValueError (InvalidCharacter c)))).
Proof.
  split_and!.
  - apply new_validated.
  - intros s p nc s'. unfold ProteinSequence.mutate.
    destruct (_ || _); [done|]. apply new_validated.
  - intros s s'. apply new_validated.
  - intros s a b s'. apply new_validated.
  - intros C mapping C'. unfold ProteinSequences.apply_alignment_mapping.
    destruct (ProteinSequences.has_gaps C); [done|].
    intros H%mapR_Ok_Forall2 s' Hs'.
    apply list_elem_of_lookup in Hs' as [j Hj].
    destruct (Forall2_lookup_r _ _ _ _ _ H Hj) as ([i s] & _ & Hs).
    unfold ProteinSequences.align_member in Hs.
    destruct (mapping !! Z.of_nat i); [|done].
    apply bind_Ok in Hs as (m & _ & Hs).
    apply bind_Ok in Hs as (buf & _ & Hs).
    by eapply new_validated.
  - intros s p c Hc. split.
    + destruct (ProteinSequence.mutate s p [c]) as [s'|e] eqn:Hm; [|by exists e].
      exfalso. unfold ProteinSequence.mutate in Hm.
      destruct (_ || _); [done|].
      apply new_inv in Hm as [-> [Hv _]]. simpl in Hv.
      unfold all_valid in Hv. apply Forall_app in Hv as [_ Hv].
      inversion Hv; congruence.
    + intros [Hv _] Hp. rewrite mutate_in_range by done.
      unfold ProteinSequence.new. simpl.
      rewrite characters_invalid; [done| |done].
      by apply Forall_take.
Qed.

End Validated.

Lemma returned_sequences_validated_witness :
  (exists e,
     ProteinSequence.mutate (E := demo_env) (pseq "ACDE" (Some "x")) 1 ["1"%char]
     = Raise e)
  /\ (wf (E := demo_env) (pseq "ACDE" (Some "x")) ->
      0 <= 1 < Z.of_nat (ProteinSequence.len (pseq "ACDE" (Some "x"))) ->
      ProteinSequence.mutate (E := demo_env) (pseq "ACDE" (Some "x")) 1 ["1"%char]
      = Raise (ValueError (InvalidCharacter "1"%char))).
Proof.
  refine (proj2 (proj2 (proj2 (proj2 (proj2
            (returned_sequences_validated (E := demo_env))))))
            (pseq "ACDE" (Some "x")) 1 "1"%char _).
  vm_compute; reflexivity.
Defined.

(** ** get_alignment_mapping *)

Section Mapping.
Context `{E : Env}.

Lemma seq_mapping_fold (cs : str) (a : nat) (acc : list (option Z)) (n : Z) :
  fold_left (fun '(seq_mapping, original_pos) '(aligned_pos, char) =>
               if negb (ProteinCharacter.is_gap char)
               then (seq_mapping ++ [Some (Z.of_nat aligned_pos)],
                     original_pos + 1)
               else (seq_mapping, original_pos))
            (zip (seq a (length cs)) cs) (acc, n)
  = (acc ++ (some_col <$> columns_from a cs),
     n + Z.of_nat (length (columns_from a cs))).
Proof.
  revert a acc n. induction cs as [|c cs IH]; intros a acc n; simpl.
  - rewrite app_nil_r. f_equal. lia.
  - destruct (ProteinCharacter.is_gap c); simpl.
    + apply IH.
    + rewrite IH, <- app_assoc. simpl. f_equal. lia.
Qed.

Lemma seq_mapping_of_columns (s : ProteinSequence.t) :
  ProteinSequences.seq_mapping_of s
  = (some_col <$> columns_from 0 (ProteinSequence.chars s),
     Z.of_nat (length (columns_from 0 (ProteinSequence.chars s)))).
Proof.
  unfold ProteinSequences.seq_mapping_of, enumerate.
  by rewrite seq_mapping_fold.
Qed.

Lemma columns_from_bounds (cs : str) (a p : nat) :
  p ∈ columns_from a cs -> (a <= p < a + length cs)%nat.
Proof.
  revert a. induction cs as [|c cs IH]; intros a; simpl.
  - by intros ?%elem_of_nil.
  - destruct (ProteinCharacter.is_gap c).
    + intros H%IH. lia.
    + intros [->|H%IH]%elem_of_cons; lia.
Qed.

Lemma columns_from_sorted (cs : str) (a : nat) :
  StronglySorted lt (columns_from a cs).
Proof.
  revert a. induction cs as [|c cs IH]; intros a; simpl; [constructor|].
  destruct (ProteinCharacter.is_gap c); [apply IH|].
  constructor; [apply IH|]. apply Forall_forall.
  intros p Hp%columns_from_bounds. lia.
Qed.

Lemma columns_from_elem (cs : str) (a p : nat) :
  p ∈ columns_from a cs
  <-> (a <= p)%nat /\ exists c, cs !! (p - a)%nat = Some c
                                /\ ProteinCharacter.is_gap c = false.
Proof.
  revert a. induction cs as [|c cs IH]; intros a; simpl.
  - split; [by intros ?%elem_of_nil | by intros (_ & ? & ? & _)].
  - destruct (ProteinCharacter.is_gap c) eqn:Hc.
    + rewrite IH. split.
      * intros (Hle & d & Hd & Hg). split; [lia|]. exists d. split; [|done].
        replace (p - a)%nat with (S (p - S a)) by lia. done.
      * intros (Hle & d & Hd & Hg).
        destruct (decide (p = a)) as [->|Hne].
        -- rewrite Nat.sub_diag in Hd. simpl in Hd. congruence.
        -- split; [lia|]. exists d. split; [|done].
           replace (p - a)%nat with (S (p - S a)) in Hd by lia. done.
    + rewrite elem_of_cons, IH. split.
      * intros [->|(Hle & d & Hd & Hg)].
        -- split; [lia|]. exists c. by rewrite Nat.sub_diag.
        -- split; [lia|]. exists d. split; [|done].
           replace (p - a)%nat with (S (p - S a)) by lia. done.
      * intros (Hle & d & Hd & Hg).
        destruct (decide (p = a)) as [->|Hne]; [by left | right].
        split; [lia|]. exists d. split; [|done].
        replace (p - a)%nat with (S (p - S a)) in Hd by lia. done.
Qed.

Lemma num_gaps_fold (cs : str) (a : nat) (z : Z) :
  fold_left (fun acc c => acc + (if ProteinCharacter.is_gap c then 1 else 0)) cs z
  = z + Z.of_nat (length cs) - Z.of_nat (length (columns_from a cs)).
Proof.
  revert a z. induction cs as [|c cs IH]; intros a z; simpl; [lia|].
  rewrite (IH (S a)). destruct (ProteinCharacter.is_gap c); simpl; lia.
Qed.

Lemma base_length_columns (s : ProteinSequence.t) :
  ProteinSequence.base_length s
  = Z.of_nat (length (columns_from 0 (ProteinSequence.chars s))).
Proof.
  unfold ProteinSequence.base_length, ProteinSequence.num_gaps,
    ProteinSequence.len.
  rewrite (num_gaps_fold _ 0). lia.
Qed.

(** The dictionary that the outer loop builds. *)
Lemma mapping_fold_outside (C : ProteinSequences.t) (a : nat)
    (m0 : gmap Z (list (option Z))) (k : Z) :
  ~ (Z.of_nat a <= k < Z.of_nat (a + length C)) ->
  fold_left (fun mapping '(i, s) =>
               <[Z.of_nat i := fst (ProteinSequences.seq_mapping_of s)]> mapping)
            (zip (seq a (length C)) C) m0 !! k = m0 !! k.
Proof.
  revert a m0. induction C as [|s C IH]; intros a m0 Hk; simpl; [done|].
  rewrite IH by (simpl in Hk; lia).
  apply lookup_insert_ne. simpl in Hk. lia.
Qed.

Lemma mapping_fold_inside (C : ProteinSequences.t) (a : nat)
    (m0 : gmap Z (list (option Z))) (i : nat) (s : ProteinSequence.t) :
  C !! i = Some s ->
  fold_left (fun mapping '(i, s) =>
               <[Z.of_nat i := fst (ProteinSequences.seq_mapping_of s)]> mapping)
            (zip (seq a (length C)) C) m0 !! Z.of_nat (a + i)
  = Some (fst (ProteinSequences.seq_mapping_of s)).
Proof.
  revert a m0 i. induction C as [|s0 C IH]; intros a m0 i Hi; [done|].
  destruct i as [|i]; simpl in *.
  - injection Hi as ->. rewrite mapping_fold_outside by lia.
    rewrite Nat.add_0_r. apply lookup_insert_eq.
  - replace (a + S i)%nat with (S a + i)%nat by lia. by apply IH.
Qed.

(** C7. [get_alignment_mapping] raises exactly on the collections that
    are not aligned. On an aligned collection it returns a dictionary
    whose keys are the member indices [0 .. len - 1]; the entry of member
    [i] lists the zero-based columns of the symbols of that member that
    are not gaps: as many as its [base_length], in strictly increasing
    order. *)
Theorem get_alignment_mapping_columns (C : ProteinSequences.t) :
  ((exists e, ProteinSequences.get_alignment_mapping C = Raise e)
   <-> ProteinSequences.aligned C = false)
  /\ (ProteinSequences.aligned C = true ->
      exists mapping,
        ProteinSequences.get_alignment_mapping C = Ok mapping
        /\ (forall k, is_Some (mapping !! k) <-> 0 <= k < Z.of_nat (length C))
        /\ forall i s, C !! i = Some s ->
             exists cols : list nat,
               mapping !! Z.of_nat i = Some (some_col <$> cols)
               /\ Z.of_nat (length cols) = ProteinSequence.base_length s
               /\ StronglySorted lt cols
               /\ forall p, p ∈ cols <->
                    exists c, ProteinSequence.chars s !! p = Some c
                              /\ ProteinCharacter.is_gap c = false).
Proof.
  unfold ProteinSequences.get_alignment_mapping, enumerate. split.
  - destruct (ProteinSequences.aligned C); simpl.
    + split; [by intros [e ?] | done].
    + split; [done | by eexists].
  - intros ->. simpl. eexists. split; [done|]. split.
    + intros k. destruct (decide (0 <= k < Z.of_nat (length C))) as [Hk|Hk].
      * split; [done|]. intros _.
        destruct (lookup_lt_is_Some_2 C (Z.to_nat k)) as [s Hs]; [lia|].
        pose proof (mapping_fold_inside C 0 ∅ _ s Hs) as Hm.
        replace (Z.of_nat (0 + Z.to_nat k)) with k in Hm by lia.
        by rewrite Hm.
      * rewrite mapping_fold_outside by (simpl; lia).
        rewrite lookup_empty. split; [by intros [? ?] | done].
    + intros i s Hs. exists (columns_from 0 (ProteinSequence.chars s)).
      split_and!.
      * pose proof (mapping_fold_inside C 0 ∅ i s Hs) as Hm. simpl in Hm.
        by rewrite Hm, seq_mapping_of_columns.
      * by rewrite base_length_columns.
      * apply columns_from_sorted.
      * intros p. rewrite columns_from_elem, Nat.sub_0_r. split.
        -- by intros [_ ?].
        -- intros ?. split; [lia | done].
Qed.

End Mapping.

Lemma get_alignment_mapping_columns_witness :
  exists mapping,
    ProteinSequences.get_alignment_mapping (E := demo_env)
      [pseq "A-C" None; pseq "AGC" None] = Ok mapping
    /\ (forall k, is_Some (mapping !! k) <-> 0 <= k < Z.of_nat 2)
    /\ forall i s, [pseq "A-C" None; pseq "AGC" None] !! i = Some s ->
         exists cols : list nat,
           mapping !! Z.of_nat i = Some (some_col <$> cols)
           /\ Z.of_nat (length cols) = ProteinSequence.base_length (E := demo_env) s
           /\ StronglySorted lt cols
           /\ forall p, p ∈ cols <->
                exists c, ProteinSequence.chars s !! p = Some c
                          /\ ProteinCharacter.is_gap (E := demo_env) c = false.
Proof.
  refine (proj2 (get_alignment_mapping_columns (E := demo_env)
                   [pseq "A-C" None; pseq "AGC" None]) _).
  vm_compute; reflexivity.
Defined.

(** ** apply_alignment_mapping after get_alignment_mapping *)

Lemma fold_max_le (l : list Z) (a n : Z) :
  a <= n -> Forall (fun x => x <= n) l -> fold_left Z.max l a <= n.
Proof.
  intros Ha Hl. revert a Ha. induction Hl as [|x l Hx _ IH]; intros a Ha; simpl.
  - done.
  - apply IH. lia.
Qed.

Lemma py_max_last (l : list Z) (n : Z) :
  Forall (fun x => x <= n) l -> py_max (l ++ [n]) = Ok n.
Proof.
  intros Hl. unfold py_max. destruct l as [|x l]; simpl; [done|].
  rewrite fold_left_app. simpl. f_equal.
  apply Forall_cons in Hl as [Hx Hl].
  pose proof (fold_max_le l x n Hx Hl). lia.
Qed.

Section RoundTrip.
Context `{E : Env}.

Lemma with_no_gaps_wf (s : ProteinSequence.t) :
  wf s -> ProteinSequence.with_no_gaps s = Ok (stripped s).
Proof.
  intros [Hv Hp]. unfold ProteinSequence.with_no_gaps.
  apply new_Ok; [|done]. apply Forall_forall.
  intros c [_ Hc]%list_elem_of_filter. by eapply Forall_forall in Hv.
Qed.

Lemma stripped_no_gaps (s : ProteinSequence.t) :
  ProteinSequence.has_gaps (stripped s) = false.
Proof.
  unfold ProteinSequence.has_gaps, stripped. simpl.
  induction (ProteinSequence.chars s) as [|c cs IH]; [done|].
  destruct (decide (c ∈ GAP_CHARACTERS)) as [Hc|Hc].
  - by rewrite filter_cons_False by tauto.
  - rewrite filter_cons_True by done. simpl. rewrite IH.
    unfold ProteinCharacter.is_gap. by rewrite bool_decide_eq_false_2.
Qed.

Lemma no_gaps_stripped (s : ProteinSequence.t) :
  ProteinSequence.has_gaps s = false -> stripped s = s.
Proof.
  unfold ProteinSequence.has_gaps, stripped. destruct s as [cs id st]. simpl.
  intros H. f_equal. induction cs as [|c cs IH]; [done|].
  simpl in H. apply orb_false_iff in H as [Hc H].
  unfold ProteinCharacter.is_gap in Hc. apply bool_decide_eq_false in Hc.
  rewrite filter_cons_True by done. by rewrite IH.
Qed.

Lemma columns_from_app (x y : str) (a : nat) :
  columns_from a (x ++ y) = columns_from a x ++ columns_from (a + length x) y.
Proof.
  revert a. induction x as [|c x IH]; intros a; simpl.
  - by rewrite Nat.add_0_r.
  - rewrite IH. replace (S a + length x)%nat with (a + S (length x))%nat by lia.
    by destruct (ProteinCharacter.is_gap c).
Qed.

Lemma filter_None_cols_le (l : list nat) (n : nat) :
  Forall (fun p => p < n)%nat l ->
  Forall (fun x => x <= Z.of_nat n) (filter_None (some_col <$> l)).
Proof.
  intros H. induction H as [|p l Hp _ IH]; [constructor|].
  unfold filter_None in *. simpl.
  destruct (decide (Z.of_nat p = 0)); simpl; [done|].
  constructor; [lia | done].
Qed.

(** The width of the buffer: the last column, when it holds a symbol and
    is not column [0]. *)
Lemma max_of_columns (pre : str) (c : ascii) :
  pre <> [] -> ProteinCharacter.is_gap c = false ->
  py_max (filter_None (some_col <$> columns_from 0 (pre ++ [c])))
  = Ok (Z.of_nat (length pre)).
Proof.
  intros Hpre Hc. rewrite columns_from_app. simpl. rewrite Hc.
  rewrite fmap_app. unfold filter_None. rewrite omap_app. simpl.
  destruct (decide (Z.of_nat (length pre) = 0)) as [H0|_].
  { destruct pre; [done | simpl in H0; lia]. }
  apply py_max_last. apply filter_None_cols_le.
  apply Forall_forall. intros p Hp%columns_from_bounds. lia.
Qed.

Lemma place_step (i : nat) (s : ProteinSequence.t) (buf : str)
    (k p : nat) (c : ascii) :
  ProteinSequence.chars s !! k = Some c -> (p < length buf)%nat ->
  ProteinSequences.place i s buf (k, some_col p) = Ok (<[p := c]> buf).
Proof.
  intros Hc Hp. pose proof (lookup_lt_Some _ _ _ Hc).
  unfold ProteinSequences.place, ProteinSequence.len.
  destruct (Nat.leb_spec (length (ProteinSequence.chars s)) k); [lia|].
  rewrite (py_index_lookup _ _ _ Hc). simpl.
  unfold some_col. by rewrite py_setitem_lookup.
Qed.

(** The inner loop writes symbol [k] of the member at its column. *)
Lemma place_loop (i : nat) (s : ProteinSequence.t) (cols : list nat)
    (k0 : nat) (buf : str) :
  Forall (fun p => p < length buf)%nat cols ->
  (k0 + length cols <= ProteinSequence.len s)%nat ->
  foldR (ProteinSequences.place i s)
        (zip (seq k0 (length cols)) (some_col <$> cols)) buf
  = Ok (fold_left (fun b '(col, c) => <[col := c]> b)
                  (zip cols (drop k0 (ProteinSequence.chars s))) buf).
Proof.
  intros Hcols. revert k0 buf Hcols.
  induction cols as [|p cols IH]; intros k0 buf Hcols Hk; simpl; [done|].
  apply Forall_cons in Hcols as [Hp Hcols]. simpl in Hk.
  unfold ProteinSequence.len in *.
  destruct (lookup_lt_is_Some_2 (ProteinSequence.chars s) k0) as [c Hc]; [lia|].
  rewrite (place_step _ _ _ _ _ _ Hc Hp). simpl.
  rewrite (drop_S _ _ _ Hc). simpl. apply IH.
  - eapply Forall_impl; [exact Hcols|]. intros q Hq. by rewrite length_insert.
  - lia.
Qed.

(** Writing the symbols that are not gaps at their columns fills the
    rest of the buffer with ["-"], which is every gap of [cs]. *)
Lemma scatter_columns (cs pre : str) :
  (forall c, c ∈ cs -> ProteinCharacter.is_gap c = true -> c = "-"%char) ->
  fold_left (fun b '(col, c) => <[col := c]> b)
            (zip (columns_from (length pre) cs)
                 (filter (fun c => c ∉ GAP_CHARACTERS) cs))
            (pre ++ replicate (length cs) "-"%char)
  = pre ++ cs.
Proof.
  revert pre. induction cs as [|c cs IH]; intros pre Hgap; simpl; [done|].
  assert (Hgap' : forall d, d ∈ cs ->
                            ProteinCharacter.is_gap d = true -> d = "-"%char).
  { intros d Hd. apply Hgap. by right. }
  specialize (IH (pre ++ [c]) Hgap'). rewrite length_app in IH. simpl in IH.
  replace (length pre + 1)%nat with (S (length pre)) in IH by lia.
  rewrite <- !app_assoc in IH. simpl in IH.
  destruct (ProteinCharacter.is_gap c) eqn:Hc.
  - rewrite filter_cons_False.
    + rewrite <- (Hgap c) at 1 by (done || by left). exact IH.
    + unfold ProteinCharacter.is_gap in Hc. apply bool_decide_eq_true in Hc. tauto.
  - rewrite filter_cons_True.
    + simpl. rewrite insert_app_r_alt by lia. rewrite Nat.sub_diag. simpl.
      exact IH.
    + unfold ProteinCharacter.is_gap in Hc. by apply bool_decide_eq_false in Hc.
Qed.

Lemma length_columns_filter (cs : str) (a : nat) :
  length (columns_from a cs)
  = length (filter (fun c => c ∉ GAP_CHARACTERS) cs).
Proof.
  revert a. induction cs as [|c cs IH]; intros a; simpl; [done|].
  unfold ProteinCharacter.is_gap. case_bool_decide as Hc.
  - rewrite filter_cons_False by tauto. apply IH.
  - rewrite filter_cons_True by done. simpl. f_equal. apply IH.
Qed.

Lemma align_member_stripped (s : ProteinSequence.t) (i : nat)
    (mapping : gmap Z (list (option Z))) :
  wf s -> ends_in_symbol s -> dash_gaps s ->
  mapping !! Z.of_nat i
  = Some (some_col <$> columns_from 0 (ProteinSequence.chars s)) ->
  ProteinSequences.align_member mapping (i, stripped s) = Ok s.
Proof.
  intros Hwf (pre & c & Hcs & Hpre & Hc) Hgap Hm.
  unfold ProteinSequences.align_member. rewrite Hm.
  rewrite Hcs at 1. rewrite max_of_columns by done. simpl.
  replace (Z.to_nat (Z.of_nat (length pre) + 1))
    with (length (ProteinSequence.chars s))
    by (rewrite Hcs, length_app; simpl; lia).
  unfold enumerate. rewrite length_fmap.
  rewrite place_loop.
  - simpl. rewrite drop_0.
    pose proof (scatter_columns (ProteinSequence.chars s) [] Hgap) as Hsc.
    simpl in Hsc.
    rewrite Hsc. destruct Hwf as [Hv Hp].
    rewrite new_Ok by done. by destruct s.
  - apply Forall_forall. intros p Hp%columns_from_bounds.
    rewrite length_replicate. lia.
  - unfold ProteinSequence.len, stripped. simpl.
    rewrite (length_columns_filter _ 0). lia.
Qed.

(** C1, as the code has it. For an aligned collection [C] of sequences
    the constructor built, in which every member has a symbol that is not
    a gap in its last column, that column not being column [0], and in
    which every gap is written ["-"]: the mapping of [C] applied to
    [C.with_no_gaps()] returns [C] itself, member for member, with the
    characters, the identifier and the structure of each; when [C] has no
    gap, so does the mapping applied to [C]. *)
Theorem alignment_mapping_round_trip (C : ProteinSequences.t) :
  Forall wf C ->
  ProteinSequences.aligned C = true ->
  Forall ends_in_symbol C ->
  Forall dash_gaps C ->
  exists mapping G,
    ProteinSequences.get_alignment_mapping C = Ok mapping
    /\ ProteinSequences.with_no_gaps C = Ok G
    /\ ProteinSequences.apply_alignment_mapping G mapping = Ok C
    /\ (ProteinSequences.has_gaps C = false ->
        ProteinSequences.apply_alignment_mapping C mapping = Ok C).
Proof.
  intros Hwf Ha Hend Hgap.
  destruct (ProteinSequences.get_alignment_mapping C) as [mapping|e] eqn:Hm;
    [|by (unfold ProteinSequences.get_alignment_mapping in Hm;
          rewrite Ha in Hm)].
  assert (Hlook : forall i s, C !! i = Some s ->
    mapping !! Z.of_nat i
    = Some (some_col <$> columns_from 0 (ProteinSequence.chars s))).
  { intros i s Hs. unfold ProteinSequences.get_alignment_mapping in Hm.
    rewrite Ha in Hm. simpl in Hm. injection Hm as <-.
    pose proof (mapping_fold_inside C 0 ∅ i s Hs) as Hi. simpl in Hi.
    unfold enumerate. by rewrite Hi, seq_mapping_of_columns. }
  assert (HG : ProteinSequences.with_no_gaps C = Ok (stripped <$> C)).
  { apply mapR_fmap. eapply Forall_impl; [exact Hwf|].
    intros s Hs. by apply with_no_gaps_wf. }
  assert (Happ : ProteinSequences.apply_alignment_mapping (stripped <$> C) mapping
                 = Ok C).
  { unfold ProteinSequences.apply_alignment_mapping.
    replace (ProteinSequences.has_gaps (stripped <$> C)) with false.
    2:{ symmetry. unfold ProteinSequences.has_gaps.
        apply not_true_is_false. intros H.
        apply existsb_exists in H as (s' & Hs' & Hg).
        apply list_elem_of_In, list_elem_of_fmap in Hs' as (s & -> & _).
        by rewrite stripped_no_gaps in Hg. }
    apply mapR_Ok_Forall2. apply Forall2_same_length_lookup_2.
    - unfold enumerate. rewrite length_zip_with, length_seq, length_fmap. lia.
    - intros i [j g] s Hi Hs. unfold enumerate in Hi.
      apply lookup_zip_with_Some in Hi as (j' & g' & [= <- <-] & Hj & Hg).
      apply lookup_seq in Hj as [-> _]. simpl.
      rewrite list_lookup_fmap, Hs in Hg. injection Hg as <-.
      apply align_member_stripped.
      + eapply Forall_lookup_1 in Hwf; done.
      + eapply Forall_lookup_1 in Hend; done.
      + eapply Forall_lookup_1 in Hgap; done.
      + by apply Hlook. }
  exists mapping, (stripped <$> C). split_and!; try done.
  intros Hng. rewrite <- Happ at 1. f_equal.
  rewrite <- (list_fmap_id C) at 1. apply list_fmap_ext.
  intros i s Hs. simpl. symmetry. apply no_gaps_stripped.
  unfold ProteinSequences.has_gaps in Hng.
  apply not_true_iff_false. intros Hg. apply not_true_iff_false in Hng.
  apply Hng. apply existsb_exists. exists s. split; [|done].
  apply list_elem_of_In. by eapply list_elem_of_lookup_2.
Qed.

End RoundTrip.

Lemma demo_dash_gaps (s : ProteinSequence.t) : dash_gaps (E := demo_env) s.
Proof.
  intros c _ Hc. unfold ProteinCharacter.is_gap in Hc.
  apply bool_decide_eq_true in Hc. simpl in Hc.
  by apply list_elem_of_singleton in Hc.
Qed.

Lemma alignment_mapping_round_trip_witness :
  exists mapping G,
    ProteinSequences.get_alignment_mapping (E := demo_env)
      [pseq "A-C" None; pseq "AGC" (Some "b")] = Ok mapping
    /\ ProteinSequences.with_no_gaps (E := demo_env)
         [pseq "A-C" None; pseq "AGC" (Some "b")] = Ok G
    /\ ProteinSequences.apply_alignment_mapping (E := demo_env) G mapping
       = Ok [pseq "A-C" None; pseq "AGC" (Some "b")]
    /\ (ProteinSequences.has_gaps (E := demo_env)
          [pseq "A-C" None; pseq "AGC" (Some "b")] = false ->
        ProteinSequences.apply_alignment_mapping (E := demo_env)
          [pseq "A-C" None; pseq "AGC" (Some "b")] mapping
        = Ok [pseq "A-C" None; pseq "AGC" (Some "b")]).
Proof.
  apply (alignment_mapping_round_trip (E := demo_env)).
  - repeat (constructor; [wf_by_eval|]). constructor.
  - vm_compute; reflexivity.
  - constructor; [by exists (lit "A-"), "C"%char|].
    constructor; [by exists (lit "AG"), "C"%char|]. constructor.
  - repeat (constructor; [apply demo_dash_gaps|]). constructor.
Defined.

(** C1 as stated fails on a member that ends in a gap: the buffer is as
    wide as the last mapped column, so the trailing gap of ["AC-"] is not
    written back. *)
Lemma alignment_mapping_round_trip_counterexample :
  ProteinSequences.aligned [pseq "AC-" None; pseq "ACD" None] = true
  /\ Forall (wf (E := demo_env)) [pseq "AC-" None; pseq "ACD" None]
  /\ (mapping ← ProteinSequences.get_alignment_mapping (E := demo_env)
                  [pseq "AC-" None; pseq "ACD" None];
      G ← ProteinSequences.with_no_gaps (E := demo_env)
            [pseq "AC-" None; pseq "ACD" None];
      ProteinSequences.apply_alignment_mapping (E := demo_env) G mapping)
     = Ok [pseq "AC" None; pseq "ACD" None]
  /\ [pseq "AC" None; pseq "ACD" None] <> [pseq "AC-" None; pseq "ACD" None].
Proof.
  split_and!.
  - vm_compute; reflexivity.
  - repeat (constructor; [wf_by_eval|]). constructor.
  - vm_compute; reflexivity.
  - discriminate.
Qed.

(** On a collection of one-column members [filter(None, ...)] drops the
    only column, [0], and [max] raises on the empty rest. *)
Example single_column_mapping_raises :
  ProteinSequences.aligned [pseq "A" None] = true
  /\ ProteinSequences.has_gaps (E := demo_env) [pseq "A" None] = false
  /\ (mapping ← ProteinSequences.get_alignment_mapping (E := demo_env)
                  [pseq "A" None];
      ProteinSequences.apply_alignment_mapping (E := demo_env)
        [pseq "A" None] mapping)
     = Raise (ValueError MaxOfEmpty).
Proof. split_and!; vm_compute; reflexivity. Qed.

(** ** Lines, words and records of a flat sequence file *)

Lemma no_space_no_newline (s : str) : no_space s -> newline ∉ s.
Proof.
  intros Hs Hin. eapply Forall_forall in Hs; [|exact Hin]. done.
Qed.

Lemma file_lines_line (l rest : str) :
  newline ∉ l ->
  file_lines (l ++ newline :: rest) = (l ++ [newline]) :: file_lines rest.
Proof.
  induction l as [|c l IH]; intros Hl.
  - done.
  - apply not_elem_of_cons in Hl as [Hc Hl].
    cbn [app file_lines]. destruct (decide (c = newline)); [done|].
    by rewrite IH.
Qed.

Lemma file_lines_ended (ls : list str) (rest : str) :
  Forall (fun l => newline ∉ l) ls ->
  file_lines (concat (ended <$> ls) ++ rest) = (ended <$> ls) ++ file_lines rest.
Proof.
  intros H. induction H as [|l ls Hl _ IH]; [done|].
  simpl. unfold ended at 1. rewrite <- !app_assoc. simpl.
  rewrite file_lines_line by done. f_equal. exact IH.
Qed.

Lemma split_from_word (cur w rest : str) :
  no_space w -> split_from cur (w ++ rest) = split_from (cur ++ w) rest.
Proof.
  intros Hw. revert cur. induction Hw as [|c w Hc _ IH]; intros cur; simpl.
  - by rewrite app_nil_r.
  - rewrite Hc, IH. by rewrite <- app_assoc.
Qed.

Lemma join_split_from (cur s : str) :
  join (split_from cur s) = cur ++ filter (fun c => isspace c = false) s.
Proof.
  unfold join. revert cur. induction s as [|c s IH]; intros cur; simpl.
  - destruct cur; simpl; by rewrite ?app_nil_r.
  - destruct (isspace c) eqn:Hc.
    + rewrite filter_cons_False by congruence.
      destruct cur; simpl; by rewrite IH.
    + rewrite filter_cons_True by done. rewrite IH. by rewrite <- app_assoc.
Qed.

Lemma filter_no_space (s : str) :
  no_space s -> filter (fun c => isspace c = false) s = s.
Proof.
  intros H. induction H as [|c s Hc _ IH]; [done|].
  rewrite filter_cons_True by done. by rewrite IH.
Qed.

Lemma join_split_ended (l : str) :
  no_space l -> join (py_split (ended l)) = l.
Proof.
  intros Hl. unfold py_split, ended. rewrite join_split_from. simpl.
  rewrite filter_app, filter_no_space by done.
  rewrite filter_cons_False by done. by rewrite app_nil_r.
Qed.

Lemma join_split_no_space (l : str) :
  no_space l -> join (py_split l) = l.
Proof.
  intros Hl. unfold py_split. rewrite join_split_from. simpl.
  by apply filter_no_space.
Qed.

Lemma py_split_ended_word (w : str) :
  w <> [] -> no_space w -> py_split (ended w) = [w].
Proof.
  intros Hne Hw. unfold py_split, ended.
  rewrite split_from_word by done. simpl. by destruct w.
Qed.

Arguments read_fasta_step : simpl never.

Lemma record_lines_no_newline (r : str * list str) :
  plain_record r ->
  record_lines r = ended <$> ((">"%char :: r.1) :: r.2)
  /\ Forall (fun l => newline ∉ l) ((">"%char :: r.1) :: r.2).
Proof.
  intros [[_ Hid] Hls]. split; [done|]. constructor.
  - apply not_elem_of_cons. split; [done | by apply no_space_no_newline].
  - eapply Forall_impl; [exact Hls|]. intros l [Hl _].
    by apply no_space_no_newline.
Qed.

Lemma file_lines_render (recs : list (str * list str)) :
  Forall plain_record recs ->
  file_lines (render recs) = concat (record_lines <$> recs).
Proof.
  unfold render. intros H. induction H as [|r recs Hr _ IH]; [done|].
  rewrite fmap_cons. cbn [concat]. rewrite concat_app.
  destruct (record_lines_no_newline r Hr) as [Heq Hnl].
  rewrite Heq at 1. rewrite file_lines_ended by done.
  by rewrite IH, Heq.
Qed.

(** ** read_fasta on the records of a file *)

Lemma read_header (id : str) (st : option (str * str) * list (str * str)) :
  plain_id id ->
  read_fasta_step st (header_line id) = (Some (id, []), st.2 ++ option_list st.1).
Proof.
  intros [Hne Hid]. destruct st as [cur done]. unfold read_fasta_step.
  simpl. rewrite drop_0. by rewrite py_split_ended_word.
Qed.

Lemma read_content (l id content : str) (done : list (str * str)) :
  plain_line l ->
  read_fasta_step (Some (id, content), done) (ended l)
  = (Some (id, content ++ l), done).
Proof.
  intros [Hl Hh]. unfold read_fasta_step. rewrite Hh.
  by rewrite join_split_ended.
Qed.

Lemma read_contents (ls : list str) (id content : str) (done : list (str * str)) :
  Forall plain_line ls ->
  fold_left read_fasta_step (ended <$> ls) (Some (id, content), done)
  = (Some (id, content ++ concat ls), done).
Proof.
  intros H. revert content. induction H as [|l ls Hl _ IH]; intros content.
  - simpl. by rewrite app_nil_r.
  - rewrite fmap_cons. cbn [fold_left concat].
    rewrite read_content by done. rewrite IH. by rewrite <- app_assoc.
Qed.

Lemma read_record (r : str * list str)
    (st : option (str * str) * list (str * str)) :
  plain_record r ->
  fold_left read_fasta_step (record_lines r) st
  = (Some (r.1, concat r.2), st.2 ++ option_list st.1).
Proof.
  intros [Hid Hls]. unfold record_lines. cbn [fold_left].
  rewrite read_header by done. by rewrite read_contents.
Qed.

Lemma read_records (recs : list (str * list str))
    (st : option (str * str) * list (str * str)) :
  Forall plain_record recs ->
  flushed (fold_left read_fasta_step (concat (record_lines <$> recs)) st)
  = flushed st ++ ((fun r => (r.1, concat r.2)) <$> recs).
Proof.
  intros H. revert st. induction H as [|r recs Hr _ IH]; intros st.
  - simpl. by rewrite app_nil_r.
  - rewrite !fmap_cons. cbn [concat]. rewrite fold_left_app.
    rewrite read_record by done. rewrite IH. unfold flushed. simpl.
    by rewrite <- app_assoc.
Qed.

Lemma read_fasta_render (recs : list (str * list str)) :
  Forall plain_record recs ->
  read_fasta (render recs) = (fun r => (r.1, concat r.2)) <$> recs.
Proof.
  intros H. unfold read_fasta. rewrite file_lines_render by done.
  pose proof (read_records recs (None, []) H) as Hr.
  unfold flushed in Hr.
  destruct (fold_left read_fasta_step _ _) as [cur done]. by simpl in *.
Qed.

(** ** to_fasta then from_fasta *)

Section FastaRoundTrip.
Context `{E : Env}.

Lemma valid_plain_line (cs : str) :
  plain_alphabet -> all_valid cs -> plain_line cs.
Proof.
  intros Hal Hv. split.
  - eapply Forall_impl; [exact Hv|]. intros c Hc. by apply Hal.
  - destruct Hv as [|c cs Hc _]; [done|].
    simpl. apply bool_decide_eq_false. by apply Hal.
Qed.

Lemma to_fasta_render (C : ProteinSequences.t) :
  Forall has_plain_id C -> FastaIO.to_fasta C = render (record_of <$> C).
Proof.
  unfold FastaIO.to_fasta, write_fasta, render.
  intros H. induction H as [|s C (i & Hi & Hne & _) _ IH]; [done|].
  rewrite !fmap_cons. cbn [map concat]. rewrite concat_app.
  f_equal; [|exact IH].
  unfold ProteinSequences.id_or_hash, record_of, record_lines, header_line,
    ended. rewrite Hi. destruct i as [|c i]; [done|]. simpl.
  by rewrite <- !app_assoc, app_nil_r.
Qed.

Lemma record_of_plain (s : ProteinSequence.t) :
  plain_alphabet -> wf s -> has_plain_id s -> plain_record (record_of s).
Proof.
  intros Hal [Hv _] (i & Hi & Hid). unfold record_of. rewrite Hi. split.
  - done.
  - simpl. constructor; [by apply valid_plain_line | constructor].
Qed.

Lemma from_fasta_render (recs : list (str * list str)) :
  Forall plain_record recs ->
  Forall (fun r => all_valid (concat r.2)) recs ->
  FastaIO.from_fasta (render recs)
  = Ok ((fun r => ProteinSequence.mk (concat r.2) (Some r.1) None) <$> recs).
Proof.
  intros Hp Hv. unfold FastaIO.from_fasta. rewrite read_fasta_render by done.
  apply mapR_Ok_Forall2. apply Forall2_fmap. apply Forall_Forall2_diag.
  eapply Forall_impl; [exact Hv|].
  intros [id ls] Hr. simpl in *. by apply new_Ok.
Qed.

(** What reading a file builds always carries an identifier. *)
Lemma from_fasta_has_id (input : str) (C : ProteinSequences.t) :
  FastaIO.from_fasta input = Ok C ->
  forall s, s ∈ C -> is_Some (ProteinSequence._id s).
Proof.
  unfold FastaIO.from_fasta. intros H%mapR_Ok_Forall2 s Hs.
  apply list_elem_of_lookup in Hs as [k Hk].
  destruct (Forall2_lookup_r _ _ _ _ _ H Hk) as ([id cs] & _ & Hnew).
  apply new_inv in Hnew as [-> _]. by eexists.
Qed.

(** C3, as the code has it. For a collection of sequences the
    constructor built in which every member carries an identifier that
    is one non-empty word without whitespace (the alphabets holding
    neither whitespace nor the header marker): writing the collection
    with [to_fasta] and reading the file with [from_fasta] returns a
    collection of the same length whose member at every index has the
    characters and the identifier of the original. *)
Theorem fasta_round_trip (C : ProteinSequences.t) :
  plain_alphabet -> Forall wf C -> Forall has_plain_id C ->
  exists C',
    FastaIO.from_fasta (FastaIO.to_fasta C) = Ok C'
    /\ length C' = length C
    /\ forall k s, C !! k = Some s ->
         exists s', C' !! k = Some s'
                    /\ ProteinSequence.chars s' = ProteinSequence.chars s
                    /\ ProteinSequence._id s' = ProteinSequence._id s.
Proof.
  intros Hal Hwf Hid. rewrite to_fasta_render by done.
  rewrite from_fasta_render.
  - eexists. split; [done|]. split; [by rewrite !length_fmap|].
    intros k s Hs. eexists. split.
    + by rewrite !list_lookup_fmap, Hs.
    + simpl. rewrite app_nil_r. split; [done|].
      eapply Forall_lookup_1 in Hid as (i & Hi & _); [|exact Hs].
      by rewrite Hi.
  - apply Forall_fmap. apply Forall_forall. intros s Hs.
    apply record_of_plain; [done| |]; by eapply Forall_forall.
  - apply Forall_fmap. eapply Forall_impl; [exact Hwf|].
    intros s [Hv _]. simpl. by rewrite app_nil_r.
Qed.

End FastaRoundTrip.

Lemma demo_plain_alphabet : plain_alphabet (E := demo_env).
Proof.
  intros c. destruct c as [[] [] [] [] [] [] [] []]; vm_compute;
    intros H; try discriminate H; split; congruence.
Qed.

Lemma fasta_round_trip_witness :
  exists C',
    FastaIO.from_fasta (E := demo_env)
      (FastaIO.to_fasta (E := demo_env)
         [pseq "ACDE" (Some "a"); pseq "AC-E" (Some "b")]) = Ok C'
    /\ length C' = 2%nat
    /\ forall k s, [pseq "ACDE" (Some "a"); pseq "AC-E" (Some "b")] !! k = Some s ->
         exists s', C' !! k = Some s'
                    /\ ProteinSequence.chars s' = ProteinSequence.chars s
                    /\ ProteinSequence._id s' = ProteinSequence._id s.
Proof.
  apply (fasta_round_trip (E := demo_env)).
  - apply demo_plain_alphabet.
  - repeat (constructor; [wf_by_eval|]). constructor.
  - constructor; [exists (lit "a"); repeat split; (done || by repeat constructor)|].
    constructor; [exists (lit "b"); repeat split; (done || by repeat constructor)|].
    constructor.
Defined.

(** C3 as stated fails on a member without identifier: it is written
    under its hash and read back with the hash as identifier. *)
Lemma fasta_round_trip_counterexample :
  Forall (wf (E := demo_env)) [pseq "ACDE" None]
  /\ FastaIO.from_fasta (E := demo_env)
       (FastaIO.to_fasta (E := demo_env) [pseq "ACDE" None])
     = Ok [pseq "ACDE" (Some "8467626")]
  /\ ProteinSequence._id (pseq "ACDE" (Some "8467626"))
     <> ProteinSequence._id (pseq "ACDE" None).
Proof.
  split_and!.
  - repeat (constructor; [wf_by_eval|]). constructor.
  - vm_compute; reflexivity.
  - discriminate.
Qed.

(** ** The index of a file *)

Arguments ProteinSequencesOnFile.scan_line : simpl never.
Arguments ProteinSequencesOnFile.flush : simpl never.

Lemma foldR_app {A S} (f : S -> A -> result S) (l k : list A) (s : S) :
  foldR f (l ++ k) s = (foldR f l s ≫= foldR f k).
Proof.
  revert s. induction l as [|a l IH]; intros s; simpl; [done|].
  destruct (f s a); simpl; [apply IH | done].
Qed.

Lemma lstrip_no_space (s : str) : no_space s -> lstrip s = s.
Proof. intros H. destruct H as [|c s Hc _]; [done|]. simpl. by rewrite Hc. Qed.

Lemma py_strip_ended (l : str) : no_space l -> py_strip (ended l) = l.
Proof.
  intros Hl. unfold py_strip, ended.
  assert (Hrev : lstrip (rev (l ++ [newline])) = rev l).
  { rewrite rev_app_distr. simpl. apply lstrip_no_space.
    unfold no_space. apply Forall_forall. intros c Hc.
    eapply Forall_forall in Hl; [exact Hl|].
    by apply list_elem_of_In, in_rev, list_elem_of_In in Hc. }
  destruct Hl as [|c l Hc Hl].
  - done.
  - replace (lstrip ((c :: l) ++ [newline])) with ((c :: l) ++ [newline])
      by (simpl; by rewrite Hc).
    rewrite Hrev. apply rev_involutive.
Qed.

Lemma py_split_word (w : str) : w <> [] -> no_space w -> py_split w = [w].
Proof.
  intros Hne Hw. unfold py_split.
  rewrite <- (app_nil_r w) at 1. rewrite split_from_word by done.
  simpl. by destruct w.
Qed.

Lemma header_identifier (id : str) :
  plain_id id ->
  py_index (py_split (py_strip (py_slice (header_line id) (Some 1) None))) 0
  = Ok id.
Proof.
  intros [Hne Hid]. rewrite py_slice_suffix by (unfold header_line; simpl; lia).
  change (drop (Z.to_nat 1) (header_line id)) with (ended id).
  rewrite py_strip_ended by done. by rewrite py_split_word.
Qed.

Section Index.
Context `{E : Env}.

Import ProteinSequencesOnFile.

Lemma scan_header (st : scan) (id : str) :
  plain_id id ->
  scan_line st (header_line id)
  = Ok (mkScan (Some id) (Some (file_pos st + length (header_line id))%nat)
               0%nat false 0%nat
               (file_pos st + length (header_line id))%nat (flush st)).
Proof.
  intros Hid. unfold scan_line.
  change (is_header (header_line id)) with true. cbn [is_header].
  by rewrite header_identifier.
Qed.

Lemma scan_content (st : scan) (l : str) :
  plain_line l ->
  scan_line st (ended l)
  = Ok (mkScan (current_id st) (seq_start st)
               (seq_length st + length l)%nat
               (scan_has_gaps st || bool_decide ("-"%char ∈ l))
               (scan_base_length st
                + length (filter (fun c => c ≠ "-"%char) l))%nat
               (file_pos st + length (ended l))%nat (index st)).
Proof.
  intros [Hl Hh]. unfold scan_line. rewrite Hh.
  by rewrite py_strip_ended.
Qed.

Lemma scan_contents (ls : list str) (st : scan) :
  Forall plain_line ls ->
  foldR scan_line (ended <$> ls) st
  = Ok (mkScan (current_id st) (seq_start st)
               (seq_length st + length (concat ls))%nat
               (scan_has_gaps st || bool_decide ("-"%char ∈ concat ls))
               (scan_base_length st
                + length (filter (fun c => c ≠ "-"%char) (concat ls)))%nat
               (file_pos st + length (concat (ended <$> ls)))%nat (index st)).
Proof.
  intros H. revert st. induction H as [|l ls Hl _ IH]; intros st.
  - simpl. destruct st. simpl. f_equal. f_equal; try lia.
    by rewrite orb_false_r.
  - rewrite fmap_cons. cbn [foldR concat]. rewrite scan_content by done.
    simpl. rewrite IH. simpl. f_equal. f_equal.
    + rewrite length_app. lia.
    + rewrite <- orb_assoc. f_equal.
      apply eq_true_iff_eq. rewrite orb_true_iff, !bool_decide_eq_true.
      by rewrite elem_of_app.
    + rewrite filter_app, length_app. lia.
    + rewrite length_app. lia.
Qed.

Lemma scan_record (r : str * list str) (st : scan) :
  plain_record r ->
  foldR scan_line (record_lines r) st
  = Ok (mkScan (Some r.1) (start (entry_of (file_pos st) r))
               (length_ (entry_of (file_pos st) r))
               (has_gaps_ (entry_of (file_pos st) r))
               (base_length_ (entry_of (file_pos st) r))
               (file_pos st + record_size r)%nat (flush st)).
Proof.
  intros [Hid Hls]. unfold record_lines at 1. cbn [foldR].
  rewrite scan_header by done. simpl. rewrite scan_contents by done.
  simpl. f_equal. f_equal. unfold record_size, record_lines.
  simpl. rewrite length_app. unfold header_line. simpl. lia.
Qed.

Lemma scan_records (recs : list (str * list str)) (st : scan) :
  Forall plain_record recs ->
  exists st',
    foldR scan_line (concat (record_lines <$> recs)) st = Ok st'
    /\ flush st' = set_all (entries (file_pos st) recs) (flush st).
Proof.
  intros H. revert st. induction H as [|r recs Hr _ IH]; intros st.
  - exists st. by split.
  - rewrite fmap_cons. cbn [concat]. rewrite foldR_app.
    rewrite scan_record by done. simpl.
    edestruct IH as (st' & Hst' & Hfl). exists st'. split; [exact Hst'|].
    exact Hfl.
Qed.

Lemma create_index_render (recs : list (str * list str)) :
  Forall plain_record recs ->
  _create_index (render recs) = Ok (set_all (entries 0 recs) []).
Proof.
  intros H. unfold _create_index. rewrite file_lines_render by done.
  destruct (scan_records recs (mkScan None None 0 false 0 0 []) H)
    as (st' & -> & Hfl).
  simpl. by rewrite Hfl.
Qed.

End Index.

(** ** The dictionary [_index] *)

Lemma dict_get_set {V} (k k' : str) (v : V) (d : list (str * V)) :
  dict_get k (dict_set k' v d)
  = if decide (k' = k) then Some v else dict_get k d.
Proof.
  induction d as [|[k0 v0] d IH]; simpl.
  - done.
  - destruct (decide (k0 = k')) as [->|Hne]; simpl.
    + by destruct (decide (k' = k)).
    + destruct (decide (k0 = k)) as [->|Hne'].
      * by rewrite decide_False by congruence.
      * exact IH.
Qed.

Lemma dict_set_fresh {V} (k : str) (v : V) (d : list (str * V)) :
  k ∉ dict_keys d -> dict_set k v d = d ++ [(k, v)].
Proof.
  induction d as [|[k0 v0] d IH]; simpl; [done|].
  intros [Hne Hk]%not_elem_of_cons.
  rewrite decide_False by congruence. by rewrite IH.
Qed.

Lemma dict_keys_set {V} (k : str) (v : V) (d : list (str * V)) :
  dict_keys (dict_set k v d)
  = if decide (k ∈ dict_keys d) then dict_keys d else dict_keys d ++ [k].
Proof.
  induction d as [|[k0 v0] d IH]; simpl; [done|].
  destruct (decide (k0 = k)) as [->|Hne]; simpl.
  - rewrite decide_True by (by left). done.
  - rewrite IH. destruct (decide (k ∈ dict_keys d)) as [Hin|Hnin].
    + rewrite decide_True by (by right). done.
    + rewrite decide_False; [done|].
      intros [?|?]%elem_of_cons; [congruence | done].
Qed.

Section IndexOfRecords.
Context `{E : Env}.

Import ProteinSequencesOnFile.

Lemma set_all_app (a b d : list (str * info)) :
  set_all (a ++ b) d = set_all b (set_all a d).
Proof. unfold set_all. apply fold_left_app. Qed.

Lemma set_all_get_other (es d : list (str * info)) (k : str) :
  k ∉ es.*1 -> dict_get k (set_all es d) = dict_get k d.
Proof.
  revert d. induction es as [|[k' v] es IH]; intros d; [done|].
  simpl. intros [Hne Hk]%not_elem_of_cons.
  unfold set_all in *. simpl. rewrite IH by done.
  rewrite dict_get_set. by rewrite decide_False by congruence.
Qed.

Lemma set_all_fresh (es d : list (str * info)) :
  NoDup (dict_keys d ++ es.*1) -> set_all es d = d ++ es.
Proof.
  revert d. induction es as [|[k v] es IH]; intros d Hnd.
  - by rewrite app_nil_r.
  - unfold set_all in *. simpl in *.
    apply NoDup_app in Hnd as (Hd & Hdis & Hes).
    apply NoDup_cons in Hes as [Hk Hes].
    rewrite dict_set_fresh by (intros Hin; apply (Hdis k Hin); by left).
    rewrite IH.
    + by rewrite <- app_assoc.
    + unfold dict_keys. rewrite map_app. simpl.
      rewrite <- app_assoc. simpl.
      apply NoDup_app. split_and!; [done| |by apply NoDup_cons].
      intros x Hx. apply Hdis. exact Hx.
Qed.

Lemma render_cons (r : str * list str) (recs : list (str * list str)) :
  render (r :: recs) = concat (record_lines r) ++ render recs.
Proof. unfold render. rewrite fmap_cons. cbn [concat]. by rewrite concat_app. Qed.

Lemma render_app (a b : list (str * list str)) :
  render (a ++ b) = render a ++ render b.
Proof.
  induction a as [|r a IH]; [done|].
  rewrite <- app_comm_cons, !render_cons, IH. by rewrite app_assoc.
Qed.

Lemma entries_keys (p : nat) (recs : list (str * list str)) :
  (entries p recs).*1 = recs.*1.
Proof.
  revert p. induction recs as [|r recs IH]; intros p; [done|].
  simpl. f_equal. apply IH.
Qed.

Lemma entries_app (p : nat) (a b : list (str * list str)) :
  entries p (a ++ b) = entries p a ++ entries (p + length (render a)) b.
Proof.
  revert p. induction a as [|r a IH]; intros p.
  - simpl. by rewrite Nat.add_0_r.
  - rewrite <- app_comm_cons. cbn [entries]. rewrite IH.
    rewrite render_cons, length_app. unfold record_size.
    by rewrite Nat.add_assoc.
Qed.

(** The entry under an identifier is that of the last record that
    carries it. *)
Lemma index_last_record (pre post : list (str * list str)) (r : str * list str) :
  r.1 ∉ post.*1 ->
  dict_get r.1 (set_all (entries 0 (pre ++ r :: post)) [])
  = Some (entry_of (length (render pre)) r).
Proof.
  intros Hlast. rewrite entries_app. cbn [entries].
  rewrite set_all_app.
  change (?e :: ?es) with ([e] ++ es). rewrite set_all_app.
  rewrite set_all_get_other by (by rewrite entries_keys).
  unfold set_all at 1. simpl. rewrite dict_get_set.
  by rewrite decide_True.
Qed.

(** Reading [length] symbols at [start] gives the content of a record
    that has at most one content line. *)
Lemma read_at_record (pre post : list (str * list str)) (r : str * list str) :
  (length r.2 <= 1)%nat ->
  read_at (render (pre ++ r :: post))
          (length (render pre) + length (header_line r.1))
          (length (concat r.2))
  = concat r.2.
Proof.
  intros Hone. unfold read_at. rewrite render_app, render_cons.
  unfold record_lines. cbn [concat]. rewrite <- !app_assoc.
  rewrite drop_app_add'. 2: done.
  rewrite drop_app_length.
  destruct r as [id [|l [|l' ls]]]; simpl in *; [by rewrite take_0| |lia].
  rewrite app_nil_r. unfold ended. rewrite <- !app_assoc.
  by rewrite take_app_length.
Qed.

End IndexOfRecords.

(** ** The file-backed collection against the in-memory one *)

Lemma elements_size_one `{Countable A} (X : gset A) (x : A) :
  size X = 1%nat -> x ∈ X -> elements X = [x].
Proof.
  intros Hs Hx. apply size_1_elem_of in Hs as [y Hy].
  apply leibniz_equiv in Hy. subst X.
  apply elem_of_singleton in Hx as ->. apply elements_singleton.
Qed.

Lemma size_one_inj `{Countable A} `{Countable B} (f : A -> B) (l : list A) :
  Inj (=) (=) f ->
  size (list_to_set (f <$> l) : gset B) = 1%nat
  <-> size (list_to_set l : gset A) = 1%nat.
Proof.
  intros Hinj. rewrite size_one_fmap, size_one_iff. split.
  - intros (b & Hb & Hall). exists b. split; [done|].
    intros b' Hb'. apply Hinj. by apply Hall.
  - intros (b & Hb & Hall). exists b. split; [done|].
    intros b' Hb'. f_equal. by apply Hall.
Qed.

Section Agreement.
Context `{E : Env}.

Import ProteinSequencesOnFile.

Lemma sequence_record_valid (r : str * list str) :
  sequence_record r -> all_valid (concat r.2).
Proof.
  intros (_ & Hv & _). unfold all_valid in *. by apply Forall_concat.
Qed.

Lemma sequence_record_plain (r : str * list str) :
  plain_alphabet -> sequence_record r -> plain_record r.
Proof.
  intros Hal (Hid & Hv & _). split; [done|].
  eapply Forall_impl; [exact Hv|]. intros l Hl. by apply valid_plain_line.
Qed.

Lemma sequence_record_no_space (r : str * list str) :
  plain_alphabet -> sequence_record r -> no_space (concat r.2).
Proof.
  intros Hal Hr. eapply Forall_impl; [by apply sequence_record_valid|].
  intros c Hc. by apply Hal.
Qed.

Lemma from_fasta_members (recs : list (str * list str)) :
  plain_alphabet -> Forall sequence_record recs ->
  FastaIO.from_fasta (render recs) = Ok (member <$> recs).
Proof.
  intros Hal Hrecs. apply from_fasta_render.
  - eapply Forall_impl; [exact Hrecs|]. intros r. by apply sequence_record_plain.
  - eapply Forall_impl; [exact Hrecs|]. intros r. by apply sequence_record_valid.
Qed.

Lemma new_on_file (recs : list (str * list str)) :
  plain_alphabet -> Forall sequence_record recs ->
  new (render recs)
  = Ok (_compute_global_properties (render recs)
          (set_all (entries 0 recs) [])).
Proof.
  intros Hal Hrecs. unfold new. rewrite create_index_render; [done|].
  eapply Forall_impl; [exact Hrecs|]. intros r. by apply sequence_record_plain.
Qed.

Lemma index_distinct (recs : list (str * list str)) :
  NoDup recs.*1 -> set_all (entries 0 recs) [] = entries 0 recs.
Proof. intros Hnd. rewrite set_all_fresh; [done|]. simpl. by rewrite entries_keys. Qed.

(** What the entry of a record says about its member. *)
Lemma has_gaps_dash (cs : str) :
  dash_only cs ->
  existsb ProteinCharacter.is_gap cs = bool_decide ("-"%char ∈ cs).
Proof.
  induction cs as [|c cs IH]; intros Hd.
  - done.
  - cbn [existsb]. rewrite IH by (intros d Hd'; apply Hd; by right).
    apply eq_true_iff_eq. rewrite orb_true_iff, !bool_decide_eq_true.
    unfold ProteinCharacter.is_gap. rewrite bool_decide_eq_true.
    rewrite (Hd c) by (by left). rewrite elem_of_cons.
    split; (intros [?|?]; [by left | by right]).
Qed.

Lemma filter_dash (cs : str) :
  dash_only cs ->
  filter (fun c => c ∉ GAP_CHARACTERS) cs = filter (fun c => c ≠ "-"%char) cs.
Proof.
  induction cs as [|c cs IH]; intros Hd; [done|].
  assert (Hc : c ∈ GAP_CHARACTERS <-> c = "-"%char) by (apply Hd; by left).
  assert (IH' := IH (fun d Hd' => Hd d (list_elem_of_further _ _ _ Hd'))).
  destruct (decide (c = "-"%char)) as [Heq|Hne].
  - rewrite !filter_cons_False by tauto. done.
  - rewrite !filter_cons_True by tauto. by rewrite IH'.
Qed.

Lemma member_base_length (r : str * list str) :
  sequence_record r ->
  ProteinSequence.base_length (member r)
  = Z.of_nat (base_length_ (entry_of 0 r)).
Proof.
  intros (_ & _ & Hd). rewrite base_length_columns. simpl.
  by rewrite (length_columns_filter _ 0), filter_dash.
Qed.

Lemma member_has_gaps (r : str * list str) :
  sequence_record r ->
  ProteinSequence.has_gaps (member r) = has_gaps_ (entry_of 0 r).
Proof.
  intros (_ & _ & Hd). unfold ProteinSequence.has_gaps. simpl.
  by apply has_gaps_dash.
Qed.

Lemma entries_values (p : nat) (recs : list (str * list str)) :
  length_ <$> dict_values (entries p recs) = ProteinSequence.len <$> (member <$> recs)
  /\ base_length_ <$> dict_values (entries p recs)
     = (fun r => base_length_ (entry_of 0 r)) <$> recs
  /\ has_gaps_ <$> dict_values (entries p recs)
     = (fun r => has_gaps_ (entry_of 0 r)) <$> recs.
Proof.
  revert p. induction recs as [|r recs IH]; intros p; [done|].
  destruct (IH (p + record_size r)%nat) as (H1 & H2 & H3).
  split_and!; cbn; f_equal; assumption.
Qed.

Lemma existsb_fmap {A B} (f : B -> bool) (g : A -> B) (l : list A) :
  existsb f (g <$> l) = existsb (fun a => f (g a)) l.
Proof. induction l as [|a l IH]; [done|]. cbn. f_equal. exact IH. Qed.

(** The record at position [i] is the last one with its identifier. *)
Lemma distinct_split (recs : list (str * list str)) (i : nat) (r : str * list str) :
  NoDup recs.*1 -> recs !! i = Some r ->
  recs = take i recs ++ r :: drop (S i) recs /\ r.1 ∉ (drop (S i) recs).*1.
Proof.
  intros Hnd Hi. pose proof (take_drop_middle _ _ _ Hi) as Hsplit.
  split; [done|]. rewrite <- Hsplit in Hnd.
  rewrite fmap_app, fmap_cons in Hnd.
  apply NoDup_app in Hnd as (_ & _ & Hnd). by apply NoDup_cons in Hnd as [? _].
Qed.

(** [__getitem__] by identifier, on the last record that carries it. *)
Lemma getitem_last_record (pre post : list (str * list str))
    (r : str * list str) (F : t) :
  plain_alphabet -> sequence_record r ->
  file F = render (pre ++ r :: post) ->
  _index F = set_all (entries 0 (pre ++ r :: post)) [] ->
  r.1 ∉ post.*1 -> (length r.2 <= 1)%nat ->
  getitem F (inr r.1) = Ok (member r).
Proof.
  intros Hal Hr Hfile Hidx Hlast Hone. unfold getitem. simpl.
  rewrite Hidx, index_last_record by done. simpl.
  rewrite Hfile, read_at_record by done.
  rewrite join_split_no_space by (by apply sequence_record_no_space).
  apply new_Ok; [by apply sequence_record_valid | done].
Qed.

End Agreement.

Section AgreementTheorem.
Context `{E : Env}.

Import ProteinSequencesOnFile.

Lemma getitem_by_position (F : t) (i : nat) (id : str) :
  dict_keys (_index F) !! i = Some id ->
  getitem F (inl (Z.of_nat i)) = getitem F (inr id).
Proof.
  intros Hi. pose proof (lookup_lt_Some _ _ _ Hi) as Hlt.
  unfold dict_keys in Hlt. rewrite length_map in Hlt.
  unfold getitem, len.
  destruct (Z.ltb_spec (Z.of_nat i) 0); [lia|].
  destruct (Z.geb_spec (Z.of_nat i) (Z.of_nat (length (_index F)))); [lia|].
  simpl. by rewrite (py_index_lookup _ _ _ Hi).
Qed.

Lemma entries_has_gaps (p : nat) (recs : list (str * list str)) :
  Forall sequence_record recs ->
  existsb has_gaps_ (dict_values (entries p recs))
  = ProteinSequences.has_gaps (member <$> recs).
Proof.
  intros H. revert p. induction H as [|r recs Hr _ IH]; intros p; [done|].
  rewrite fmap_cons. cbn [entries dict_values map snd ProteinSequences.has_gaps existsb].
  rewrite (member_has_gaps r Hr). f_equal. apply IH.
Qed.

Lemma members_base_length (recs : list (str * list str)) :
  Forall sequence_record recs ->
  ProteinSequence.base_length <$> (member <$> recs)
  = Z.of_nat <$> ((fun r => base_length_ (entry_of 0 r)) <$> recs).
Proof.
  intros H. induction H as [|r recs Hr _ IH]; [done|].
  rewrite !fmap_cons, IH. f_equal. by apply member_base_length.
Qed.

End AgreementTheorem.

(** ** Examples of files *)

Lemma demo_dash_only (cs : str) : dash_only (E := demo_env) cs.
Proof. intros c _. simpl. apply list_elem_of_singleton. Qed.

Ltac sequence_record_by_eval :=
  split_and!;
  [ discriminate
  | repeat (constructor; [vm_compute; reflexivity|]); constructor
  | repeat (constructor;
            [repeat (constructor; [vm_compute; reflexivity|]); constructor|]);
    constructor
  | apply demo_dash_only ].

(** C2 as stated fails on a file in which two records carry the same
    identifier: the index keeps one entry, so the file-backed collection
    is aligned, of width 3 and length 1, while the collection in memory
    has both records and is not aligned. *)
Lemma file_backed_agrees_with_memory_counterexample :
  FastaIO.from_fasta (E := demo_env) (text [">a"; "AC"; ">a"; "ACD"])
  = Ok [pseq "AC" (Some "a"); pseq "ACD" (Some "a")]
  /\ ProteinSequences.aligned [pseq "AC" (Some "a"); pseq "ACD" (Some "a")]
     = false
  /\ ProteinSequences.width [pseq "AC" (Some "a"); pseq "ACD" (Some "a")]
     = Ok None
  /\ (F ← ProteinSequencesOnFile.new (text [">a"; "AC"; ">a"; "ACD"]);
      Ok (ProteinSequencesOnFile.aligned F, ProteinSequencesOnFile.width F,
          ProteinSequencesOnFile.len F))
     = Ok (true, Some 3%nat, 1%nat).
Proof. split_and!; vm_compute; reflexivity. Qed.

(** C10 on a file whose last record under the identifier ["a"] has two
    content lines: the index has one entry and the iteration yields both
    records, but [__getitem__] reads [length] symbols from [start], line
    ends included, and returns ["ACD"] where the record holds ["ACDE"]. *)
Theorem duplicate_identifier_multi_line_read :
  (F ← ProteinSequencesOnFile.new (text [">a"; "AC"; ">a"; "AC"; "DE"]);
   s ← ProteinSequencesOnFile.getitem (E := demo_env) F (inr (lit "a"));
   members ← ProteinSequencesOnFile.iter (E := demo_env) F;
   Ok (ProteinSequencesOnFile.len F, s, members))
  = Ok (1%nat, pseq "ACD" (Some "a"),
        [pseq "AC" (Some "a"); pseq "ACDE" (Some "a")]).
Proof. vm_compute; reflexivity. Qed.

(** ** Records that share an identifier *)

Section Duplicates.
Context `{E : Env}.

Import ProteinSequencesOnFile.

Lemma set_all_keys (es d : list (str * info)) :
  NoDup (dict_keys d) ->
  NoDup (dict_keys (set_all es d))
  /\ forall k, k ∈ dict_keys (set_all es d) <-> k ∈ dict_keys d \/ k ∈ es.*1.
Proof.
  revert d. induction es as [|[k0 v0] es IH]; intros d Hnd.
  - split; [done|]. intros k. rewrite elem_of_nil. tauto.
  - unfold set_all in *. cbn [fold_left fst snd].
    assert (Hnd' : NoDup (dict_keys (dict_set k0 v0 d))).
    { rewrite dict_keys_set. case_decide; [done|].
      apply NoDup_app. split_and!; [done| |apply NoDup_singleton].
      intros x Hx ->%list_elem_of_singleton. done. }
    destruct (IH _ Hnd') as [Hnd'' Hin]. split; [done|].
    intros k. rewrite Hin, dict_keys_set, fmap_cons, elem_of_cons.
    case_decide as Hk0.
    + split; [tauto|]. intros [?|[->|?]]; tauto.
    + rewrite elem_of_app, list_elem_of_singleton. simpl. tauto.
Qed.

Lemma length_set_all (es : list (str * info)) :
  length (set_all es []) = size (list_to_set es.*1 : gset str).
Proof.
  destruct (set_all_keys es []) as [Hnd Hin]; [constructor|].
  rewrite <- (length_fmap fst (set_all es [])).
  change ((set_all es []).*1) with (dict_keys (set_all es [])).
  rewrite <- (size_list_to_set (C := gset str)) by done.
  f_equal. apply set_eq. intros k. rewrite !elem_of_list_to_set, Hin.
  simpl. rewrite elem_of_nil. tauto.
Qed.

Lemma size_list_to_set_le (l : list str) :
  (size (list_to_set l : gset str) <= length l)%nat.
Proof.
  induction l as [|x l IH].
  - rewrite list_to_set_nil, size_empty. simpl. lia.
  - rewrite list_to_set_cons. cbn [length].
    pose proof (size_union_alt {[x]} (list_to_set l : gset str)) as Hu.
    rewrite size_singleton in Hu.
    assert (Hsub : (list_to_set l ∖ {[x]} : gset str) ⊆ list_to_set l)
      by apply subseteq_difference_l, reflexivity.
    apply subseteq_size in Hsub. lia.
Qed.

(** X1. The identifiers in the file may repeat. On a file of ASCII
    text with ["\n"] line ends that is made of sequence records, the
    length of the file-backed collection is the number of distinct
    identifiers, which is at most the number of records; access by an
    identifier returns the last record that carries it, when that record
    has at most one content line; the iteration yields every record, in
    the order of the file. *)
Theorem duplicate_identifiers_last_wins (recs : list (str * list str)) :
  plain_text (render recs) ->
  plain_alphabet -> Forall sequence_record recs ->
  exists F : t,
    new (render recs) = Ok F
    /\ len F = size (list_to_set recs.*1 : gset str)
    /\ (len F <= length recs)%nat
    /\ (forall pre r post,
          recs = pre ++ r :: post -> r.1 ∉ post.*1 -> (length r.2 <= 1)%nat ->
          getitem F (inr r.1) = Ok (member r))
    /\ iter F = Ok (member <$> recs).
Proof.
  intros _ Hal Hrecs. eexists. split; [by apply new_on_file|].
  assert (Hlen : len (_compute_global_properties (render recs)
                        (set_all (entries 0 recs) []))
                 = size (list_to_set recs.*1 : gset str)).
  { unfold len. simpl. by rewrite length_set_all, entries_keys. }
  split_and!.
  - exact Hlen.
  - rewrite Hlen. etransitivity; [apply size_list_to_set_le|].
    by rewrite length_fmap.
  - intros pre r post -> Hlast Hone.
    apply (getitem_last_record pre post); try done.
    apply Forall_app in Hrecs as [_ Hrecs].
    by apply Forall_cons in Hrecs as [? _].
  - unfold iter. simpl. by apply from_fasta_members.
Qed.

End Duplicates.

Lemma duplicate_identifiers_last_wins_witness :
  exists F : ProteinSequencesOnFile.t,
    ProteinSequencesOnFile.new
      (render [(lit "a", [lit "AC"]); (lit "a", [lit "ACD"])]) = Ok F
    /\ ProteinSequencesOnFile.len F
       = size (list_to_set [(lit "a", [lit "AC"]); (lit "a", [lit "ACD"])].*1
               : gset str)
    /\ (ProteinSequencesOnFile.len F <= 2)%nat
    /\ (forall pre r post,
          [(lit "a", [lit "AC"]); (lit "a", [lit "ACD"])] = pre ++ r :: post ->
          r.1 ∉ post.*1 -> (length r.2 <= 1)%nat ->
          ProteinSequencesOnFile.getitem (E := demo_env) F (inr r.1)
          = Ok (member r))
    /\ ProteinSequencesOnFile.iter (E := demo_env) F
       = Ok (member <$> [(lit "a", [lit "AC"]); (lit "a", [lit "ACD"])]).
Proof.
  apply (duplicate_identifiers_last_wins (E := demo_env)).
  - vm_compute. reflexivity.
  - apply demo_plain_alphabet.
  - constructor; [unfold sequence_record, plain_id; sequence_record_by_eval|].
    constructor; [unfold sequence_record, plain_id; sequence_record_by_eval|].
    constructor.
Defined.

(** * Further properties of the sequence *)

Arguments ProteinSequence.mutate : simpl never.
Arguments ProteinSequence.slice_as_protein_sequence : simpl never.


Section Construction.
Context `{E : Env}.


Lemma all_valid_split (seq : str) :
  all_valid seq
  \/ exists pre c post, seq = pre ++ c :: post /\ all_valid pre
                        /\ ProteinCharacter.valid_symbol c = false.
Proof.
  induction seq as [|c seq IH].
  - left. constructor.
  - destruct (ProteinCharacter.valid_symbol c) eqn:Hc.
    + destruct IH as [Hv|(pre & d & post & -> & Hpre & Hd)].
      * left. by constructor.
      * right. exists (c :: pre), d, post. split_and!; [done| |done].
        by constructor.
    + right. exists [], c, seq. split_and!; [done|constructor|done].
Qed.


End Construction.


Section Gaps.
Context `{E : Env}.

Lemma length_no_gap_le (cs : str) :
  (length (filter (fun c => c ∉ GAP_CHARACTERS) cs) <= length cs)%nat.
Proof.
  induction cs as [|c cs IH]; [done|].
  destruct (decide (c ∉ GAP_CHARACTERS)).
  - rewrite filter_cons_True by done. simpl. lia.
  - rewrite filter_cons_False by done. simpl. lia.
Qed.

Lemma has_gaps_length (cs : str) :
  existsb ProteinCharacter.is_gap cs = false
  <-> length (filter (fun c => c ∉ GAP_CHARACTERS) cs) = length cs.
Proof.
  induction cs as [|c cs IH]; [done|].
  pose proof (length_no_gap_le cs) as Hle.
  cbn [existsb]. unfold ProteinCharacter.is_gap at 1.
  rewrite orb_false_iff, IH. case_bool_decide as Hc.
  - rewrite filter_cons_False by tauto. simpl. split; [by intros [? _] | lia].
  - rewrite filter_cons_True by done. simpl. split; [intros [_ ->]; done | ].
    intros [= ->]. done.
Qed.

Lemma num_gaps_columns (s : ProteinSequence.t) :
  ProteinSequence.num_gaps s
  = Z.of_nat (ProteinSequence.len s)
    - Z.of_nat (length (filter (fun c => c ∉ GAP_CHARACTERS)
                               (ProteinSequence.chars s))).
Proof.
  unfold ProteinSequence.num_gaps, ProteinSequence.len.
  rewrite (num_gaps_fold _ 0), (length_columns_filter _ 0). lia.
Qed.

Lemma base_length_filter (s : ProteinSequence.t) :
  ProteinSequence.base_length s
  = Z.of_nat (length (filter (fun c => c ∉ GAP_CHARACTERS)
                             (ProteinSequence.chars s))).
Proof.
  unfold ProteinSequence.base_length. rewrite num_gaps_columns. lia.
Qed.

Lemma no_gaps_base_length (s : ProteinSequence.t) :
  ProteinSequence.has_gaps s = false
  <-> ProteinSequence.base_length s = Z.of_nat (ProteinSequence.len s).
Proof.
  rewrite base_length_filter. unfold ProteinSequence.has_gaps, ProteinSequence.len.
  rewrite has_gaps_length. lia.
Qed.

(** X3. [num_gaps] counts the gap symbols and lies between [0] and the
    length; [base_length] is the number of symbols that are not gaps;
    [has_gaps] holds exactly when [num_gaps] is positive, that is when
    [base_length] is below the length. *)
Theorem gap_counts (s : ProteinSequence.t) :
  0 <= ProteinSequence.num_gaps s <= Z.of_nat (ProteinSequence.len s)
  /\ ProteinSequence.base_length s
     = Z.of_nat (length (filter (fun c => c ∉ GAP_CHARACTERS)
                                (ProteinSequence.chars s)))
  /\ (ProteinSequence.has_gaps s = true <-> 0 < ProteinSequence.num_gaps s)
  /\ (ProteinSequence.has_gaps s = false
      <-> ProteinSequence.base_length s = Z.of_nat (ProteinSequence.len s)).
Proof.
  pose proof (length_no_gap_le (ProteinSequence.chars s)) as Hle.
  pose proof (has_gaps_length (ProteinSequence.chars s)) as Hg.
  pose proof (num_gaps_columns s) as Hn.
  assert (Hb : ProteinSequence.base_length s
               = Z.of_nat (length (filter (fun c => c ∉ GAP_CHARACTERS)
                                          (ProteinSequence.chars s)))).
  { unfold ProteinSequence.base_length. rewrite Hn. lia. }
  unfold ProteinSequence.has_gaps, ProteinSequence.len in *.
  split_and!.
  - lia.
  - lia.
  - exact Hb.
  - rewrite <- not_false_iff_true, Hg. lia.
  - rewrite Hg. lia.
Qed.

(** X4. On a sequence the constructor built, [with_no_gaps] returns a
    sequence without gaps that keeps the identifier and the structure; its
    symbols are those of the original that are not gaps, in their order,
    so its length is the [base_length] of the original and its own
    [base_length] is the same; applying it again changes nothing, and a
    sequence without gaps is returned as it is. *)
Theorem with_no_gaps_removes_gaps (s : ProteinSequence.t) :
  wf s ->
  exists s',
    ProteinSequence.with_no_gaps s = Ok s'
    /\ ProteinSequence.has_gaps s' = false
    /\ ProteinSequence._id s' = ProteinSequence._id s
    /\ ProteinSequence._structure s' = ProteinSequence._structure s
    /\ ProteinSequence.chars s' `sublist_of` ProteinSequence.chars s
    /\ (forall c, c ∈ ProteinSequence.chars s' <->
          c ∈ ProteinSequence.chars s /\ ProteinCharacter.is_gap c = false)
    /\ Z.of_nat (ProteinSequence.len s') = ProteinSequence.base_length s
    /\ ProteinSequence.base_length s' = ProteinSequence.base_length s
    /\ ProteinSequence.with_no_gaps s' = Ok s'
    /\ (ProteinSequence.has_gaps s = false -> s' = s).
Proof.
  intros Hwf. exists (stripped s).
  assert (Hwf' : wf (stripped s)).
  { destruct Hwf as [Hv Hp]. split; [|done]. simpl. apply Forall_forall.
    intros c [_ Hc]%list_elem_of_filter. by eapply Forall_forall in Hv. }
  assert (Hlen : Z.of_nat (ProteinSequence.len (stripped s))
                 = ProteinSequence.base_length s).
  { rewrite base_length_columns, (length_columns_filter _ 0). done. }
  split_and!; try done.
  - by apply with_no_gaps_wf.
  - apply stripped_no_gaps.
  - apply sublist_filter.
  - intros c. simpl. rewrite list_elem_of_filter.
    unfold ProteinCharacter.is_gap. rewrite bool_decide_eq_false. tauto.
  - rewrite <- Hlen. apply no_gaps_base_length. apply stripped_no_gaps.
  - rewrite with_no_gaps_wf by done. f_equal.
    apply no_gaps_stripped, stripped_no_gaps.
  - apply no_gaps_stripped.
Qed.

End Gaps.

Lemma with_no_gaps_removes_gaps_witness :
  exists s',
    ProteinSequence.with_no_gaps (E := demo_env) (pseq "A-C-" (Some "a")) = Ok s'
    /\ ProteinSequence.has_gaps (E := demo_env) s' = false
    /\ ProteinSequence._id s' = ProteinSequence._id (pseq "A-C-" (Some "a"))
    /\ ProteinSequence._structure s'
       = ProteinSequence._structure (pseq "A-C-" (Some "a"))
    /\ ProteinSequence.chars s' `sublist_of` lit "A-C-"
    /\ (forall c, c ∈ ProteinSequence.chars s' <->
          c ∈ lit "A-C-" /\ ProteinCharacter.is_gap (E := demo_env) c = false)
    /\ Z.of_nat (ProteinSequence.len s')
       = ProteinSequence.base_length (E := demo_env) (pseq "A-C-" (Some "a"))
    /\ ProteinSequence.base_length (E := demo_env) s'
       = ProteinSequence.base_length (E := demo_env) (pseq "A-C-" (Some "a"))
    /\ ProteinSequence.with_no_gaps (E := demo_env) s' = Ok s'
    /\ (ProteinSequence.has_gaps (E := demo_env) (pseq "A-C-" (Some "a")) = false
        -> s' = pseq "A-C-" (Some "a")).
Proof.
  apply (with_no_gaps_removes_gaps (E := demo_env) (pseq "A-C-" (Some "a"))).
  wf_by_eval.
Defined.

(** * Differences between two sequences *)

Lemma enumerate_from_elem {A} (l : list A) (a i : nat) (x : A) :
  (i, x) ∈ zip (seq a (length l)) l
  <-> (a <= i)%nat /\ l !! (i - a)%nat = Some x.
Proof.
  rewrite list_elem_of_lookup. split.
  - intros [k Hk].
    apply lookup_zip_with_Some in Hk as (j & y & [= <- <-] & Hj & Hy).
    apply lookup_seq in Hj as [-> _]. split; [lia|].
    by replace (a + k - a)%nat with k by lia.
  - intros [Ha Hx]. exists (i - a)%nat. apply lookup_zip_with_Some.
    exists i, x. split_and!; [done| |done].
    apply lookup_lt_Some in Hx as Hlt. apply lookup_seq. lia.
Qed.

Lemma enumerate_elem {A} (l : list A) (i : nat) (x : A) :
  (i, x) ∈ enumerate l <-> l !! i = Some x.
Proof.
  unfold enumerate. rewrite enumerate_from_elem, Nat.sub_0_r.
  split; [by intros [_ ?] | split; [lia | done]].
Qed.

(** The positions a comprehension over [enumerate] keeps come out in
    increasing order. *)
Lemma positions_sorted {A} (f : nat * A -> option nat) (l : list A) (a : nat) :
  (forall i x j, f (i, x) = Some j -> j = i) ->
  StronglySorted lt (omap f (zip (seq a (length l)) l)).
Proof.
  intros Hf. revert a. induction l as [|x l IH]; intros a; [constructor|].
  assert (Hstep : omap f (zip (seq a (length (x :: l))) (x :: l))
                  = match f (a, x) with
                    | Some j => j :: omap f (zip (seq (S a) (length l)) l)
                    | None => omap f (zip (seq (S a) (length l)) l)
                    end) by reflexivity.
  rewrite Hstep. clear Hstep.
  destruct (f (a, x)) as [j|] eqn:Hj; [|apply IH].
  apply Hf in Hj as ->. constructor; [apply IH|].
  apply Forall_forall. intros j ([i y] & Hin & Hfy)%list_elem_of_omap.
  apply Hf in Hfy as ->. apply enumerate_from_elem in Hin as [? _]. lia.
Qed.

Lemma sorted_lt_ext (l k : list nat) :
  StronglySorted lt l -> StronglySorted lt k ->
  (forall x, x ∈ l <-> x ∈ k) -> l = k.
Proof.
  intros Hl. revert k. induction Hl as [|x l Hl IH Hx]; intros k Hk Hlk.
  - destruct k as [|y k]; [done|]. exfalso.
    eapply elem_of_nil, Hlk. by left.
  - destruct Hk as [|y k Hk Hy].
    { exfalso. eapply elem_of_nil, Hlk. by left. }
    rewrite Forall_forall in Hx, Hy.
    assert (x = y) as ->.
    { assert (H1 : x ∈ y :: k) by (apply Hlk; by left).
      assert (H2 : y ∈ x :: l) by (apply Hlk; by left).
      apply elem_of_cons in H1 as [?|H1]; [done|].
      apply elem_of_cons in H2 as [?|H2]; [done|].
      apply Hy in H1. apply Hx in H2. lia. }
    f_equal. apply IH; [done|]. intros z. split; intros Hz.
    + assert (H1 : z ∈ y :: k) by (apply Hlk; by right).
      apply elem_of_cons in H1 as [->|?]; [|done]. apply Hx in Hz. lia.
    + assert (H1 : z ∈ y :: l) by (apply Hlk; by right).
      apply elem_of_cons in H1 as [->|?]; [|done]. apply Hy in Hz. lia.
Qed.

Section Differences.
Context `{E : Env}.

Lemma differ_elem (s : ProteinSequence.t) (other : str) (i : nat) :
  i ∈ ProteinSequence.mutated_positions s other
  <-> exists a b, ProteinSequence.chars s !! i = Some a
                  /\ other !! i = Some b /\ a <> b.
Proof.
  unfold ProteinSequence.mutated_positions. rewrite list_elem_of_omap. split.
  - intros ([j [a b]] & Hin & Hf). apply enumerate_elem in Hin.
    destruct (decide (a ≠ b)); [|done]. injection Hf as ->.
    apply lookup_zip_with_Some in Hin as (a' & b' & [= <- <-] & Ha & Hb).
    by exists a, b.
  - intros (a & b & Ha & Hb & Hab). exists (i, (a, b)). split.
    + apply enumerate_elem, lookup_zip_with_Some. by exists a, b.
    + by rewrite decide_True.
Qed.

Lemma differ_sorted (s : ProteinSequence.t) (other : str) :
  StronglySorted lt (ProteinSequence.mutated_positions s other).
Proof.
  unfold ProteinSequence.mutated_positions, enumerate. apply positions_sorted.
  intros i [a b] j. destruct (decide (a ≠ b)); [|done]. by intros [= <-].
Qed.

(** X5. [mutated_positions] of a sequence against another lists, in
    increasing order, the positions both have where their symbols differ;
    what the longer one has beyond the shorter is not compared. A sequence
    does not differ from itself, and the comparison is symmetric. *)
Theorem sequence_mutated_positions (s : ProteinSequence.t) (other : str) :
  (forall i, i ∈ ProteinSequence.mutated_positions s other
     <-> exists a b, ProteinSequence.chars s !! i = Some a
                     /\ other !! i = Some b /\ a <> b)
  /\ StronglySorted lt (ProteinSequence.mutated_positions s other)
  /\ ProteinSequence.mutated_positions s (ProteinSequence.chars s) = []
  /\ (forall o, ProteinSequence.chars o = other ->
        ProteinSequence.mutated_positions o (ProteinSequence.chars s)
        = ProteinSequence.mutated_positions s other)
  /\ (forall more, (ProteinSequence.len s <= length other)%nat ->
        ProteinSequence.mutated_positions s (other ++ more)
        = ProteinSequence.mutated_positions s other).
Proof.
  split_and!.
  - apply differ_elem.
  - apply differ_sorted.
  - apply elem_of_nil_inv. intros i (a & b & Ha & Hb & Hab)%differ_elem.
    congruence.
  - intros o <-. apply sorted_lt_ext; [apply differ_sorted..|].
    intros i. rewrite !differ_elem. split.
    + intros (a & b & Ha & Hb & Hab). by exists b, a.
    + intros (a & b & Ha & Hb & Hab). by exists b, a.
  - intros more Hlen. apply sorted_lt_ext; [apply differ_sorted..|].
    intros i. rewrite !differ_elem. unfold ProteinSequence.len in Hlen.
    split; intros (a & b & Ha & Hb & Hab); exists a, b; split_and!; try done.
    + apply lookup_lt_Some in Ha as Hlt.
      by rewrite lookup_app_l in Hb by lia.
    + by apply lookup_app_l_Some.
Qed.

(** X6. After [mutate] puts the valid symbol [c] at position [p] of a
    sequence the constructor built, [mutated_positions] of the original
    against the result is [p] alone, or nothing when [c] is the symbol
    that was there. *)
Theorem mutate_differs_at_position
    (s : ProteinSequence.t) (p : nat) (c : ascii) :
  wf s -> ProteinCharacter.valid_symbol c = true ->
  (p < ProteinSequence.len s)%nat ->
  exists s',
    ProteinSequence.mutate s (Z.of_nat p) [c] = Ok s'
    /\ ProteinSequence.mutated_positions s (ProteinSequence.chars s')
       = (if decide (ProteinSequence.chars s !! p = Some c) then [] else [p])
    /\ ProteinSequence.mutated_positions s' (ProteinSequence.chars s)
       = ProteinSequence.mutated_positions s (ProteinSequence.chars s').
Proof.
  intros Hwf Hc Hp. rewrite mutate_in_range by lia. rewrite Nat2Z.id.
  unfold ProteinSequence.len in Hp.
  set (cs := ProteinSequence.chars s) in *.
  assert (Hv : all_valid (take p cs ++ [c] ++ drop (S p) cs)).
  { destruct Hwf as [Hv _]. unfold all_valid in *.
    rewrite !Forall_app. split_and!.
    - by apply Forall_take.
    - by constructor.
    - by apply Forall_drop. }
  rewrite new_wf_Ok by done. eexists. split; [done|]. simpl.
  rewrite <- insert_take_drop by done. split.
  - apply sorted_lt_ext.
    + apply differ_sorted.
    + destruct (decide (cs !! p = Some c)); repeat constructor.
    + intros i. rewrite differ_elem. fold cs. split.
      * intros (a & b & Ha & Hb & Hab).
        destruct (decide (i = p)) as [->|Hne].
        -- rewrite list_lookup_insert_eq in Hb by done. injection Hb as <-.
           rewrite decide_False by congruence. by left.
        -- rewrite list_lookup_insert_ne in Hb by done. congruence.
      * destruct (decide (cs !! p = Some c)) as [Heq|Hne].
        { by intros ?%elem_of_nil. }
        intros ->%list_elem_of_singleton.
        destruct (lookup_lt_is_Some_2 cs p Hp) as [a Ha].
        exists a, c. split_and!; [done| |congruence].
        by apply list_lookup_insert_eq.
  - apply sorted_lt_ext; [apply differ_sorted..|].
    intros i. rewrite !differ_elem. simpl. fold cs.
    split; intros (a & b & Ha & Hb & Hab); by exists b, a.
Qed.

End Differences.

Lemma mutate_differs_at_position_witness :
  exists s',
    ProteinSequence.mutate (E := demo_env) (pseq "ACDE" (Some "a")) (Z.of_nat 2)
                           (lit "W") = Ok s'
    /\ ProteinSequence.mutated_positions (pseq "ACDE" (Some "a"))
                                         (ProteinSequence.chars s')
       = (if decide (ProteinSequence.chars (pseq "ACDE" (Some "a")) !! 2%nat
                     = Some "W"%char)
          then [] else [2%nat])
    /\ ProteinSequence.mutated_positions s'
         (ProteinSequence.chars (pseq "ACDE" (Some "a")))
       = ProteinSequence.mutated_positions (pseq "ACDE" (Some "a"))
                                           (ProteinSequence.chars s').
Proof.
  apply (mutate_differs_at_position (E := demo_env)
           (pseq "ACDE" (Some "a")) 2 "W"%char).
  - wf_by_eval.
  - reflexivity.
  - vm_compute. lia.
Defined.

(** * Slices of a sequence *)

Lemma py_slice_segment {A} (l : list A) (start stop : option Z) :
  exists pre post, l = pre ++ py_slice l start stop ++ post.
Proof.
  unfold py_slice. cbv zeta.
  match goal with
  | |- context [take ?k (drop ?lo l)] =>
      exists (take lo l), (drop k (drop lo l))
  end.
  by rewrite !take_drop.
Qed.

Lemma py_slice_whole {A} (l : list A) :
  py_slice l (Some 0) (Some (Z.of_nat (length l))) = l.
Proof.
  change 0 with (Z.of_nat 0). rewrite <- (Z.add_0_l (Z.of_nat (length l))).
  change 0 with (Z.of_nat 0). rewrite py_slice_window. simpl.
  by apply take_ge.
Qed.

Lemma take_drop_eq {A} (l : list A) (a a' b b' : nat) :
  a = a' -> b = b' -> take a (drop b l) = take a' (drop b' l).
Proof. by intros -> ->. Qed.

Ltac slice_arith :=
  unfold py_slice, adjust_index; cbv zeta;
  repeat match goal with
         | |- context [?a <? ?b] => destruct (Z.ltb_spec a b)
         end;
  try lia; apply take_drop_eq; lia.

Lemma py_slice_negative {A} (l : list A) (start stop : Z) :
  let n := Z.of_nat (length l) in
  (- n <= start < 0 ->
   py_slice l (Some start) (Some stop) = py_slice l (Some (start + n)) (Some stop))
  /\ (- n <= stop < 0 ->
      py_slice l (Some start) (Some stop) = py_slice l (Some start) (Some (stop + n))).
Proof.
  intros n. subst n. split; intros H; slice_arith.
Qed.

Lemma py_slice_clipped {A} (l : list A) (start stop : Z) :
  let n := Z.of_nat (length l) in
  (n <= stop ->
   py_slice l (Some start) (Some stop) = py_slice l (Some start) (Some n))
  /\ (start <= - n ->
      py_slice l (Some start) (Some stop) = py_slice l (Some 0) (Some stop)).
Proof.
  intros n. subst n. split; intros H; slice_arith.
Qed.

Lemma segments_adjacent {A} (l : list A) (lo d e : nat) :
  take d (drop lo l) ++ take e (drop (lo + d) l) = take (d + e) (drop lo l).
Proof. rewrite <- drop_drop. apply take_take_drop. Qed.

Lemma py_slice_adjacent {A} (l : list A) (a b c : Z) :
  0 <= a <= b -> b <= c ->
  py_slice l (Some a) (Some b) ++ py_slice l (Some b) (Some c)
  = py_slice l (Some a) (Some c).
Proof.
  intros Hab Hbc. unfold py_slice, adjust_index. cbv zeta.
  set (n := Z.of_nat (length l)).
  destruct (Z.ltb_spec a 0); [lia|].
  destruct (Z.ltb_spec b 0); [lia|].
  destruct (Z.ltb_spec c 0); [lia|].
  etransitivity; [|etransitivity].
  2: apply (segments_adjacent l (Z.to_nat (Z.min a n))
              (Z.to_nat (Z.min b n - Z.min a n))
              (Z.to_nat (Z.min c n - Z.min b n))).
  - f_equal. apply take_drop_eq; lia.
  - apply take_drop_eq; lia.
Qed.

Section Slices.
Context `{E : Env}.

Lemma slice_wf (s : ProteinSequence.t) (start stop : Z) :
  wf s ->
  ProteinSequence.slice_as_protein_sequence s start stop
  = Ok (ProteinSequence.mk
          (py_slice (ProteinSequence.chars s) (Some start) (Some stop))
          (ProteinSequence._id s) (ProteinSequence._structure s)).
Proof.
  intros Hwf. unfold ProteinSequence.slice_as_protein_sequence.
  apply new_wf_Ok; [done|]. destruct Hwf as [Hv _].
  unfold py_slice. by apply Forall_take, Forall_drop.
Qed.

(** X7. On a sequence the constructor built, [slice_as_protein_sequence]
    never raises, whatever the two bounds: it returns a sequence with the
    same identifier and structure whose symbols are a contiguous segment
    of the original. Between bounds [a] and [a + n] inside the sequence
    the segment has length [n] and starts at [a]; a negative bound counts
    from the end, a bound beyond the end is cut to the end; the whole
    range returns the sequence itself; and two slices that meet at a bound
    concatenate to the slice over both. *)
Theorem slice_is_a_segment (s : ProteinSequence.t) :
  wf s ->
  let n := Z.of_nat (ProteinSequence.len s) in
  (forall start stop, exists s',
     ProteinSequence.slice_as_protein_sequence s start stop = Ok s'
     /\ ProteinSequence._id s' = ProteinSequence._id s
     /\ ProteinSequence._structure s' = ProteinSequence._structure s
     /\ exists pre post,
          ProteinSequence.chars s
          = pre ++ ProteinSequence.chars s' ++ post)
  /\ (forall a k : nat, (a + k <= ProteinSequence.len s)%nat -> exists s',
        ProteinSequence.slice_as_protein_sequence
          s (Z.of_nat a) (Z.of_nat a + Z.of_nat k) = Ok s'
        /\ ProteinSequence.len s' = k
        /\ forall i, (i < k)%nat ->
             ProteinSequence.chars s' !! i
             = ProteinSequence.chars s !! (a + i)%nat)
  /\ (forall start stop, - n <= start < 0 ->
        ProteinSequence.slice_as_protein_sequence s start stop
        = ProteinSequence.slice_as_protein_sequence s (start + n) stop)
  /\ (forall start stop, - n <= stop < 0 ->
        ProteinSequence.slice_as_protein_sequence s start stop
        = ProteinSequence.slice_as_protein_sequence s start (stop + n))
  /\ (forall start stop, n <= stop ->
        ProteinSequence.slice_as_protein_sequence s start stop
        = ProteinSequence.slice_as_protein_sequence s start n)
  /\ ProteinSequence.slice_as_protein_sequence s 0 n = Ok s
  /\ (forall a b c x y z, 0 <= a <= b -> b <= c ->
        ProteinSequence.slice_as_protein_sequence s a b = Ok x ->
        ProteinSequence.slice_as_protein_sequence s b c = Ok y ->
        ProteinSequence.slice_as_protein_sequence s a c = Ok z ->
        ProteinSequence.chars z
        = ProteinSequence.chars x ++ ProteinSequence.chars y).
Proof.
  intros Hwf n. unfold ProteinSequence.len in *. split_and!.
  - intros start stop. rewrite slice_wf by done. eexists. split; [done|].
    simpl. split_and!; [done..|]. apply py_slice_segment.
  - intros a k Hak. rewrite slice_wf by done. eexists. split; [done|].
    simpl. rewrite py_slice_window. split.
    + rewrite length_take, length_drop. lia.
    + intros i Hi. by rewrite lookup_take_lt, lookup_drop by done.
  - intros start stop H. rewrite !slice_wf by done. do 2 f_equal.
    by apply py_slice_negative.
  - intros start stop H. rewrite !slice_wf by done. do 2 f_equal.
    by apply py_slice_negative.
  - intros start stop H. rewrite !slice_wf by done. do 2 f_equal.
    by apply py_slice_clipped.
  - rewrite slice_wf by done. subst n. rewrite py_slice_whole. by destruct s.
  - intros a b c x y z Hab Hbc. rewrite !slice_wf by done.
    intros [= <-] [= <-] [= <-]. simpl. symmetry. by apply py_slice_adjacent.
Qed.

End Slices.

Lemma slice_is_a_segment_witness :
  ProteinSequence.slice_as_protein_sequence (E := demo_env)
    (pseq "ACDE" (Some "a")) (- 3) 3
  = ProteinSequence.slice_as_protein_sequence (E := demo_env)
      (pseq "ACDE" (Some "a"))
      (- 3 + Z.of_nat (ProteinSequence.len (pseq "ACDE" (Some "a")))) 3.
Proof.
  refine (proj1 (proj2 (proj2 (slice_is_a_segment (E := demo_env)
                                 (pseq "ACDE" (Some "a")) _))) (- 3) 3 _).
  - wf_by_eval.
  - vm_compute. split; discriminate || reflexivity.
Defined.

(** * Reading and replacing single positions *)

Section Positions.
Context `{E : Env}.

Lemma wf_insert (s : ProteinSequence.t) (p : nat) (c : ascii) :
  wf s -> ProteinCharacter.valid_symbol c = true ->
  wf (ProteinSequence.mk (<[p := c]> (ProteinSequence.chars s)) None
                         (ProteinSequence._structure s)).
Proof.
  intros [Hv Hp] Hc. split; [|done]. simpl. unfold all_valid in *.
  destruct (decide (p < length (ProteinSequence.chars s))%nat).
  - by apply Forall_insert.
  - by rewrite list_insert_ge by lia.
Qed.

Lemma mutate_valid (s : ProteinSequence.t) (p : nat) (c : ascii) :
  wf s -> ProteinCharacter.valid_symbol c = true ->
  (p < ProteinSequence.len s)%nat ->
  ProteinSequence.mutate s (Z.of_nat p) [c]
  = Ok (ProteinSequence.mk (<[p := c]> (ProteinSequence.chars s)) None
                           (ProteinSequence._structure s)).
Proof.
  intros Hwf Hc Hp. rewrite mutate_in_range by lia. rewrite Nat2Z.id.
  unfold ProteinSequence.len in Hp.
  apply (wf_insert s p c) in Hc as [Hv Hs]; [|done]. simpl in Hv, Hs.
  rewrite insert_take_drop in Hv |- * by done.
  by apply new_Ok.
Qed.

Lemma get_in_range (s : ProteinSequence.t) (p : nat) (c : ascii) :
  ProteinSequence.chars s !! p = Some c ->
  ProteinSequence.get_protein_character s (Z.of_nat p) = Ok c.
Proof.
  intros Hc. apply lookup_lt_Some in Hc as Hlt.
  unfold ProteinSequence.get_protein_character, ProteinSequence.len.
  destruct (Z.ltb_spec (Z.of_nat p) 0); [lia|].
  destruct (Z.geb_spec (Z.of_nat p)
              (Z.of_nat (length (ProteinSequence.chars s)))); [lia|].
  by apply py_index_lookup.
Qed.

(** X8. [get_protein_character] returns the symbol at a position from [0] to
    the length minus one and raises its own range error for every other
    position: a negative position, which a plain subscript of the list of
    symbols would count from the end, is refused, and the subscript's own
    error is never seen. *)
Theorem get_protein_character_in_range (s : ProteinSequence.t) (p : Z) :
  (forall c, ProteinSequence.get_protein_character s p = Ok c
     <-> 0 <= p < Z.of_nat (ProteinSequence.len s)
         /\ ProteinSequence.chars s !! Z.to_nat p = Some c)
  /\ (~ (0 <= p < Z.of_nat (ProteinSequence.len s))
      <-> ProteinSequence.get_protein_character s p
          = Raise (IndexError PositionOutOfRange))
  /\ ProteinSequence.get_protein_character s p <> Raise (IndexError ListIndex)
  /\ (- Z.of_nat (ProteinSequence.len s) <= p < 0 ->
      exists c, py_index (ProteinSequence.chars s) p = Ok c).
Proof.
  assert (Hin : 0 <= p < Z.of_nat (ProteinSequence.len s) ->
                exists c, ProteinSequence.chars s !! Z.to_nat p = Some c
                          /\ ProteinSequence.get_protein_character s p = Ok c).
  { intros Hp. unfold ProteinSequence.len in Hp.
    destruct (lookup_lt_is_Some_2 (ProteinSequence.chars s) (Z.to_nat p))
      as [c Hc]; [lia|].
    exists c. split; [done|]. rewrite <- (Z2Nat.id p) by lia.
    by apply get_in_range. }
  assert (Hout : ~ (0 <= p < Z.of_nat (ProteinSequence.len s)) ->
                 ProteinSequence.get_protein_character s p
                 = Raise (IndexError PositionOutOfRange)).
  { intros Hp. unfold ProteinSequence.get_protein_character.
    destruct (Z.ltb_spec p 0); [done|].
    destruct (Z.geb_spec p (Z.of_nat (ProteinSequence.len s))); [done|lia]. }
  destruct (decide (0 <= p < Z.of_nat (ProteinSequence.len s))) as [Hp|Hp].
  - destruct (Hin Hp) as (c & Hc & Hget). rewrite Hget. split_and!.
    + intros c'. split; [intros [= <-]; done | intros [_ ?]; congruence].
    + split; [done | discriminate].
    + discriminate.
    + lia.
  - rewrite (Hout Hp). split_and!.
    + intros c. split; [discriminate | by intros [? _]].
    + done.
    + discriminate.
    + intros Hneg. unfold py_index, norm_index, ProteinSequence.len in *.
      destruct (Z.ltb_spec p 0); [|lia].
      set (n := Z.of_nat (length (ProteinSequence.chars s))) in *.
      destruct (Z.ltb_spec (p + n) 0); [lia|].
      destruct (Z.leb_spec n (p + n)); [lia|]. simpl.
      destruct (lookup_lt_is_Some_2 (ProteinSequence.chars s)
                  (Z.to_nat (p + n))) as [c Hc]; [lia|].
      rewrite Hc. by exists c.
Qed.

(** X9. Replacements by [mutate] on a sequence the constructor built, with
    valid symbols at positions inside it: the symbol put at a position
    is the one read there afterwards; a second replacement at the same
    position overrides the first; replacements at two different positions
    give the same sequence in either order; putting the symbol that is
    already there keeps the symbols and drops only the identifier; the
    original is not changed. *)
Theorem mutate_composition
    (s : ProteinSequence.t) (p q : nat) (c d : ascii) :
  wf s ->
  ProteinCharacter.valid_symbol c = true ->
  ProteinCharacter.valid_symbol d = true ->
  (p < ProteinSequence.len s)%nat -> (q < ProteinSequence.len s)%nat ->
  exists sc sd,
    ProteinSequence.mutate s (Z.of_nat p) [c] = Ok sc
    /\ ProteinSequence.mutate s (Z.of_nat q) [d] = Ok sd
    /\ ProteinSequence.get_protein_character sc (Z.of_nat p) = Ok c
    /\ (p = q -> ProteinSequence.mutate sc (Z.of_nat q) [d] = Ok sd)
    /\ (p <> q ->
        ProteinSequence.mutate sc (Z.of_nat q) [d]
        = ProteinSequence.mutate sd (Z.of_nat p) [c]
        /\ ProteinSequence.get_protein_character sc (Z.of_nat q)
           = ProteinSequence.get_protein_character s (Z.of_nat q))
    /\ (exists r, ProteinSequence.mutate sc (Z.of_nat q) [d] = Ok r
                  /\ ProteinSequence.get_protein_character r (Z.of_nat q) = Ok d)
    /\ (ProteinSequence.chars s !! p = Some c ->
        sc = ProteinSequence.mk (ProteinSequence.chars s) None
                                (ProteinSequence._structure s)).
Proof.
  intros Hwf Hc Hd Hp Hq.
  pose proof (wf_insert s p c Hwf Hc) as Hwc.
  pose proof (wf_insert s q d Hwf Hd) as Hwd.
  rewrite (mutate_valid s p c), (mutate_valid s q d) by done.
  do 2 eexists. split; [done|]. split; [done|].
  unfold ProteinSequence.len in Hp, Hq.
  rewrite !mutate_valid; try done;
    try (unfold ProteinSequence.len; simpl; rewrite length_insert; done).
  simpl. split_and!.
  - apply get_in_range. simpl. by apply list_lookup_insert_eq.
  - intros ->. by rewrite list_insert_insert_eq.
  - intros Hne. split.
    + by rewrite list_insert_insert_ne.
    + unfold ProteinSequence.get_protein_character, ProteinSequence.len.
      simpl. rewrite length_insert.
      destruct (_ || _); [done|].
      destruct (lookup_lt_is_Some_2 (ProteinSequence.chars s) q Hq) as [a Ha].
      rewrite !(py_index_lookup _ q a); [done..|].
      by rewrite list_lookup_insert_ne.
  - eexists. split; [done|]. apply get_in_range. simpl.
    apply list_lookup_insert_eq. by rewrite length_insert.
  - intros Hpc. by rewrite list_insert_id.
Qed.

(** X10. [mutate] takes a replacement of any length: with valid symbols and a
    position inside a sequence the constructor built, the result has the
    symbols before the position, then the replacement, then the symbols
    after the position, so its length is the original's minus one plus
    the replacement's, and the empty replacement deletes the position.
    When the replacement has an invalid symbol the first one is reported,
    and a position outside the sequence is reported before that. *)
Theorem mutate_with_any_replacement
    (s : ProteinSequence.t) (p : nat) (new_character : str) :
  wf s -> (p < ProteinSequence.len s)%nat ->
  (all_valid new_character ->
   exists s',
     ProteinSequence.mutate s (Z.of_nat p) new_character = Ok s'
     /\ ProteinSequence.chars s'
        = take p (ProteinSequence.chars s) ++ new_character
          ++ drop (S p) (ProteinSequence.chars s)
     /\ Z.of_nat (ProteinSequence.len s')
        = Z.of_nat (ProteinSequence.len s) - 1
          + Z.of_nat (length new_character)
     /\ ProteinSequence._id s' = None
     /\ ProteinSequence._structure s' = ProteinSequence._structure s)
  /\ (forall pre c post,
        new_character = pre ++ c :: post -> all_valid pre ->
        ProteinCharacter.valid_symbol c = false ->
        ProteinSequence.mutate s (Z.of_nat p) new_character
        = Raise (ValueError (InvalidCharacter c))
        /\ forall z, ~ (0 <= z < Z.of_nat (ProteinSequence.len s)) ->
             ProteinSequence.mutate s z new_character
             = Raise (ValueError PositionOutOfRange)).
Proof.
  intros Hwf Hp. split.
  - intros Hnc. rewrite mutate_in_range by lia. rewrite Nat2Z.id.
    assert (Hv : all_valid (take p (ProteinSequence.chars s) ++ new_character
                            ++ drop (S p) (ProteinSequence.chars s))).
    { destruct Hwf as [Hv _]. unfold all_valid in *.
      rewrite !Forall_app. split_and!; [by apply Forall_take | done |].
      by apply Forall_drop. }
    rewrite new_wf_Ok by done. eexists. split; [done|]. simpl.
    split_and!; try done.
    unfold ProteinSequence.len in *. simpl.
    rewrite !length_app, length_take, length_drop. lia.
  - intros pre c post -> Hpre Hc. split.
    + rewrite mutate_in_range by lia. rewrite Nat2Z.id.
      unfold ProteinSequence.new.
      rewrite <- (app_assoc pre), (app_assoc (take p _)), <- app_comm_cons.
      rewrite characters_invalid; [done| |done].
      destruct Hwf as [Hv _]. unfold all_valid in *.
      apply Forall_app. split; [by apply Forall_take | done].
    + intros z Hz. by apply mutate_out_of_range.
Qed.

End Positions.

Lemma mutate_composition_witness :
  exists sc sd,
    ProteinSequence.mutate (E := demo_env) (pseq "ACDE" None) (Z.of_nat 1)
                           ["W"%char] = Ok sc
    /\ ProteinSequence.mutate (E := demo_env) (pseq "ACDE" None) (Z.of_nat 3)
                              ["Y"%char] = Ok sd
    /\ ProteinSequence.get_protein_character sc (Z.of_nat 1) = Ok "W"%char
    /\ (1%nat = 3%nat ->
        ProteinSequence.mutate (E := demo_env) sc (Z.of_nat 3) ["Y"%char] = Ok sd)
    /\ (1%nat <> 3%nat ->
        ProteinSequence.mutate (E := demo_env) sc (Z.of_nat 3) ["Y"%char]
        = ProteinSequence.mutate (E := demo_env) sd (Z.of_nat 1) ["W"%char]
        /\ ProteinSequence.get_protein_character sc (Z.of_nat 3)
           = ProteinSequence.get_protein_character (pseq "ACDE" None) (Z.of_nat 3))
    /\ (exists r,
          ProteinSequence.mutate (E := demo_env) sc (Z.of_nat 3) ["Y"%char] = Ok r
          /\ ProteinSequence.get_protein_character r (Z.of_nat 3) = Ok "Y"%char)
    /\ (ProteinSequence.chars (pseq "ACDE" None) !! 1%nat = Some "W"%char ->
        sc = ProteinSequence.mk (ProteinSequence.chars (pseq "ACDE" None)) None
                                (ProteinSequence._structure (pseq "ACDE" None))).
Proof.
  apply (mutate_composition (E := demo_env) (pseq "ACDE" None) 1 3
           "W"%char "Y"%char).
  - wf_by_eval.
  - reflexivity.
  - reflexivity.
  - vm_compute. lia.
  - vm_compute. lia.
Defined.

Lemma mutate_with_any_replacement_witness :
  exists s',
    ProteinSequence.mutate (E := demo_env) (pseq "ACDE" (Some "a"))
                           (Z.of_nat 1) [] = Ok s'
    /\ ProteinSequence.chars s'
       = take 1 (ProteinSequence.chars (pseq "ACDE" (Some "a"))) ++ []
         ++ drop 2 (ProteinSequence.chars (pseq "ACDE" (Some "a")))
    /\ Z.of_nat (ProteinSequence.len s')
       = Z.of_nat (ProteinSequence.len (pseq "ACDE" (Some "a"))) - 1
         + Z.of_nat (length (@nil ascii))
    /\ ProteinSequence._id s' = None
    /\ ProteinSequence._structure s'
       = ProteinSequence._structure (pseq "ACDE" (Some "a")).
Proof.
  refine (proj1 (mutate_with_any_replacement (E := demo_env)
                   (pseq "ACDE" (Some "a")) 1 [] _ _) _).
  - wf_by_eval.
  - vm_compute. lia.
  - constructor.
Defined.

(** * Aggregates of a collection *)

Lemma existsb_elem_of {A} (f : A -> bool) (l : list A) :
  existsb f l = true <-> exists x, x ∈ l /\ f x = true.
Proof.
  rewrite existsb_exists. split; intros (x & Hx & Hf); exists x;
    (split; [by apply list_elem_of_In | done]).
Qed.

Lemma existsb_false_elem_of {A} (f : A -> bool) (l : list A) :
  existsb f l = false <-> forall x, x ∈ l -> f x = false.
Proof.
  rewrite <- not_true_iff_false, existsb_elem_of. split.
  - intros H x Hx. apply not_true_is_false. intros Hf. apply H. by exists x.
  - intros H (x & Hx & Hf). rewrite (H x Hx) in Hf. done.
Qed.

Lemma one_value_iff {A B} `{Countable B} (f : A -> B) (l : list A) :
  size (list_to_set (f <$> l) : gset B) = 1%nat
  <-> l <> [] /\ forall a b, a ∈ l -> b ∈ l -> f a = f b.
Proof.
  rewrite size_one_fmap. split.
  - intros (b & Hb & Hall). split.
    + intros ->. by apply elem_of_nil in Hb.
    + intros x y Hx Hy. by rewrite (Hall x), (Hall y).
  - intros [Hne Hall]. destruct l as [|b l]; [done|].
    exists b. split; [by left|]. intros b' Hb'. apply Hall; [done | by left].
Qed.

Section Aggregates.
Context `{E : Env}.

Lemma width_aligned (C : ProteinSequences.t) (s0 : ProteinSequence.t)
    (r : ProteinSequences.t) :
  C = s0 :: r ->
  ProteinSequences.width C
  = Ok (if ProteinSequences.aligned C then Some (ProteinSequence.len s0)
        else None).
Proof.
  intros ->. unfold ProteinSequences.width.
  destruct (ProteinSequences.aligned (s0 :: r)); [|done].
  change 0 with (Z.of_nat 0). by rewrite (py_index_lookup (s0 :: r) 0 s0).
Qed.

(** X11. The aggregates of an in-memory collection. [aligned] holds exactly
    when there is a member and all members have one length, and
    [fixed_length] the same for the lengths without gaps; [width] never
    raises, and it is [n] exactly when there is a member and every member
    has length [n]; [has_gaps] holds exactly when some member has a gap.
    In a collection without gaps [fixed_length] and [aligned] agree; in
    one that is aligned and of fixed length all members have the same
    number of gaps. *)
Theorem collection_aggregates (C : ProteinSequences.t) :
  (ProteinSequences.aligned C = true
   <-> C <> [] /\ forall s t, s ∈ C -> t ∈ C ->
                    ProteinSequence.len s = ProteinSequence.len t)
  /\ (ProteinSequences.fixed_length C = true
      <-> C <> [] /\ forall s t, s ∈ C -> t ∈ C ->
            ProteinSequence.base_length s = ProteinSequence.base_length t)
  /\ (exists w, ProteinSequences.width C = Ok w)
  /\ (forall n, ProteinSequences.width C = Ok (Some n)
        <-> C <> [] /\ forall s, s ∈ C -> ProteinSequence.len s = n)
  /\ (ProteinSequences.has_gaps C = true
      <-> exists s, s ∈ C /\ ProteinSequence.has_gaps s = true)
  /\ (ProteinSequences.has_gaps C = false ->
      ProteinSequences.fixed_length C = ProteinSequences.aligned C)
  /\ (ProteinSequences.aligned C = true ->
      ProteinSequences.fixed_length C = true ->
      forall s t, s ∈ C -> t ∈ C ->
        ProteinSequence.num_gaps s = ProteinSequence.num_gaps t).
Proof.
  assert (Ha : ProteinSequences.aligned C = true
               <-> C <> [] /\ forall s t, s ∈ C -> t ∈ C ->
                     ProteinSequence.len s = ProteinSequence.len t).
  { unfold ProteinSequences.aligned. rewrite bool_decide_eq_true.
    apply one_value_iff. }
  assert (Hf : ProteinSequences.fixed_length C = true
               <-> C <> [] /\ forall s t, s ∈ C -> t ∈ C ->
                     ProteinSequence.base_length s
                     = ProteinSequence.base_length t).
  { unfold ProteinSequences.fixed_length. rewrite bool_decide_eq_true.
    apply one_value_iff. }
  split_and!.
  - exact Ha.
  - exact Hf.
  - destruct C as [|s0 r]; [by exists None|].
    rewrite (width_aligned _ s0 r) by done. by eexists.
  - intros n. destruct C as [|s0 r].
    + split; [|by intros [? _]]. unfold ProteinSequences.width.
      destruct (ProteinSequences.aligned []) eqn:Hal; [|done].
      by apply aligned_nonempty in Hal.
    + rewrite (width_aligned _ s0 r) by done.
      destruct (ProteinSequences.aligned (s0 :: r)) eqn:Hal.
      * destruct (proj1 Ha eq_refl) as [_ Hal']. split.
        -- intros [= <-]. split; [done|]. intros s Hs.
           apply Hal'; [done | by left].
        -- intros [_ Hn]. do 2 f_equal. apply Hn. by left.
      * split; [done|]. intros [_ Hn].
        assert (false = true) as Habs; [|done]. apply Ha. split; [done|].
        intros s t Hs Ht. by rewrite (Hn s), (Hn t).
  - apply existsb_elem_of.
  - intros Hg. apply eq_true_iff_eq. rewrite Ha, Hf.
    assert (Hb : forall s, s ∈ C ->
              ProteinSequence.base_length s = Z.of_nat (ProteinSequence.len s)).
    { intros s Hs. apply no_gaps_base_length.
      by eapply existsb_false_elem_of in Hg. }
    split; intros [Hne Hall]; (split; [done|]); intros s t Hs Ht.
    + specialize (Hall s t Hs Ht). rewrite !Hb in Hall by done. lia.
    + rewrite !Hb by done. by rewrite (Hall s t).
  - intros [_ Hal]%Ha [_ Hfl]%Hf s t Hs Ht.
    specialize (Hal s t Hs Ht). specialize (Hfl s t Hs Ht).
    unfold ProteinSequence.base_length in Hfl. lia.
Qed.

(** X12. On a collection whose members the constructor built,
    [with_no_gaps] returns as many members, each with its gaps removed
    and its identifier and structure kept. The result has no gaps; it is
    aligned exactly when the original is of fixed length, and of fixed
    length exactly when the original is; a collection without gaps is
    returned member for member, and removing gaps twice is the same as
    once. *)
Theorem collection_with_no_gaps (C : ProteinSequences.t) :
  Forall wf C ->
  exists C',
    ProteinSequences.with_no_gaps C = Ok C'
    /\ length C' = length C
    /\ (forall i s, C !! i = Some s -> exists s',
          C' !! i = Some s'
          /\ ProteinSequence.chars s'
             = filter (fun c => c ∉ GAP_CHARACTERS) (ProteinSequence.chars s)
          /\ ProteinSequence._id s' = ProteinSequence._id s
          /\ ProteinSequence._structure s' = ProteinSequence._structure s)
    /\ ProteinSequences.has_gaps C' = false
    /\ ProteinSequences.aligned C' = ProteinSequences.fixed_length C
    /\ ProteinSequences.fixed_length C' = ProteinSequences.fixed_length C
    /\ (ProteinSequences.has_gaps C = false -> C' = C)
    /\ ProteinSequences.with_no_gaps C' = Ok C'.
Proof.
  intros Hwf. exists (stripped <$> C).
  assert (Hmap : forall D : ProteinSequences.t, Forall wf D ->
            ProteinSequences.with_no_gaps D = Ok (stripped <$> D)).
  { intros D HD. unfold ProteinSequences.with_no_gaps. apply mapR_fmap.
    eapply Forall_impl; [exact HD|]. intros s Hs. by apply with_no_gaps_wf. }
  assert (Hlen : forall s, Z.of_nat (ProteinSequence.len (stripped s))
                           = ProteinSequence.base_length s).
  { intros s. by rewrite base_length_filter. }
  assert (Hbase : forall s, ProteinSequence.base_length (stripped s)
                            = ProteinSequence.base_length s).
  { intros s. rewrite <- (Hlen s).
    apply no_gaps_base_length, stripped_no_gaps. }
  assert (Hid : forall D : ProteinSequences.t,
            ProteinSequences.has_gaps D = false -> stripped <$> D = D).
  { intros D HD. rewrite <- (list_fmap_id D) at 2. apply list_fmap_ext.
    intros i s Hs. apply no_gaps_stripped.
    eapply existsb_false_elem_of in HD; [done|].
    by eapply list_elem_of_lookup_2. }
  assert (Hng : ProteinSequences.has_gaps (stripped <$> C) = false).
  { apply existsb_false_elem_of.
    intros s' (s & -> & Hs)%list_elem_of_fmap. apply stripped_no_gaps. }
  split_and!.
  - by apply Hmap.
  - by rewrite length_fmap.
  - intros i s Hs. exists (stripped s). split; [|done].
    by rewrite list_lookup_fmap, Hs.
  - exact Hng.
  - apply eq_true_iff_eq.
    unfold ProteinSequences.aligned, ProteinSequences.fixed_length.
    rewrite !bool_decide_eq_true, <- list_fmap_compose, !one_value_iff.
    split; intros [Hne Hall]; (split; [done|]); intros s t Hs Ht;
      specialize (Hall s t Hs Ht); simpl in *.
    + by rewrite <- (Hlen s), <- (Hlen t), Hall.
    + rewrite <- (Hlen s), <- (Hlen t) in Hall. lia.
  - apply eq_true_iff_eq. unfold ProteinSequences.fixed_length.
    rewrite !bool_decide_eq_true, <- list_fmap_compose, !one_value_iff.
    split; intros [Hne Hall]; (split; [done|]); intros s t Hs Ht;
      specialize (Hall s t Hs Ht); simpl in *.
    + by rewrite <- (Hbase s), <- (Hbase t).
    + by rewrite (Hbase s), (Hbase t).
  - apply Hid.
  - rewrite Hmap.
    + f_equal. by apply Hid.
    + apply Forall_fmap. eapply Forall_impl; [exact Hwf|].
      intros s [Hv Hp]. split; [|done]. simpl. apply Forall_forall.
      intros c [_ Hc]%list_elem_of_filter. by eapply Forall_forall in Hv.
Qed.

End Aggregates.

Lemma collection_with_no_gaps_witness :
  exists C',
    ProteinSequences.with_no_gaps (E := demo_env)
      [pseq "A-C" (Some "a"); pseq "AC-D" (Some "b")] = Ok C'
    /\ ProteinSequences.aligned C'
       = ProteinSequences.fixed_length (E := demo_env)
           [pseq "A-C" (Some "a"); pseq "AC-D" (Some "b")].
Proof.
  destruct (collection_with_no_gaps (E := demo_env)
              [pseq "A-C" (Some "a"); pseq "AC-D" (Some "b")])
    as (C' & H1 & _ & _ & _ & H2 & _).
  - repeat (constructor; [wf_by_eval|]). constructor.
  - by exists C'.
Defined.

(** * Batches outside the usual sizes *)

Lemma py_range_nonpositive (L : nat) (n : Z) :
  (n = 0 -> py_range 0 (Z.of_nat L) n = Raise (ValueError RangeStepZero))
  /\ (n < 0 -> py_range 0 (Z.of_nat L) n = Ok [])
  /\ (n <> 0 -> py_range 0 0 n = Ok [])
  /\ (1 <= Z.of_nat L <= n -> py_range 0 (Z.of_nat L) n = Ok [0]).
Proof.
  unfold py_range, range_length. split_and!.
  - by intros ->.
  - intros Hn. destruct (Z.eqb_spec n 0); [lia|].
    destruct (Z.ltb_spec 0 n); [lia|].
    destruct (Z.ltb_spec (Z.of_nat L) 0); [lia|]. done.
  - intros Hn. destruct (Z.eqb_spec n 0); [lia|].
    by destruct (0 <? n).
  - intros Hn. destruct (Z.eqb_spec n 0); [lia|].
    destruct (Z.ltb_spec 0 n); [|lia].
    destruct (Z.ltb_spec 0 (Z.of_nat L)); [|lia].
    rewrite Z.div_small by lia. done.
Qed.

Section BatchSizes.
Context `{E : Env}.

(** X13. What [iter_batches] does with a batch size the usual case excludes,
    in memory and on file alike: with size [0] the iteration raises the
    error of [range]; with a negative size it ends at once and yields no
    batch, so no member is seen. An empty collection yields no batch for
    any other size, and a size of at least the number of members yields
    the whole collection as the only batch. *)
Theorem iter_batches_other_sizes
    (C : ProteinSequences.t) (F : ProteinSequencesOnFile.t) (n : Z) :
  ProteinSequences.iter_batches C 0 = Raise (ValueError RangeStepZero)
  /\ ProteinSequencesOnFile.iter_batches F 0
     = Raise (ValueError RangeStepZero)
  /\ (n < 0 -> ProteinSequences.iter_batches C n = Ok []
               /\ ProteinSequencesOnFile.iter_batches F n = Ok [])
  /\ (n <> 0 -> ProteinSequences.iter_batches [] n = Ok [])
  /\ (1 <= Z.of_nat (length C) <= n ->
      ProteinSequences.iter_batches C n = Ok [C]).
Proof.
  unfold ProteinSequences.iter_batches, ProteinSequencesOnFile.iter_batches.
  split_and!.
  - by rewrite (proj1 (py_range_nonpositive (length C) 0)).
  - by rewrite (proj1 (py_range_nonpositive (ProteinSequencesOnFile.len F) 0)).
  - intros Hn. split.
    + by rewrite (proj1 (proj2 (py_range_nonpositive (length C) n))).
    + by rewrite (proj1 (proj2 (py_range_nonpositive
                                  (ProteinSequencesOnFile.len F) n))).
  - intros Hn. change (Z.of_nat (length (@nil ProteinSequence.t))) with 0.
    by rewrite (proj1 (proj2 (proj2 (py_range_nonpositive 0 n)))).
  - intros Hn.
    rewrite (proj2 (proj2 (proj2 (py_range_nonpositive (length C) n)))) by done.
    simpl. do 2 f_equal. unfold py_slice, adjust_index.
    destruct (Z.ltb_spec (0 + n) 0); [lia|]. simpl.
    replace (Z.to_nat (Z.min 0 (Z.of_nat (length C)))) with 0%nat by lia.
    rewrite drop_0. apply take_ge. lia.
Qed.

End BatchSizes.

(** * to_dict *)

Lemma key_dict_get_set {V} (k k' : key) (v : V) (d : list (key * V)) :
  key_dict_get k (key_dict_set k' v d)
  = if decide (k' = k) then Some v else key_dict_get k d.
Proof.
  induction d as [|[k0 v0] d IH]; simpl.
  - done.
  - destruct (decide (k0 = k')) as [->|Hne]; simpl.
    + by destruct (decide (k' = k)).
    + destruct (decide (k0 = k)) as [->|Hne'].
      * by rewrite decide_False by congruence.
      * exact IH.
Qed.

Lemma key_dict_keys_set {V} (k : key) (v : V) (d : list (key * V)) :
  map fst (key_dict_set k v d)
  = if decide (k ∈ map fst d) then map fst d else map fst d ++ [k].
Proof.
  induction d as [|[k0 v0] d IH]; simpl; [done|].
  destruct (decide (k0 = k)) as [->|Hne]; simpl.
  - rewrite decide_True by (by left). done.
  - rewrite IH. destruct (decide (k ∈ map fst d)) as [Hin|Hnin].
    + rewrite decide_True by (by right). done.
    + rewrite decide_False; [done|].
      intros [?|?]%elem_of_cons; [congruence | done].
Qed.

Lemma key_dict_set_fresh {V} (k : key) (v : V) (d : list (key * V)) :
  k ∉ map fst d -> key_dict_set k v d = d ++ [(k, v)].
Proof.
  induction d as [|[k0 v0] d IH]; simpl; [done|].
  intros [Hne Hk]%not_elem_of_cons.
  rewrite decide_False by congruence. by rewrite IH.
Qed.

Section KeyDictFill.
Context {A V : Type} (kf : A -> key) (vf : A -> V).

Lemma fill_get (k : key) (l : list A) (d : list (key * V)) :
  key_dict_get k (fold_left (fun d a => key_dict_set (kf a) (vf a) d) l d)
  = match last (filter (fun a => kf a = k) l) with
    | Some a => Some (vf a)
    | None => key_dict_get k d
    end.
Proof.
  revert d. induction l as [|a l IH]; intros d; [done|].
  cbn [fold_left]. rewrite IH, key_dict_get_set.
  destruct (decide (kf a = k)) as [Ha|Ha].
  - rewrite filter_cons_True by done.
    destruct (filter (fun a => kf a = k) l) as [|b r] eqn:Hf; [done|].
    rewrite last_cons_cons. destruct (last (b :: r)) eqn:Hl; [done|].
    by apply last_None in Hl.
  - by rewrite filter_cons_False by done.
Qed.

Lemma fill_keys (l : list A) (d : list (key * V)) :
  NoDup (map fst d) ->
  let d' := fold_left (fun d a => key_dict_set (kf a) (vf a) d) l d in
  NoDup (map fst d')
  /\ (forall k, k ∈ map fst d' <-> k ∈ map fst d \/ exists a, a ∈ l /\ kf a = k)
  /\ (length d' <= length d + length l)%nat.
Proof.
  revert d. induction l as [|a l IH]; intros d Hd; cbn zeta.
  - simpl. split_and!; [done| |lia]. intros k. split; [by left|].
    intros [?|(a & Ha & _)]; [done|]. by apply elem_of_nil in Ha.
  - cbn [fold_left].
    assert (Hd' : NoDup (map fst (key_dict_set (kf a) (vf a) d))).
    { rewrite key_dict_keys_set. destruct (decide (kf a ∈ map fst d)); [done|].
      apply NoDup_app. split_and!; [done| |apply NoDup_singleton].
      intros k Hk ->%list_elem_of_singleton. done. }
    destruct (IH _ Hd') as (Hnd & Hk & Hlen). split_and!.
    + exact Hnd.
    + intros k. rewrite Hk, key_dict_keys_set.
      destruct (decide (kf a ∈ map fst d)) as [Hin|Hnin].
      * split.
        -- intros [?|(b & Hb & Hkb)]; [by left|]. right. exists b.
           split; [by right | done].
        -- intros [?|(b & [->|Hb]%elem_of_cons & Hkb)]; [by left| |].
           ++ left. by rewrite <- Hkb.
           ++ right. by exists b.
      * rewrite elem_of_app, list_elem_of_singleton. split.
        -- intros [[?| ->]|(b & Hb & Hkb)]; [by left| |].
           ++ right. exists a. split; [by left | done].
           ++ right. exists b. split; [by right | done].
        -- intros [?|(b & [->|Hb]%elem_of_cons & Hkb)]; [by left; left| |].
           ++ left. by right.
           ++ right. by exists b.
    + assert (length (key_dict_set (kf a) (vf a) d) <= S (length d))%nat.
      { rewrite <- (length_map fst (key_dict_set _ _ _)), key_dict_keys_set.
        destruct (decide _); rewrite ?length_app, length_map; simpl; lia. }
      simpl. lia.
Qed.

Lemma fill_fresh (l : list A) (d : list (key * V)) :
  NoDup (map fst d ++ (kf <$> l)) ->
  fold_left (fun d a => key_dict_set (kf a) (vf a) d) l d
  = d ++ ((fun a => (kf a, vf a)) <$> l).
Proof.
  revert d. induction l as [|a l IH]; intros d Hd.
  - by rewrite app_nil_r.
  - cbn [fold_left]. rewrite fmap_cons in Hd.
    assert (Hfresh : kf a ∉ map fst d).
    { apply NoDup_app in Hd as (_ & Hd & _). intros Hin.
      apply (Hd _ Hin). by left. }
    rewrite key_dict_set_fresh by done. rewrite IH.
    + rewrite fmap_cons, <- app_assoc. done.
    + rewrite map_app. simpl. rewrite <- app_assoc. exact Hd.
Qed.

End KeyDictFill.

Section ToDict.
Context `{E : Env}.

(** X14. [to_dict] of an in-memory collection has one entry for each key
    that occurs, where the key of a member is its identifier or, when
    the identifier is missing or empty, its hash. A key gives the symbols
    of the last member that carries it, so the dictionary has at most as
    many entries as there are members; when all keys are different it
    lists the members one for one in their order. *)
Theorem to_dict_last_member_wins (C : ProteinSequences.t) :
  NoDup (map fst (ProteinSequences.to_dict C))
  /\ (forall k,
        key_dict_get k (ProteinSequences.to_dict C)
        = ProteinSequence.chars
            <$> last (filter (fun s => ProteinSequences.id_or_hash s = k) C))
  /\ (forall k, k ∈ map fst (ProteinSequences.to_dict C)
        <-> exists s, s ∈ C /\ ProteinSequences.id_or_hash s = k)
  /\ (length (ProteinSequences.to_dict C) <= length C)%nat
  /\ (NoDup (ProteinSequences.id_or_hash <$> C) ->
      ProteinSequences.to_dict C
      = (fun s => (ProteinSequences.id_or_hash s, ProteinSequence.chars s))
          <$> C)
  /\ (forall s, s ∈ C ->
        ProteinSequence._id s = None \/ ProteinSequence._id s = Some [] ->
        exists v, key_dict_get (KInt (ProteinSequence.hash s))
                               (ProteinSequences.to_dict C) = Some v).
Proof.
  unfold ProteinSequences.to_dict.
  destruct (fill_keys ProteinSequences.id_or_hash ProteinSequence.chars C [])
    as (Hnd & Hk & Hlen); [constructor|].
  assert (Hget : forall k,
            key_dict_get k
              (fold_left (fun d s => key_dict_set (ProteinSequences.id_or_hash s)
                                       (ProteinSequence.chars s) d) C [])
            = ProteinSequence.chars
                <$> last (filter (fun s => ProteinSequences.id_or_hash s = k) C)).
  { intros k.
    rewrite (fill_get ProteinSequences.id_or_hash ProteinSequence.chars).
    by destruct (last _). }
  split_and!.
  - exact Hnd.
  - exact Hget.
  - intros k. rewrite Hk. split; [|by right].
    intros [Hin|?]; [|done]. by apply elem_of_nil in Hin.
  - simpl in Hlen. lia.
  - intros HC.
    by rewrite (fill_fresh ProteinSequences.id_or_hash ProteinSequence.chars).
  - intros s Hs Hid. rewrite Hget.
    assert (Hkey : ProteinSequences.id_or_hash s = KInt (ProteinSequence.hash s)).
    { unfold ProteinSequences.id_or_hash. by destruct Hid as [-> | ->]. }
    assert (Hin : s ∈ filter (fun s' => ProteinSequences.id_or_hash s'
                                        = KInt (ProteinSequence.hash s)) C).
    { by apply list_elem_of_filter. }
    destruct (last _) as [s'|] eqn:Hl; [by eexists|].
    apply last_None in Hl. rewrite Hl in Hin. by apply elem_of_nil in Hin.
Qed.

End ToDict.

(** * What apply_alignment_mapping checks *)

Lemma mapR_Raise_inv {A B} (f : A -> result B) (l : list A) (e : exn) :
  mapR f l = Raise e -> exists x, x ∈ l /\ f x = Raise e.
Proof.
  induction l as [|a l IH]; simpl; [done|].
  destruct (f a) as [b|e'] eqn:Ha; simpl.
  - destruct (mapR f l) as [bs|e''] eqn:Hl; simpl; [done|].
    intros [= ->]. destruct (IH eq_refl) as (x & Hx & Hfx).
    exists x. split; [by right | done].
  - intros [= ->]. exists a. split; [by left | done].
Qed.






Section MappingChecks.
Context `{E : Env}.

Lemma new_Raise_inv (seq : str) (id structure : option str) (e : exn) :
  ProteinSequence.new seq id structure = Raise e ->
  (exists c, e = ValueError (InvalidCharacter c))
  \/ e = ValueError StructureDoesNotExist.
Proof.
  unfold ProteinSequence.new.
  destruct (mapR _ seq) as [cs|e'] eqn:Hcs; simpl.
  - destruct structure as [p|]; [|done].
    unfold ProteinSequence.set_structure.
    destruct (path_exists p); [done|]. intros [= <-]. by right.
  - intros [= ->]. apply mapR_Raise_inv in Hcs as (c & _ & Hc).
    unfold ProteinCharacter.new in Hc.
    destruct (ProteinCharacter.valid_symbol c); [done|].
    injection Hc as <-. left. by exists c.
Qed.






End MappingChecks.

(** * The index of an arbitrary file *)



Lemma elem_of_rev {A} (l : list A) (x : A) : x ∈ rev l <-> x ∈ l.
Proof. rewrite !list_elem_of_In. symmetry. apply in_rev. Qed.



Lemma header_rest (line : str) :
  is_header line = true -> py_slice line (Some 1) None = drop 1 line.
Proof.
  intros H. destruct line as [|c line]; [done|].
  apply (py_slice_suffix (c :: line) 1). simpl. lia.
Qed.

Lemma py_index_first {A} (l : list A) :
  py_index l 0 = match l with
                 | [] => Raise (IndexError ListIndex)
                 | x :: _ => Ok x
                 end.
Proof.
  destruct l as [|x l]; [done|].
  change 0 with (Z.of_nat 0). by apply py_index_lookup.
Qed.

Lemma concat_file_lines (f : str) : concat (file_lines f) = f.
Proof.
  induction f as [|c f IH]; [done|]. simpl.
  destruct (decide (c = newline)).
  - simpl. by rewrite IH.
  - destruct (file_lines f) as [|l ls]; simpl in *; by rewrite <- IH.
Qed.

Section BlankHeaders.
Context `{E : Env}.

Import ProteinSequencesOnFile.




End BlankHeaders.

(** ** What every entry of an index satisfies *)

Lemma split_from_words (cur s : str) :
  no_space cur ->
  Forall (fun w => w <> [] /\ no_space w) (split_from cur s).
Proof.
  revert cur. induction s as [|c s IH]; intros cur Hcur; simpl.
  - destruct cur; [constructor|]. constructor; [done | constructor].
  - destruct (isspace c) eqn:Hc.
    + destruct cur as [|a cur]; [apply IH; constructor|].
      constructor; [done|]. apply IH. constructor.
    + apply IH. apply Forall_app. split; [done|].
      constructor; [done | constructor].
Qed.

Lemma length_lstrip (s : str) : (length (lstrip s) <= length s)%nat.
Proof.
  induction s as [|c s IH]; simpl; [done|].
  destruct (isspace c); simpl; lia.
Qed.

Lemma length_py_strip (s : str) : (length (py_strip s) <= length s)%nat.
Proof.
  unfold py_strip. rewrite length_rev.
  etransitivity; [apply length_lstrip|]. rewrite length_rev.
  apply length_lstrip.
Qed.

Lemma dash_count (s : str) :
  (length (filter (fun c => c ≠ "-"%char) s) <= length s)%nat
  /\ ("-"%char ∈ s
      <-> (length (filter (fun c => c ≠ "-"%char) s) < length s)%nat).
Proof.
  induction s as [|c s [IH1 IH2]]; simpl.
  - split; [lia|]. split; [by intros ?%elem_of_nil | lia].
  - destruct (decide (c = "-"%char)) as [->|Hne].
    + rewrite filter_cons_False by (by intros ?). simpl.
      split; [lia|]. split; [lia | by left].
    + rewrite filter_cons_True by done. simpl. split; [lia|].
      rewrite elem_of_cons, IH2. split; [intros [?|?]; [congruence|lia]|].
      intros ?. right. lia.
Qed.

Lemma dict_set_elem {V} (k : str) (v : V) (d : list (str * V)) (x : str * V) :
  x ∈ dict_set k v d -> x = (k, v) \/ x ∈ d.
Proof.
  induction d as [|[k0 v0] d IH]; simpl.
  - intros ->%list_elem_of_singleton. by left.
  - destruct (decide (k0 = k)).
    + intros [->|H]%elem_of_cons; [by left|]. right. by right.
    + intros [->|H]%elem_of_cons; [right; by left|].
      destruct (IH H) as [?|?]; [by left|]. right. by right.
Qed.

Lemma length_dict_set {V} (k : str) (v : V) (d : list (str * V)) :
  length (dict_set k v d)
  = if decide (k ∈ dict_keys d) then length d else S (length d).
Proof.
  rewrite <- (length_map fst (dict_set k v d)).
  change (map fst (dict_set k v d)) with (dict_keys (dict_set k v d)).
  rewrite dict_keys_set. unfold dict_keys.
  destruct (decide _); rewrite ?length_app, length_map; simpl; lia.
Qed.

Lemma dict_keys_set_NoDup {V} (k : str) (v : V) (d : list (str * V)) :
  NoDup (dict_keys d) -> NoDup (dict_keys (dict_set k v d)).
Proof.
  intros Hd. rewrite dict_keys_set. destruct (decide _); [done|].
  apply NoDup_app. split_and!; [done| |apply NoDup_singleton].
  by intros x Hx ->%list_elem_of_singleton.
Qed.

Section AnyFile.
Context `{E : Env}.

Import ProteinSequencesOnFile.

Lemma flush_ok (n : nat) (st : scan) :
  scan_ok n st -> (file_pos st <= n)%nat ->
  NoDup (dict_keys (flush st)) /\ Forall (entry_ok n) (flush st)
  /\ (flush st = [] <-> current_id st = None).
Proof.
  intros (Hnd & Hall & Hcur & Hle & Hg) Hpos. unfold flush.
  destruct (current_id st) as [id|].
  - destruct Hcur as (Hid & p & Hp & Hpl). split_and!.
    + by apply dict_keys_set_NoDup.
    + apply Forall_forall. intros x [->|Hx]%dict_set_elem.
      * split_and!; simpl; [done| exists p; split; [done|lia] | done | done].
      * by eapply Forall_forall in Hall.
    + split; [|done]. by destruct (index st) as [|[??]?]; simpl;
        [|destruct (decide _)].
  - split_and!; [done..|]. by split.
Qed.

Lemma scan_line_ok (n : nat) (st st' : scan) (line : str) :
  scan_ok n st -> (file_pos st + length line <= n)%nat ->
  scan_line st line = Ok st' ->
  scan_ok n st'
  /\ file_pos st' = (file_pos st + length line)%nat
  /\ (current_id st' = None <-> current_id st = None /\ is_header line = false)
  /\ (length (flush st')
      <= length (flush st) + (if is_header line then 1 else 0))%nat.
Proof.
  intros Hok Hpos. destruct (flush_ok n st Hok) as (Hfnd & Hfall & Hfnil); [lia|].
  unfold scan_line. destruct (is_header line) eqn:Hh.
  - rewrite header_rest by done. rewrite py_index_first.
    destruct (py_split (py_strip (drop 1 line))) as [|id ws] eqn:Hs; [done|].
    simpl. intros [= <-].
    assert (Hid : plain_id id).
    { pose proof (split_from_words [] (py_strip (drop 1 line))) as Hw.
      unfold py_split in Hs. rewrite Hs in Hw.
      apply Forall_cons in Hw as [Hw _]; [done | constructor]. }
    split_and!.
    + split_and!; simpl; [done | done | | lia | ].
      * split; [done|]. eexists. split; [done|]. lia.
      * split; [done | lia].
    + done.
    + simpl. split; [done | by intros [_ ?]].
    + unfold flush at 1. simpl. rewrite length_dict_set.
      destruct (decide _); lia.
  - simpl. intros [= <-].
    destruct Hok as (Hnd & Hall & Hcur & Hle & Hg).
    pose proof (length_py_strip line) as Hstrip.
    pose proof (dash_count (py_strip line)) as [Hd1 Hd2].
    split_and!.
    + split_and!; simpl; [done | done | | lia | ].
      * destruct (current_id st) as [id|]; [|done].
        destruct Hcur as (Hid & p & Hp & Hpl). split; [done|].
        exists p. split; [done|]. lia.
      * rewrite orb_true_iff, bool_decide_eq_true, Hg, Hd2. lia.
    + done.
    + simpl. split; [by intros ? | by intros [? _]].
    + unfold flush. simpl. destruct (current_id st) as [id|]; [|lia].
      rewrite !length_dict_set. destruct (decide _); lia.
Qed.

Lemma scan_lines_ok (n : nat) (lines : list str) (st st' : scan) :
  scan_ok n st -> (file_pos st + length (concat lines) <= n)%nat ->
  foldR scan_line lines st = Ok st' ->
  scan_ok n st'
  /\ (file_pos st' <= n)%nat
  /\ (current_id st' = None
      <-> current_id st = None /\ Forall (fun l => is_header l = false) lines)
  /\ (length (flush st')
      <= length (flush st)
         + length (filter (fun l => is_header l = true) lines))%nat.
Proof.
  revert st. induction lines as [|l lines IH]; intros st Hok Hpos; simpl.
  - intros [= <-]. simpl in Hpos. split_and!; [done | lia | | lia].
    split; [by split | by intros [? _]].
  - intros (st1 & Hl & Hrest)%bind_Ok. simpl in Hpos.
    rewrite length_app in Hpos.
    destruct (scan_line_ok n st st1 l Hok) as (Hok1 & Hp1 & Hc1 & Hn1);
      [lia | done |].
    destruct (IH st1 Hok1) as (Hok' & Hp' & Hc' & Hn'); [lia | done |].
    split_and!; [done | done | |].
    + rewrite Hc', Hc1, Forall_cons. tauto.
    + destruct (is_header l) eqn:Hh.
      * rewrite filter_cons_True by done. simpl. lia.
      * rewrite filter_cons_False by (by rewrite Hh). lia.
Qed.

(** X17. The index built from any file, when it is built: its identifiers
    are pairwise different and each is one word without whitespace; each
    entry has a start offset from which [length] symbols lie inside the
    file, a [base_length] of at most [length], and the gap flag set exactly
    when [base_length] is below [length]. There are at most as many
    entries as header lines, and none exactly when the file has no header
    line. *)
Theorem index_of_any_file (f : str) (idx : list (str * info)) :
  _create_index f = Ok idx ->
  NoDup (dict_keys idx)
  /\ Forall (entry_ok (length f)) idx
  /\ (length idx
      <= length (filter (fun l => is_header l = true) (file_lines f)))%nat
  /\ (idx = [] <-> Forall (fun l => is_header l = false) (file_lines f)).
Proof.
  unfold _create_index. intros (st & Hst & [= <-])%bind_Ok.
  assert (H0 : scan_ok (length f) (mkScan None None 0%nat false 0%nat 0%nat [])).
  { split_and!; simpl; [constructor | constructor | done | lia | ].
    split; [done | lia]. }
  destruct (scan_lines_ok (length f) (file_lines f) _ st H0)
    as (Hok & Hpos & Hcur & Hlen).
  { simpl. by rewrite concat_file_lines. }
  { done. }
  destruct (flush_ok _ st Hok Hpos) as (Hnd & Hall & Hnil).
  split_and!; [done | done | simpl in Hlen; lia |].
  rewrite Hnil, Hcur. simpl. split; [by intros [_ ?] | by split].
Qed.

End AnyFile.

Lemma index_of_any_file_witness :
  NoDup (dict_keys
           [(lit "a", ProteinSequencesOnFile.mkInfo (Some 3%nat) 3 true 2);
            (lit "b", ProteinSequencesOnFile.mkInfo (Some 10%nat) 2 false 2)])
  /\ Forall (entry_ok (length (text [">a"; "AC-"; ">b"; "DE"])))
       [(lit "a", ProteinSequencesOnFile.mkInfo (Some 3%nat) 3 true 2);
        (lit "b", ProteinSequencesOnFile.mkInfo (Some 10%nat) 2 false 2)].
Proof.
  refine (let H := index_of_any_file (text [">a"; "AC-"; ">b"; "DE"]) _ _ in
          conj (proj1 H) (proj1 (proj2 H))).
  vm_compute. reflexivity.
Defined.

(** * The file-backed collection built from any file *)

Lemma dict_get_None {V} (k : str) (d : list (str * V)) :
  dict_get k d = None <-> k ∉ dict_keys d.
Proof.
  induction d as [|[k0 v0] d IH]; simpl.
  - split; [intros _ ?%elem_of_nil; done | done].
  - rewrite not_elem_of_cons. destruct (decide (k0 = k)) as [->|Hne].
    + split; [done | by intros [? _]].
    + rewrite IH. split; [by split | by intros [_ ?]].
Qed.

Lemma dict_get_elem {V} (k : str) (v : V) (d : list (str * V)) :
  dict_get k d = Some v -> (k, v) ∈ d.
Proof.
  induction d as [|[k0 v0] d IH]; simpl; [done|].
  destruct (decide (k0 = k)) as [->|Hne].
  - intros [= ->]. by left.
  - intros H. right. by apply IH.
Qed.

Lemma join_py_split (s : str) :
  no_space (join (py_split s))
  /\ (length (join (py_split s)) <= length s)%nat.
Proof.
  unfold py_split. rewrite join_split_from. simpl. split.
  - apply Forall_forall. by intros c [Hc _]%list_elem_of_filter.
  - apply length_filter.
Qed.

Section BuiltFromFile.
Context `{E : Env}.

Import ProteinSequencesOnFile.

Lemma new_inv_index (f : str) (F : t) :
  new f = Ok F ->
  F = _compute_global_properties f (_index F)
  /\ NoDup (dict_keys (_index F))
  /\ Forall (entry_ok (length f)) (_index F).
Proof.
  unfold new. intros (idx & Hidx & [= <-])%bind_Ok. simpl.
  split; [done|]. unfold _create_index in Hidx.
  apply bind_Ok in Hidx as (st & Hst & [= <-]).
  assert (H0 : scan_ok (length f) (mkScan None None 0%nat false 0%nat 0%nat [])).
  { split_and!; simpl; [constructor | constructor | done | lia | ].
    split; [done | lia]. }
  destruct (scan_lines_ok (length f) (file_lines f) _ st H0)
    as (Hok & Hpos & _).
  { simpl. by rewrite concat_file_lines. }
  { done. }
  by destruct (flush_ok _ st Hok Hpos) as (Hnd & Hall & _).
Qed.

(** X18. The aggregates of a file-backed collection are those of its index:
    it is aligned exactly when the index has an entry and all entries
    have one [length], of fixed length likewise for [base_length]; its
    width is [w] exactly when there is an entry and every entry has
    [length] [w], and is [None] exactly when it is not aligned; it has
    gaps exactly when some entry has a [base_length] below its [length];
    without gaps, being of fixed length and being aligned agree. *)
Theorem on_file_aggregates (f : str) (F : t) :
  new f = Ok F ->
  file F = f
  /\ (aligned F = true
      <-> _index F <> []
          /\ forall a b, a ∈ dict_values (_index F) ->
               b ∈ dict_values (_index F) -> length_ a = length_ b)
  /\ (fixed_length F = true
      <-> _index F <> []
          /\ forall a b, a ∈ dict_values (_index F) ->
               b ∈ dict_values (_index F) -> base_length_ a = base_length_ b)
  /\ (forall w, width F = Some w
        <-> _index F <> []
            /\ forall a, a ∈ dict_values (_index F) -> length_ a = w)
  /\ (width F = None <-> aligned F = false)
  /\ (has_gaps F = true
      <-> exists a, a ∈ dict_values (_index F)
                    /\ (base_length_ a < length_ a)%nat)
  /\ (has_gaps F = false -> fixed_length F = aligned F).
Proof.
  intros (HF & Hnd & Hall)%new_inv_index.
  set (idx := _index F) in *. set (vals := dict_values idx).
  assert (Hne : idx <> [] <-> vals <> []).
  { subst vals. unfold dict_values. by destruct idx. }
  assert (Ha : aligned F = true
               <-> idx <> [] /\ forall a b, a ∈ vals -> b ∈ vals ->
                                   length_ a = length_ b).
  { rewrite HF. unfold aligned, _compute_global_properties. simpl.
    rewrite bool_decide_eq_true, one_value_iff. fold idx vals. by rewrite Hne. }
  assert (Hf : fixed_length F = true
               <-> idx <> [] /\ forall a b, a ∈ vals -> b ∈ vals ->
                                   base_length_ a = base_length_ b).
  { rewrite HF. unfold fixed_length, _compute_global_properties. simpl.
    rewrite bool_decide_eq_true, one_value_iff. fold idx vals. by rewrite Hne. }
  assert (Hw : width F = if aligned F
                         then head (elements (list_to_set (length_ <$> vals)
                                              : gset nat))
                         else None).
  { rewrite HF at 1 2. done. }
  assert (Hentry : forall a, a ∈ vals ->
            (base_length_ a <= length_ a)%nat
            /\ (has_gaps_ a = true <-> (base_length_ a < length_ a)%nat)).
  { intros a ([id a'] & -> & Hin)%list_elem_of_fmap.
    rewrite Forall_forall in Hall. by destruct (Hall _ Hin) as (_ & _ & ? & ?). }
  assert (Hg : has_gaps F = true
               <-> exists a, a ∈ vals /\ (base_length_ a < length_ a)%nat).
  { rewrite HF. unfold has_gaps, _compute_global_properties. simpl.
    fold idx vals. rewrite existsb_elem_of. split.
    - intros (a & Hin & Hgap). exists a. split; [done|].
      by apply (Hentry a Hin).
    - intros (a & Hin & Hlt). exists a. split; [done|].
      by apply (Hentry a Hin). }
  split_and!.
  - by rewrite HF.
  - exact Ha.
  - exact Hf.
  - intros w. rewrite Hw. destruct (aligned F) eqn:Hal.
    + destruct (proj1 Ha eq_refl) as [Hidx Heq].
      destruct vals as [|a0 vs] eqn:Hvals; [by apply Hne in Hidx|].
      rewrite (elements_size_one _ (length_ a0)).
      * simpl. split.
        -- intros [= <-]. split; [done|]. intros a Hin.
           apply Heq; [done | by left].
        -- intros [_ Hw']. f_equal. apply Hw'. by left.
      * apply one_value_iff. split; [done|]. exact Heq.
      * apply elem_of_list_to_set, list_elem_of_fmap. exists a0.
        split; [done | by left].
    + split; [done|]. intros [Hidx Hw'].
      assert (false = true) as Habs; [|done]. apply Ha. split; [done|].
      intros a b Hina Hinb. by rewrite (Hw' a), (Hw' b).
  - rewrite Hw. destruct (aligned F) eqn:Hal; [|done].
    split; [|done]. intros Hnone. exfalso.
    destruct (proj1 Ha eq_refl) as [Hidx Heq].
    destruct vals as [|a0 vs] eqn:Hvals; [by apply Hne in Hidx|].
    rewrite (elements_size_one _ (length_ a0)) in Hnone; [done| |].
    + apply one_value_iff. split; [done|]. exact Heq.
    + apply elem_of_list_to_set, list_elem_of_fmap. exists a0.
      split; [done | by left].
  - exact Hg.
  - intros Hng. apply eq_true_iff_eq. rewrite Ha, Hf.
    assert (Hb : forall a, a ∈ vals -> base_length_ a = length_ a).
    { intros a Hin. destruct (Hentry a Hin) as [Hle _].
      destruct (decide (base_length_ a < length_ a)%nat) as [Hlt|]; [|lia].
      assert (has_gaps F = true) as Habs by (apply Hg; by exists a).
      congruence. }
    split; intros [Hidx Heq]; (split; [done|]); intros a b Hina Hinb.
    + rewrite <- (Hb a), <- (Hb b) by done. by apply Heq.
    + rewrite (Hb a), (Hb b) by done. by apply Heq.
Qed.

(** X19. Reading a member of a file-backed collection built from any
    file of ASCII text with ["\n"] line ends.
    A position outside the index raises the range error; a position
    inside it reads the member of the identifier at that place; an
    identifier raises the key error exactly when the index lacks it. A
    member that is returned carries the identifier asked for and no
    structure, its symbols are valid and free of whitespace, and there
    are at most as many as the entry's [length]. Nothing else is raised
    but the error for an invalid symbol. *)
Theorem on_file_getitem (f : str) (F : t) :
  plain_text f -> new f = Ok F ->
  (forall i, ~ (0 <= i < Z.of_nat (len F)) ->
     getitem F (inl i) = Raise (IndexError IndexOutOfRange))
  /\ (forall i, 0 <= i < Z.of_nat (len F) ->
        exists id, dict_keys (_index F) !! Z.to_nat i = Some id
                   /\ getitem F (inl i) = getitem F (inr id))
  /\ (forall id, id ∉ dict_keys (_index F)
        <-> getitem F (inr id) = Raise (KeyError IdNotFound))
  /\ (forall id s, getitem F (inr id) = Ok s ->
        ProteinSequence._id s = Some id
        /\ ProteinSequence._structure s = None
        /\ wf s
        /\ no_space (ProteinSequence.chars s)
        /\ exists inf, dict_get id (_index F) = Some inf
                       /\ (ProteinSequence.len s <= length_ inf)%nat)
  /\ (forall ix e, getitem F ix = Raise e ->
        e = IndexError IndexOutOfRange \/ e = KeyError IdNotFound
        \/ exists c, e = ValueError (InvalidCharacter c)).
Proof.
  intros _ (HF & Hnd & Hall)%new_inv_index.
  assert (Hstart : forall id inf, dict_get id (_index F) = Some inf ->
            exists p, start inf = Some p).
  { intros id inf Hin%dict_get_elem. rewrite Forall_forall in Hall.
    destruct (Hall _ Hin) as (_ & (p & Hp & _) & _). by exists p. }
  assert (Hkey : forall id,
            getitem F (inr id)
            = match dict_get id (_index F) with
              | None => Raise (KeyError IdNotFound)
              | Some inf =>
                  ProteinSequence.new
                    (join (py_split (read_at (file F)
                                       (default 0%nat (start inf))
                                       (length_ inf))))
                    (Some id) None
              end).
  { intros id. unfold getitem. simpl.
    destruct (dict_get id (_index F)) as [inf|] eqn:Hget; [|done].
    by destruct (Hstart id inf Hget) as [p ->]. }
  assert (Hraise : forall id e, getitem F (inr id) = Raise e ->
            e = KeyError IdNotFound
            \/ exists c, e = ValueError (InvalidCharacter c)).
  { intros id e. rewrite Hkey.
    destruct (dict_get id (_index F)); [|intros [= <-]; by left].
    intros He. right. unfold ProteinSequence.new in He.
    destruct (mapR _ _) as [cs|e'] eqn:Hcs; [done|]. simpl in He.
    injection He as ->. apply mapR_Raise_inv in Hcs as (c & _ & Hc).
    unfold ProteinCharacter.new in Hc.
    destruct (ProteinCharacter.valid_symbol c); [done|].
    injection Hc as <-. by exists c. }
  assert (Hpos : forall i, 0 <= i < Z.of_nat (len F) ->
            exists id, dict_keys (_index F) !! Z.to_nat i = Some id
                       /\ getitem F (inl i) = getitem F (inr id)).
  { intros i Hi.
    destruct (lookup_lt_is_Some_2 (dict_keys (_index F)) (Z.to_nat i))
      as [id Hid].
    { unfold dict_keys, len in *. rewrite length_map. lia. }
    exists id. split; [done|]. rewrite <- (Z2Nat.id i) at 1 by lia.
    by apply getitem_by_position. }
  assert (Hout : forall i, ~ (0 <= i < Z.of_nat (len F)) ->
            getitem F (inl i) = Raise (IndexError IndexOutOfRange)).
  { intros i Hi. unfold getitem.
    destruct (Z.ltb_spec i 0); [done|].
    destruct (Z.geb_spec i (Z.of_nat (len F))); [done | lia]. }
  split_and!.
  - exact Hout.
  - exact Hpos.
  - intros id. rewrite Hkey, <- dict_get_None.
    destruct (dict_get id (_index F)) as [inf|]; [|done]. split; [done|].
    intros [(c & [=])|[=]]%new_Raise_inv.
  - intros id s. rewrite Hkey.
    destruct (dict_get id (_index F)) as [inf|]; [|done].
    intros [-> Hwf]%new_inv. simpl. split_and!; [done | done | done | |].
    + apply join_py_split.
    + exists inf. split; [done|]. unfold ProteinSequence.len. simpl.
      etransitivity; [apply join_py_split|]. unfold read_at.
      rewrite length_take. lia.
  - intros [i|id] e He.
    + destruct (decide (0 <= i < Z.of_nat (len F))) as [Hi|Hi].
      * destruct (Hpos i Hi) as (id & _ & Heq). rewrite Heq in He.
        right. by apply Hraise in He.
      * rewrite (Hout i Hi) in He. injection He as <-. by left.
    + right. by apply Hraise in He.
Qed.

(** X20. [to_dict] of a file-backed collection built from any file reads the
    member of every identifier of the index, in the order of the index,
    and pairs the identifier with the member's symbols; it raises what
    the first read that fails raises. *)
Theorem on_file_to_dict (f : str) (F : t) :
  new f = Ok F ->
  to_dict F
  = (ss ← mapR (fun id => getitem F (inr id)) (dict_keys (_index F));
     Ok (zip (dict_keys (_index F)) (ProteinSequence.chars <$> ss)))
  /\ (forall d, to_dict F = Ok d ->
        dict_keys d = dict_keys (_index F) /\ length d = len F)
  /\ (forall e, to_dict F = Raise e ->
        exists id, id ∈ dict_keys (_index F)
                   /\ getitem F (inr id) = Raise e).
Proof.
  intros (HF & Hnd & Hall)%new_inv_index.
  assert (Hgen : forall ks (d : list (str * str)),
            NoDup (dict_keys d ++ ks) ->
            foldR (fun d id => s ← getitem F (inr id);
                               Ok (dict_set id (ProteinSequence.chars s) d))
                  ks d
            = (ss ← mapR (fun id => getitem F (inr id)) ks;
               Ok (d ++ zip ks (ProteinSequence.chars <$> ss)))).
  { induction ks as [|k ks IH]; intros d Hd; simpl.
    - by rewrite app_nil_r.
    - destruct (getitem F (inr k)) as [s|e]; simpl; [|done].
      assert (Hfresh : k ∉ dict_keys d).
      { apply NoDup_app in Hd as (_ & Hd & _). intros Hin.
        apply (Hd _ Hin). by left. }
      rewrite dict_set_fresh by done. rewrite IH.
      + destruct (mapR _ ks) as [ss|e]; simpl; [|done].
        by rewrite <- app_assoc.
      + unfold dict_keys. rewrite map_app. simpl.
        rewrite <- app_assoc. exact Hd. }
  assert (Heq : to_dict F
                = (ss ← mapR (fun id => getitem F (inr id))
                             (dict_keys (_index F));
                   Ok (zip (dict_keys (_index F))
                           (ProteinSequence.chars <$> ss)))).
  { unfold to_dict. by rewrite Hgen. }
  split_and!.
  - exact Heq.
  - intros d. rewrite Heq. intros (ss & Hss & [= <-])%bind_Ok.
    apply mapR_length in Hss.
    assert (Hk : dict_keys (zip (dict_keys (_index F))
                                (ProteinSequence.chars <$> ss))
                 = dict_keys (_index F)).
    { unfold dict_keys at 1. change (map fst ?l) with (fst <$> l).
      apply fst_zip. rewrite length_fmap. lia. }
    split; [done|]. unfold len.
    rewrite length_zip_with, length_fmap, Hss.
    unfold dict_keys. rewrite length_map. lia.
  - intros e. rewrite Heq.
    destruct (mapR _ _) as [ss|e'] eqn:Hss; simpl; [done|].
    intros [= <-]. by apply mapR_Raise_inv in Hss.
Qed.

End BuiltFromFile.

Lemma on_file_aggregates_witness :
  exists F,
    ProteinSequencesOnFile.new (text [">a"; "AC-"; ">b"; "DE"]) = Ok F
    /\ (ProteinSequencesOnFile.has_gaps F = true
        <-> exists a, a ∈ dict_values (ProteinSequencesOnFile._index F)
                      /\ (ProteinSequencesOnFile.base_length_ a
                          < ProteinSequencesOnFile.length_ a)%nat).
Proof.
  eexists. split.
  - vm_compute. reflexivity.
  - refine (proj1 (proj2 (proj2 (proj2 (proj2 (proj2
              (on_file_aggregates (text [">a"; "AC-"; ">b"; "DE"]) _ _))))))).
    vm_compute. reflexivity.
Defined.

Lemma on_file_getitem_witness :
  exists F,
    ProteinSequencesOnFile.new (text [">a"; "AC-"; ">b"; "DE"]) = Ok F
    /\ forall i, ~ (0 <= i < Z.of_nat (ProteinSequencesOnFile.len F)) ->
         ProteinSequencesOnFile.getitem (E := demo_env) F (inl i)
         = Raise (IndexError IndexOutOfRange).
Proof.
  eexists. split.
  - vm_compute. reflexivity.
  - refine (proj1 (on_file_getitem (E := demo_env)
                     (text [">a"; "AC-"; ">b"; "DE"]) _ _ _));
      vm_compute; reflexivity.
Defined.

Lemma on_file_to_dict_witness :
  exists F,
    ProteinSequencesOnFile.new (text [">a"; "AC-"; ">b"; "DE"]) = Ok F
    /\ ProteinSequencesOnFile.to_dict (E := demo_env) F
       = (ss ← mapR (fun id => ProteinSequencesOnFile.getitem
                                 (E := demo_env) F (inr id))
                    (dict_keys (ProteinSequencesOnFile._index F));
          Ok (zip (dict_keys (ProteinSequencesOnFile._index F))
                  (ProteinSequence.chars <$> ss))).
Proof.
  eexists. split.
  - vm_compute. reflexivity.
  - refine (proj1 (on_file_to_dict (E := demo_env)
                     (text [">a"; "AC-"; ">b"; "DE"]) _ _)).
    vm_compute. reflexivity.
Defined.

(** * mutated_positions of the file-backed collection *)

Section OnFileColumns.
Context `{E : Env}.

Import ProteinSequencesOnFile.

Lemma add_symbols_from (cs : str) (a : nat) (ps : list (gset ascii)) :
  (a + length cs <= length ps)%nat ->
  exists ps',
    foldR (fun positions '(i, char) =>
             chars ← py_index positions (Z.of_nat i);
             py_setitem positions (Some (Z.of_nat i)) (chars ∪ {[char]}))
          (zip (seq a (length cs)) cs) ps = Ok ps'
    /\ length ps' = length ps
    /\ forall i X, ps !! i = Some X ->
         ps' !! i = Some (match cs !! (i - a)%nat with
                          | Some c => if decide (a <= i)%nat then X ∪ {[c]}
                                      else X
                          | None => X
                          end).
Proof.
  revert a ps. induction cs as [|c cs IH]; intros a ps Hlen; simpl in *.
  - exists ps. split_and!; [done | done |]. intros i X HX.
    rewrite HX. by destruct (i - a)%nat.
  - destruct (lookup_lt_is_Some_2 ps a) as [Y HY]; [lia|].
    rewrite (py_index_lookup _ _ _ HY). simpl.
    rewrite py_setitem_lookup by lia. simpl.
    destruct (IH (S a) (<[a := Y ∪ {[c]}]> ps)) as (ps' & Hps' & Hl & Hlook).
    { rewrite length_insert. lia. }
    exists ps'. rewrite length_insert in Hl. split_and!; [done | done |].
    intros i X HX. destruct (decide (i = a)) as [->|Hne].
    + rewrite (Hlook a (Y ∪ {[c]})).
      * replace (a - S a)%nat with 0%nat by lia.
        rewrite Nat.sub_diag. simpl.
        rewrite decide_True by lia. simplify_eq.
        destruct (cs !! 0%nat); [|done]. by rewrite decide_False by lia.
      * apply list_lookup_insert_eq. lia.
    + rewrite (Hlook i X) by (by rewrite list_lookup_insert_ne).
      destruct (decide (a <= i)%nat) as [Hai|Hai].
      * replace (i - a)%nat with (S (i - S a)) by lia. simpl.
        destruct (cs !! (i - S a)%nat); [|done].
        by rewrite decide_True by lia.
      * replace (i - S a)%nat with 0%nat by lia.
        replace (i - a)%nat with 0%nat by lia. simpl.
        destruct (cs !! 0%nat); [|done]. by rewrite decide_False by lia.
Qed.

Lemma add_symbols_too_long (cs : str) (a : nat) (ps : list (gset ascii)) :
  (a <= length ps < a + length cs)%nat ->
  foldR (fun positions '(i, char) =>
           chars ← py_index positions (Z.of_nat i);
           py_setitem positions (Some (Z.of_nat i)) (chars ∪ {[char]}))
        (zip (seq a (length cs)) cs) ps = Raise (IndexError ListIndex).
Proof.
  revert a ps. induction cs as [|c cs IH]; intros a ps Hlen; simpl in *; [lia|].
  destruct (decide (a = length ps)) as [->|Hne].
  - unfold py_index, norm_index.
    destruct (Z.ltb_spec (Z.of_nat (length ps)) 0); [lia|].
    destruct (Z.ltb_spec (Z.of_nat (length ps)) 0); [lia|].
    destruct (Z.leb_spec (Z.of_nat (length ps)) (Z.of_nat (length ps)));
      [done | lia].
  - destruct (lookup_lt_is_Some_2 ps a) as [Y HY]; [lia|].
    rewrite (py_index_lookup _ _ _ HY). simpl.
    rewrite py_setitem_lookup by lia. simpl.
    apply IH. rewrite length_insert. lia.
Qed.

Lemma add_symbols_columns (cs : str) (ps : list (gset ascii)) :
  ((length cs <= length ps)%nat ->
   exists ps',
     add_symbols ps cs = Ok ps'
     /\ length ps' = length ps
     /\ forall i X, ps !! i = Some X ->
          ps' !! i = Some (X ∪ list_to_set (option_list (cs !! i))))
  /\ ((length ps < length cs)%nat ->
      add_symbols ps cs = Raise (IndexError ListIndex)).
Proof.
  unfold add_symbols, enumerate. split.
  - intros Hlen. destruct (add_symbols_from cs 0 ps) as (ps' & H1 & H2 & H3);
      [lia|].
    exists ps'. split_and!; [done | done |]. intros i X HX.
    rewrite (H3 i X HX), Nat.sub_0_r.
    destruct (cs !! i).
    + destruct (decide (0 <= i)%nat); [|lia]. simpl.
      by rewrite (right_id_L ∅ (∪)).
    + simpl. by rewrite (right_id_L ∅ (∪)).
  - intros Hlen. apply add_symbols_too_long. lia.
Qed.

Lemma collect_columns (recs : list (str * str)) (C : ProteinSequences.t)
    (ps : list (gset ascii)) :
  Forall2 (fun '(id, seq) s => ProteinSequence.new seq (Some id) None = Ok s)
          recs C ->
  (forall s, s ∈ C -> (ProteinSequence.len s <= length ps)%nat) ->
  exists ps',
    foldR (fun positions '(id, seq) =>
             s ← ProteinSequence.new seq (Some id) None;
             add_symbols positions (ProteinSequence.chars s))
          recs ps = Ok ps'
    /\ length ps' = length ps
    /\ forall i X, ps !! i = Some X ->
         ps' !! i
         = Some (X ∪ list_to_set
                       (omap (fun s => ProteinSequence.chars s !! i) C)).
Proof.
  intros Hall. revert ps.
  induction Hall as [|[id seq] s recs C Hs Hall IH]; intros ps Hlen.
  - exists ps. split_and!; [done | done |]. intros i X HX. simpl.
    by rewrite (right_id_L ∅ (∪)).
  - simpl. rewrite Hs. simpl.
    destruct (proj1 (add_symbols_columns (ProteinSequence.chars s) ps))
      as (ps1 & H1 & Hl1 & Hc1).
    { apply Hlen. by left. }
    rewrite H1.
    destruct (IH ps1) as (ps' & H' & Hl' & Hc').
    { intros s' Hs'. rewrite Hl1. apply Hlen. by right. }
    exists ps'. split_and!; [done | congruence |].
    intros i X HX. rewrite (Hc' i _ (Hc1 i X HX)). f_equal.
    change (omap ?f (s :: C))
      with (match f s with Some y => y :: omap f C | None => omap f C end).
    destruct (ProteinSequence.chars s !! i); simpl.
    + by rewrite (right_id_L ∅ (∪)), (assoc_L (∪)).
    + by rewrite (right_id_L ∅ (∪)).
Qed.

Lemma collect_columns_too_long (recs : list (str * str))
    (C : ProteinSequences.t) (ps : list (gset ascii)) :
  Forall2 (fun '(id, seq) s => ProteinSequence.new seq (Some id) None = Ok s)
          recs C ->
  (exists s, s ∈ C /\ (length ps < ProteinSequence.len s)%nat) ->
  foldR (fun positions '(id, seq) =>
           s ← ProteinSequence.new seq (Some id) None;
           add_symbols positions (ProteinSequence.chars s))
        recs ps = Raise (IndexError ListIndex).
Proof.
  intros Hall. revert ps.
  induction Hall as [|[id seq] s recs C Hs Hall IH]; intros ps (t & Ht & Hlong).
  - by apply elem_of_nil in Ht.
  - simpl. rewrite Hs. simpl.
    destruct (decide (length ps < ProteinSequence.len s)%nat) as [Hl|Hl].
    + by rewrite (proj2 (add_symbols_columns (ProteinSequence.chars s) ps) Hl).
    + destruct (proj1 (add_symbols_columns (ProteinSequence.chars s) ps))
        as (ps1 & H1 & Hl1 & _).
      { unfold ProteinSequence.len in Hl. lia. }
      rewrite H1. apply IH. exists t. rewrite Hl1.
      apply elem_of_cons in Ht as [->|Ht]; [done|]. by split.
Qed.

(** X21. [mutated_positions] of a file-backed collection built from a file.
    When the collection is not aligned it returns [None]. When it is
    aligned, with width [w], and the iteration over the file yields the
    members [C]: if no member is longer than [w], it returns the columns
    at which two members carry different symbols, in increasing order;
    if some member is longer than [w], the subscript into the list of
    column sets raises. The width is never [None] when it is needed. *)
Theorem on_file_mutated_positions
    (f : str) (F : t) (C : ProteinSequences.t) :
  new f = Ok F -> iter F = Ok C ->
  (aligned F = false -> mutated_positions F = Ok None)
  /\ (aligned F = true ->
      exists w,
        width F = Some w
        /\ ((forall s, s ∈ C -> (ProteinSequence.len s <= w)%nat) ->
            exists l,
              mutated_positions F = Ok (Some l)
              /\ StronglySorted lt l
              /\ forall i, i ∈ l <-> varies C i)
        /\ ((exists s, s ∈ C /\ (w < ProteinSequence.len s)%nat) ->
            mutated_positions F = Raise (IndexError ListIndex))).
Proof.
  intros HF Hiter. split.
  { intros Ha. unfold mutated_positions. by rewrite Ha. }
  intros Ha.
  assert (Hw : exists w, width F = Some w).
  { apply new_inv_index in HF as (HF & _). rewrite HF in Ha |- *.
    unfold aligned, width, _compute_global_properties in *. simpl in *.
    rewrite Ha. apply bool_decide_eq_true in Ha.
    apply size_1_elem_of in Ha as [x Hx]. apply leibniz_equiv in Hx.
    rewrite Hx, elements_singleton. by exists x. }
  destruct Hw as [w Hw]. exists w. split; [done|].
  unfold iter in Hiter. apply mapR_Ok_Forall2 in Hiter.
  assert (Hrecs : Forall2 (fun '(id, seq) s =>
                             ProteinSequence.new seq (Some id) None = Ok s)
                          (read_fasta (file F)) C).
  { eapply Forall2_impl; [exact Hiter|]. by intros [id seq] s. }
  clear Hiter. rename Hrecs into Hiter.
  unfold mutated_positions. rewrite Ha, Hw. simpl. split.
  - intros Hlen.
    destruct (collect_columns (read_fasta (file F)) C
                (replicate w (∅ : gset ascii)) Hiter)
      as (ps & Hps & Hl & Hcol).
    { intros s Hs. rewrite length_replicate. by apply Hlen. }
    rewrite Hps. simpl. eexists. split; [done|].
    rewrite length_replicate in Hl. split.
    + unfold enumerate. apply positions_sorted.
      intros i X j. destruct (decide _); [|done]. by intros [= <-].
    + assert (Hlook : forall i, (i < w)%nat ->
                ps !! i = Some (list_to_set
                  (omap (fun s => ProteinSequence.chars s !! i) C))).
      { intros i Hi. rewrite (Hcol i ∅).
        - by rewrite (left_id_L ∅ (∪)).
        - by apply lookup_replicate_2. }
      assert (Hvar : forall i,
                (1 < size (list_to_set
                   (omap (fun s => ProteinSequence.chars s !! i) C)
                   : gset ascii))%nat <-> varies C i).
      { intros i. rewrite size_gt_one_iff. split.
        - intros (c & d & Hc & Hd & Hne).
          apply list_elem_of_omap in Hc as (s & Hs & Hsc).
          apply list_elem_of_omap in Hd as (t & Ht & Htd).
          by exists s, t, c, d.
        - intros (s & t & c & d & Hs & Ht & Hc & Hd & Hne).
          exists c, d. split_and!; [| |done]; apply list_elem_of_omap.
          + by exists s.
          + by exists t. }
      intros i. rewrite list_elem_of_omap. split.
      * intros ([j X] & Hin & Hsz). apply enumerate_elem in Hin.
        destruct (decide (1 < size X)%nat) as [Hgt|]; [|done].
        injection Hsz as ->. apply lookup_lt_Some in Hin as Hi.
        rewrite Hlook in Hin by lia. injection Hin as <-. by apply Hvar.
      * intros Hv. assert (Hi : (i < w)%nat).
        { destruct Hv as (s & _ & c & _ & Hs & _ & Hc & _).
          apply lookup_lt_Some in Hc. specialize (Hlen s Hs).
          unfold ProteinSequence.len in Hlen. lia. }
        eexists (i, _). split.
        -- apply enumerate_elem. by apply Hlook.
        -- rewrite decide_True; [done|]. by apply Hvar.
  - intros Hlong.
    rewrite (collect_columns_too_long (read_fasta (file F)) C); [done|done|].
    by rewrite length_replicate.
Qed.

End OnFileColumns.

Lemma on_file_mutated_positions_witness :
  exists F C,
    ProteinSequencesOnFile.new (text [">a"; "ACDE"; ">b"; "AC-E"]) = Ok F
    /\ ProteinSequencesOnFile.iter (E := demo_env) F = Ok C
    /\ (ProteinSequencesOnFile.aligned F = false ->
        ProteinSequencesOnFile.mutated_positions (E := demo_env) F = Ok None).
Proof.
  eexists. eexists. split; [vm_compute; reflexivity|].
  split; [vm_compute; reflexivity|].
  refine (proj1 (on_file_mutated_positions (E := demo_env)
                   (text [">a"; "ACDE"; ">b"; "AC-E"]) _ _ _ _));
    vm_compute; reflexivity.
Defined.

(** * Identity of a sequence *)

Section Identity.
Context `{E : Env}.

(** X22. The hash of a sequence is taken from its symbols and its identifier,
    and equality compares hashes: two sequences with the same symbols and
    identifier are equal whatever their structures; equality is
    reflexive, symmetric and transitive. Setting the structure succeeds
    exactly when the path exists, and returns an equal sequence with the
    same symbols and identifier; setting the identifier changes nothing
    else. Replacing a symbol by itself in a sequence without identifier
    gives an equal sequence. *)
Theorem equality_ignores_structure (s o u : ProteinSequence.t) :
  (ProteinSequence.chars s = ProteinSequence.chars o ->
   ProteinSequence._id s = ProteinSequence._id o ->
   ProteinSequence.hash s = ProteinSequence.hash o
   /\ ProteinSequence.eq s o = true)
  /\ ProteinSequence.eq s s = true
  /\ ProteinSequence.eq s o = ProteinSequence.eq o s
  /\ (ProteinSequence.eq s o = true -> ProteinSequence.eq o u = true ->
      ProteinSequence.eq s u = true)
  /\ (forall p,
        (path_exists p = true
         <-> exists s', ProteinSequence.set_structure s p = Ok s')
        /\ (path_exists p = false
            <-> ProteinSequence.set_structure s p
                = Raise (ValueError StructureDoesNotExist))
        /\ forall s', ProteinSequence.set_structure s p = Ok s' ->
             ProteinSequence.eq s s' = true
             /\ ProteinSequence.chars s' = ProteinSequence.chars s
             /\ ProteinSequence._id s' = ProteinSequence._id s
             /\ ProteinSequence._structure s' = Some p)
  /\ (forall i,
        ProteinSequence.chars (ProteinSequence.set_id s i)
        = ProteinSequence.chars s
        /\ ProteinSequence._id (ProteinSequence.set_id s i) = Some i
        /\ ProteinSequence._structure (ProteinSequence.set_id s i)
           = ProteinSequence._structure s)
  /\ (forall (p : nat) c s',
        wf s -> ProteinSequence._id s = None ->
        ProteinSequence.chars s !! p = Some c ->
        ProteinSequence.mutate s (Z.of_nat p) [c] = Ok s' ->
        ProteinSequence.eq s s' = true).
Proof.
  unfold ProteinSequence.eq, ProteinSequence.hash. split_and!.
  - intros -> ->. split; [done | by apply bool_decide_eq_true].
  - by apply bool_decide_eq_true.
  - apply eq_true_iff_eq. rewrite !bool_decide_eq_true. by split.
  - rewrite !bool_decide_eq_true. congruence.
  - intros p. unfold ProteinSequence.set_structure.
    destruct (path_exists p); split_and!.
    + split; [by eexists | done].
    + split; discriminate.
    + intros s' [= <-]. simpl. split; [by apply bool_decide_eq_true | done].
    + split; [done | by intros [? [=]]].
    + done.
    + discriminate.
  - done.
  - intros p c s' Hwf Hid Hc Hm.
    assert (Hv : ProteinCharacter.valid_symbol c = true).
    { destruct Hwf as [Hv _]. unfold all_valid in Hv.
      rewrite Forall_forall in Hv. apply Hv. by eapply list_elem_of_lookup_2. }
    rewrite mutate_valid in Hm; [|done|done|].
    + injection Hm as <-. simpl. rewrite list_insert_id by done.
      rewrite Hid. by apply bool_decide_eq_true.
    + unfold ProteinSequence.len. by eapply lookup_lt_Some.
Qed.

End Identity.

(** * The two collections on any sequence file *)

(** ** Blanks at the ends of a line *)

Lemma lstrip_decomp (s : str) :
  exists a, s = a ++ lstrip s /\ Forall (fun c => isspace c = true) a.
Proof.
  induction s as [|c s (a & Ha & Hws)]; simpl; [by exists []|].
  destruct (isspace c) eqn:Hc.
  - exists (c :: a). split; [by rewrite <- app_comm_cons, <- Ha|].
    by constructor.
  - by exists [].
Qed.

Lemma py_strip_decomp (s : str) :
  exists a b,
    s = a ++ py_strip s ++ b
    /\ Forall (fun c => isspace c = true) a
    /\ Forall (fun c => isspace c = true) b.
Proof.
  unfold py_strip. destruct (lstrip_decomp s) as (a & Ha & Hwa).
  destruct (lstrip_decomp (rev (lstrip s))) as (b & Hb & Hwb).
  exists a, (rev b). split_and!; [|done|].
  - rewrite Ha at 1. f_equal.
    rewrite <- (rev_involutive (lstrip s)) at 1. rewrite Hb at 1.
    by rewrite rev_app_distr.
  - apply Forall_forall. intros c Hc.
    apply (proj1 (elem_of_rev b c)) in Hc. by eapply Forall_forall in Hwb.
Qed.

Lemma filter_blanks (a : str) :
  Forall (fun c => isspace c = true) a ->
  filter (fun c => isspace c = false) a = [].
Proof.
  induction 1 as [|c a Hc _ IH]; [done|].
  by rewrite filter_cons_False by congruence.
Qed.

Lemma symbols_of_line (l : str) :
  no_space (py_strip l) -> filter (fun c => isspace c = false) l = py_strip l.
Proof.
  intros Hl. destruct (py_strip_decomp l) as (a & b & Heq & Ha & Hb).
  rewrite Heq at 1. rewrite !filter_app, (filter_blanks a), (filter_blanks b)
    by done.
  rewrite filter_no_space by done. by rewrite app_nil_r.
Qed.

Lemma split_from_blanks (cur b : str) :
  Forall (fun c => isspace c = true) b ->
  split_from cur b = match cur with [] => [] | _ => [cur] end.
Proof.
  intros Hb. revert cur. induction Hb as [|c b Hc _ IH]; intros cur; simpl.
  - done.
  - rewrite Hc. destruct cur; by rewrite IH.
Qed.

Lemma split_from_blank_suffix (cur x b : str) :
  Forall (fun c => isspace c = true) b ->
  split_from cur (x ++ b) = split_from cur x.
Proof.
  intros Hb. revert cur. induction x as [|c x IH]; intros cur; simpl.
  - by apply split_from_blanks.
  - destruct (isspace c); [destruct cur|]; by rewrite IH.
Qed.

Lemma split_from_blank_prefix (a x : str) :
  Forall (fun c => isspace c = true) a ->
  split_from [] (a ++ x) = split_from [] x.
Proof. induction 1 as [|c a Hc _ IH]; simpl; [done|]. by rewrite Hc. Qed.

Lemma py_split_strip (s : str) : py_split (py_strip s) = py_split s.
Proof.
  destruct (py_strip_decomp s) as (a & b & Heq & Ha & Hb).
  unfold py_split. rewrite Heq at 2.
  by rewrite split_from_blank_prefix, split_from_blank_suffix.
Qed.

(** ** Every list of lines is a list of records *)

Lemma lines_parsed (lines : list str) :
  exists pre recs,
    lines = pre ++ concat (raw_lines <$> recs)
    /\ Forall (fun l => is_header l = false) pre
    /\ Forall (fun r => is_header r.1 = true
                        /\ Forall (fun l => is_header l = false) r.2) recs.
Proof.
  induction lines as [|l lines (pre & recs & Heq & Hpre & Hrecs)].
  - exists [], []. split_and!; by try constructor.
  - destruct (is_header l) eqn:Hl.
    + exists [], ((l, pre) :: recs). split_and!.
      * rewrite fmap_cons. cbn [concat]. unfold raw_lines at 1. simpl.
        by rewrite Heq.
      * constructor.
      * by constructor.
    + exists (l :: pre), recs. split_and!; [by rewrite Heq | | done].
      by constructor.
Qed.

(** ** The index of the records *)

Section RawIndex.
Context `{E : Env}.

Import ProteinSequencesOnFile.

Lemma scan_raw_header (st : scan) (h id : str) :
  is_header h = true -> header_id h = Some id ->
  scan_line st h
  = Ok (mkScan (Some id) (Some (file_pos st + length h)%nat)
               0%nat false 0%nat (file_pos st + length h)%nat (flush st)).
Proof.
  intros Hh Hid. unfold scan_line. rewrite Hh, header_rest by done.
  rewrite py_split_strip, py_index_first. unfold header_id in Hid.
  destruct (py_split (drop 1 h)) as [|w ws]; [done|].
  simpl in Hid. by injection Hid as ->.
Qed.

Lemma scan_other_line (l : str) (st : scan) :
  is_header l = false ->
  scan_line st l
  = Ok (mkScan (current_id st) (seq_start st)
               (seq_length st + length (py_strip l))%nat
               (scan_has_gaps st || bool_decide ("-"%char ∈ py_strip l))
               (scan_base_length st
                + length (filter (fun c => c ≠ "-"%char) (py_strip l)))%nat
               (file_pos st + length l)%nat (index st)).
Proof. intros Hl. unfold scan_line. by rewrite Hl. Qed.

Lemma scan_other_lines (ls : list str) (st : scan) :
  Forall (fun l => is_header l = false) ls ->
  foldR scan_line ls st
  = Ok (mkScan (current_id st) (seq_start st)
               (seq_length st + length (concat (py_strip <$> ls)))%nat
               (scan_has_gaps st
                || bool_decide ("-"%char ∈ concat (py_strip <$> ls)))
               (scan_base_length st
                + length (filter (fun c => c ≠ "-"%char)
                                 (concat (py_strip <$> ls))))%nat
               (file_pos st + length (concat ls))%nat (index st)).
Proof.
  intros H. revert st. induction H as [|l ls Hl _ IH]; intros st.
  - simpl. destruct st. simpl. f_equal. f_equal; try lia.
    by rewrite orb_false_r.
  - rewrite fmap_cons. cbn [foldR concat]. rewrite scan_other_line by done.
    simpl. rewrite IH. simpl. f_equal. f_equal.
    + rewrite length_app. lia.
    + rewrite <- orb_assoc. f_equal.
      apply eq_true_iff_eq. rewrite orb_true_iff, !bool_decide_eq_true.
      by rewrite elem_of_app.
    + rewrite filter_app, length_app. lia.
    + rewrite length_app. lia.
Qed.

Lemma raw_content_strip (ls : list str) :
  Forall symbol_line ls ->
  filter (fun c => isspace c = false) (concat ls) = concat (py_strip <$> ls).
Proof.
  induction 1 as [|l ls (_ & Hl & _) _ IH]; [done|].
  rewrite fmap_cons. cbn [concat].
  by rewrite filter_app, symbols_of_line, IH.
Qed.

Lemma symbol_lines_not_headers (ls : list str) :
  Forall symbol_line ls -> Forall (fun l => is_header l = false) ls.
Proof. intros H. eapply Forall_impl; [exact H|]. by intros l [? _]. Qed.

Lemma scan_raw_record (r : str * list str) (st : scan) :
  raw_record r ->
  foldR scan_line (raw_lines r) st
  = Ok (mkScan (Some (raw_id r)) (start (raw_entry (file_pos st) r))
               (length_ (raw_entry (file_pos st) r))
               (has_gaps_ (raw_entry (file_pos st) r))
               (base_length_ (raw_entry (file_pos st) r))
               (file_pos st + raw_size r)%nat (flush st)).
Proof.
  intros (Hh & [id Hid] & Hls). unfold raw_lines. cbn [foldR].
  rewrite (scan_raw_header st r.1 id) by done. simpl.
  rewrite scan_other_lines by (by apply symbol_lines_not_headers).
  simpl. unfold raw_id, raw_entry, raw_content, raw_size, raw_lines.
  rewrite Hid, raw_content_strip by done. simpl.
  rewrite length_app. f_equal. f_equal. lia.
Qed.

Lemma scan_raw_records (recs : list (str * list str)) (st : scan) :
  Forall raw_record recs ->
  exists st',
    foldR scan_line (concat (raw_lines <$> recs)) st = Ok st'
    /\ flush st' = set_all (raw_entries (file_pos st) recs) (flush st).
Proof.
  intros H. revert st. induction H as [|r recs Hr _ IH]; intros st.
  - exists st. by split.
  - rewrite fmap_cons. cbn [concat]. rewrite foldR_app.
    rewrite scan_raw_record by done. simpl.
    edestruct IH as (st' & Hst' & Hfl). exists st'. split; [exact Hst'|].
    exact Hfl.
Qed.

Lemma create_index_parsed (f : str) (pre : list str)
    (recs : list (str * list str)) :
  parsed f pre recs -> Forall raw_record recs ->
  _create_index f
  = Ok (set_all (raw_entries (length (concat pre)) recs) []).
Proof.
  intros [Hlines Hpre] Hrecs. unfold _create_index.
  rewrite Hlines, foldR_app, scan_other_lines by done. simpl.
  edestruct (scan_raw_records recs) as (st' & -> & Hfl); [done|].
  simpl. by rewrite Hfl.
Qed.

End RawIndex.

(** ** read_fasta on the records *)

Lemma read_raw_header (h : str) (st : option (str * str) * list (str * str)) :
  is_header h = true ->
  read_fasta_step st h
  = (Some (default [] (header_id h), []), st.2 ++ option_list st.1).
Proof.
  intros Hh. destruct st as [cur done]. unfold read_fasta_step.
  by rewrite Hh.
Qed.

Lemma read_other_lines (ls : list str) (cur : option (str * str))
    (done : list (str * str)) :
  Forall (fun l => is_header l = false) ls ->
  fold_left read_fasta_step ls (cur, done)
  = (match cur with
     | Some (id, content) =>
         Some (id, content ++ filter (fun c => isspace c = false) (concat ls))
     | None => None
     end, done).
Proof.
  intros H. revert cur. induction H as [|l ls Hl _ IH]; intros cur.
  - destruct cur as [[id content]|]; simpl; by rewrite ?app_nil_r.
  - cbn [fold_left concat]. unfold read_fasta_step at 2. rewrite Hl.
    destruct cur as [[id content]|]; rewrite IH; [|done].
    unfold py_split. rewrite join_split_from. simpl.
    by rewrite filter_app, app_assoc.
Qed.

Lemma read_raw_record (r : str * list str)
    (st : option (str * str) * list (str * str)) :
  is_header r.1 = true -> Forall (fun l => is_header l = false) r.2 ->
  fold_left read_fasta_step (raw_lines r) st
  = (Some (raw_id r, raw_content r), st.2 ++ option_list st.1).
Proof.
  intros Hh Hls. unfold raw_lines. cbn [fold_left].
  rewrite read_raw_header by done. by rewrite read_other_lines.
Qed.

Lemma read_raw_records (recs : list (str * list str))
    (st : option (str * str) * list (str * str)) :
  Forall (fun r => is_header r.1 = true
                   /\ Forall (fun l => is_header l = false) r.2) recs ->
  flushed (fold_left read_fasta_step (concat (raw_lines <$> recs)) st)
  = flushed st ++ ((fun r => (raw_id r, raw_content r)) <$> recs).
Proof.
  intros H. revert st. induction H as [|r recs [Hh Hls] _ IH]; intros st.
  - simpl. by rewrite app_nil_r.
  - rewrite !fmap_cons. cbn [concat]. rewrite fold_left_app.
    rewrite read_raw_record by done. rewrite IH. unfold flushed. simpl.
    by rewrite <- app_assoc.
Qed.

Lemma read_fasta_parsed (f : str) (pre : list str)
    (recs : list (str * list str)) :
  parsed f pre recs ->
  Forall (fun r => is_header r.1 = true
                   /\ Forall (fun l => is_header l = false) r.2) recs ->
  read_fasta f = (fun r => (raw_id r, raw_content r)) <$> recs.
Proof.
  intros [Hlines Hpre] Hrecs. unfold read_fasta.
  rewrite Hlines, fold_left_app, read_other_lines by done.
  pose proof (read_raw_records recs (None, []) Hrecs) as Hr.
  unfold flushed in Hr.
  destruct (fold_left read_fasta_step _ _) as [cur done]. by simpl in *.
Qed.

Section RawAgreement.
Context `{E : Env}.

Import ProteinSequencesOnFile.

Lemma raw_record_lines (r : str * list str) :
  raw_record r ->
  is_header r.1 = true /\ Forall (fun l => is_header l = false) r.2.
Proof.
  intros (Hh & _ & Hls). split; [done|]. by apply symbol_lines_not_headers.
Qed.

(** The collection read into memory, when it can be read, is made of
    the members of the records. *)
Lemma from_fasta_parsed (f : str) (pre : list str)
    (recs : list (str * list str)) (M : ProteinSequences.t) :
  parsed f pre recs -> Forall raw_record recs ->
  FastaIO.from_fasta f = Ok M ->
  M = raw_member <$> recs /\ Forall (fun r => all_valid (raw_content r)) recs.
Proof.
  intros Hp Hrecs. unfold FastaIO.from_fasta.
  rewrite (read_fasta_parsed f pre recs Hp).
  2: { eapply Forall_impl; [exact Hrecs|]. intros r. apply raw_record_lines. }
  clear Hp Hrecs. revert M. induction recs as [|r recs IH]; intros M.
  - simpl. intros [= <-]. split; [done | constructor].
  - rewrite fmap_cons. simpl. intros (s & Hs & H)%bind_Ok.
    apply bind_Ok in H as (M' & HM' & [= <-]).
    apply new_inv in Hs as [-> [Hv _]]. destruct (IH M' HM') as [-> Hall].
    split; [done | by constructor].
Qed.

Lemma from_fasta_raw_members (f : str) (pre : list str)
    (recs : list (str * list str)) :
  parsed f pre recs -> Forall raw_record recs ->
  Forall (fun r => all_valid (raw_content r)) recs ->
  FastaIO.from_fasta f = Ok (raw_member <$> recs).
Proof.
  intros Hp Hrecs Hv. unfold FastaIO.from_fasta.
  rewrite (read_fasta_parsed f pre recs Hp).
  2: { eapply Forall_impl; [exact Hrecs|]. intros r. apply raw_record_lines. }
  clear Hp Hrecs. induction Hv as [|r recs Hr _ IH]; [done|].
  rewrite !fmap_cons. simpl. rewrite new_Ok by done. simpl.
  by rewrite IH.
Qed.

Lemma raw_dash_only (r : str * list str) :
  raw_record r -> dash_only (raw_content r).
Proof.
  intros (_ & _ & Hls). unfold raw_content. rewrite raw_content_strip by done.
  assert (Hall : Forall (fun c => c ∈ GAP_CHARACTERS <-> c = "-"%char)
                        (concat (py_strip <$> r.2))).
  { apply Forall_concat, Forall_fmap. eapply Forall_impl; [exact Hls|].
    intros l (_ & _ & Hd). simpl. apply Forall_forall. exact Hd. }
  intros c Hc. by eapply Forall_forall in Hall.
Qed.

Lemma raw_member_base_length (r : str * list str) :
  raw_record r ->
  ProteinSequence.base_length (raw_member r)
  = Z.of_nat (base_length_ (raw_entry 0 r)).
Proof.
  intros Hr. rewrite base_length_filter. simpl.
  by rewrite filter_dash by (by apply raw_dash_only).
Qed.

Lemma raw_member_has_gaps (r : str * list str) :
  raw_record r ->
  ProteinSequence.has_gaps (raw_member r) = has_gaps_ (raw_entry 0 r).
Proof.
  intros Hr. unfold ProteinSequence.has_gaps. simpl.
  apply has_gaps_dash. by apply raw_dash_only.
Qed.

Lemma raw_entries_keys (p : nat) (recs : list (str * list str)) :
  (raw_entries p recs).*1 = raw_id <$> recs.
Proof.
  revert p. induction recs as [|r recs IH]; intros p; [done|].
  simpl. f_equal. apply IH.
Qed.

Lemma raw_entries_values (p : nat) (recs : list (str * list str)) :
  length_ <$> dict_values (raw_entries p recs)
  = ProteinSequence.len <$> (raw_member <$> recs)
  /\ base_length_ <$> dict_values (raw_entries p recs)
     = (fun r => base_length_ (raw_entry 0 r)) <$> recs
  /\ has_gaps_ <$> dict_values (raw_entries p recs)
     = (fun r => has_gaps_ (raw_entry 0 r)) <$> recs.
Proof.
  revert p. induction recs as [|r recs IH]; intros p; [done|].
  destruct (IH (p + raw_size r)%nat) as (H1 & H2 & H3).
  split_and!; cbn; f_equal; assumption.
Qed.

Lemma raw_entries_has_gaps (p : nat) (recs : list (str * list str)) :
  Forall raw_record recs ->
  existsb has_gaps_ (dict_values (raw_entries p recs))
  = ProteinSequences.has_gaps (raw_member <$> recs).
Proof.
  intros H. revert p. induction H as [|r recs Hr _ IH]; intros p; [done|].
  rewrite fmap_cons.
  cbn [raw_entries dict_values map snd ProteinSequences.has_gaps existsb].
  rewrite (raw_member_has_gaps r Hr). f_equal. apply IH.
Qed.

Lemma raw_members_base_length (recs : list (str * list str)) :
  Forall raw_record recs ->
  ProteinSequence.base_length <$> (raw_member <$> recs)
  = Z.of_nat <$> ((fun r => base_length_ (raw_entry 0 r)) <$> recs).
Proof.
  intros H. induction H as [|r recs Hr _ IH]; [done|].
  rewrite !fmap_cons, IH. f_equal. by apply raw_member_base_length.
Qed.

Lemma raw_entries_lookup (p i : nat) (recs : list (str * list str))
    (r : str * list str) :
  recs !! i = Some r ->
  raw_entries p recs !! i
  = Some (raw_id r,
          raw_entry (p + length (concat (concat (raw_lines <$> take i recs)))) r).
Proof.
  revert p i. induction recs as [|r0 recs IH]; intros p i Hi; [done|].
  destruct i as [|i].
  - simpl in Hi. injection Hi as ->. simpl. by rewrite Nat.add_0_r.
  - change (raw_entries p (r0 :: recs) !! S i)
      with (raw_entries (p + raw_size r0) recs !! i).
    rewrite (IH _ _ Hi). do 3 f_equal.
    change (take (S i) (r0 :: recs)) with (r0 :: take i recs).
    rewrite fmap_cons. cbn [concat]. rewrite concat_app, length_app.
    unfold raw_size. lia.
Qed.

Lemma dict_get_lookup {V} (d : list (str * V)) (i : nat) (k : str) (v : V) :
  NoDup (dict_keys d) -> d !! i = Some (k, v) -> dict_get k d = Some v.
Proof.
  revert i. induction d as [|[k0 v0] d IH]; intros i Hnd Hi; [done|].
  simpl in Hnd. apply NoDup_cons in Hnd as [Hk0 Hnd]. simpl.
  destruct i as [|i]; simpl in Hi.
  - injection Hi as -> ->. by rewrite decide_True.
  - destruct (decide (k0 = k)) as [->|Hne].
    + exfalso. apply Hk0. apply list_elem_of_fmap. exists (k, v).
      split; [done|]. by eapply list_elem_of_lookup_2.
    + by eapply IH.
Qed.

(** When the symbols of a record stand together, they are the first
    symbols after its header line, as many as the record has. *)
Lemma compact_content (r : str * list str) :
  compact r -> take (length (raw_content r)) (concat r.2) = raw_content r.
Proof.
  unfold compact, raw_content. set (x := concat r.2).
  set (n := length (filter (fun c => isspace c = false) x)). intros Hc.
  assert (Hn : (n <= length x)%nat) by apply length_filter.
  assert (Hsplit : filter (fun c => isspace c = false) x
                   = take n x
                     ++ filter (fun c => isspace c = false) (drop n x)).
  { rewrite <- (take_drop n x) at 1.
    by rewrite filter_app, filter_no_space. }
  assert (Hlen : length (filter (fun c => isspace c = false) (drop n x))
                 = 0%nat).
  { apply (f_equal length) in Hsplit. rewrite length_app, length_take in Hsplit.
    fold n in Hsplit. lia. }
  apply nil_length_inv in Hlen. rewrite Hsplit, Hlen. by rewrite app_nil_r.
Qed.

Lemma read_at_compact (f : str) (pre : list str)
    (recs : list (str * list str)) (i : nat) (r : str * list str) :
  parsed f pre recs -> recs !! i = Some r -> compact r ->
  read_at f (length (concat pre)
             + length (concat (concat (raw_lines <$> take i recs)))
             + length r.1)
          (length (raw_content r))
  = raw_content r.
Proof.
  intros [Hlines _] Hi Hc. unfold read_at.
  rewrite <- (concat_file_lines f), Hlines.
  pose proof (take_drop_middle recs i r Hi) as Hsplit.
  set (A := take i recs) in *. set (B := drop (S i) recs) in *.
  clearbody A B. subst recs.
  assert (Hf : concat (pre ++ concat (raw_lines <$> A ++ r :: B))
               = (concat pre ++ concat (concat (raw_lines <$> A)) ++ r.1)
                 ++ concat r.2 ++ concat (concat (raw_lines <$> B))).
  { rewrite fmap_app, fmap_cons, !concat_app.
    change (concat (concat (raw_lines r :: (raw_lines <$> B))))
      with (concat (raw_lines r ++ concat (raw_lines <$> B))).
    rewrite concat_app.
    change (concat (raw_lines r)) with (r.1 ++ concat r.2).
    by rewrite <- !app_assoc. }
  rewrite Hf.
  rewrite drop_app_length' by (rewrite !length_app; lia).
  rewrite take_app_le by apply length_filter.
  by apply compact_content.
Qed.

Lemma getitem_compact (f : str) (pre : list str)
    (recs : list (str * list str)) (F : t) (i : nat) (r : str * list str) :
  parsed f pre recs -> file F = f ->
  _index F = raw_entries (length (concat pre)) recs ->
  NoDup (raw_id <$> recs) -> recs !! i = Some r ->
  compact r -> all_valid (raw_content r) ->
  getitem F (inr (raw_id r)) = Ok (raw_member r)
  /\ getitem F (inl (Z.of_nat i)) = Ok (raw_member r).
Proof.
  intros Hp Hfile Hidx Hnd Hi Hc Hv.
  assert (Hget : getitem F (inr (raw_id r)) = Ok (raw_member r)).
  { assert (Hkeys : NoDup (dict_keys (raw_entries (length (concat pre)) recs))).
    { unfold dict_keys. change (map fst ?l) with (l.*1).
      by rewrite raw_entries_keys. }
    unfold getitem. simpl. rewrite Hidx.
    rewrite (dict_get_lookup _ i _ _ Hkeys (raw_entries_lookup _ i recs r Hi)).
    unfold raw_entry. cbn [start length_]. rewrite Hfile.
    rewrite (read_at_compact f pre recs i r) by done.
    rewrite join_split_no_space.
    - by apply new_Ok.
    - rewrite <- (compact_content r Hc). exact Hc. }
  split; [done|]. rewrite (getitem_by_position _ _ (raw_id r)); [done|].
  rewrite Hidx. unfold dict_keys. change (map fst ?l) with (l.*1).
  rewrite raw_entries_keys. by rewrite list_lookup_fmap, Hi.
Qed.

End RawAgreement.

(** ** The file-backed collection against the one read into memory *)

Section AgreementOnAnyFile.
Context `{E : Env}.

Import ProteinSequencesOnFile.

Lemma new_parsed (f : str) (pre : list str) (recs : list (str * list str)) :
  parsed f pre recs -> Forall raw_record recs -> NoDup (raw_id <$> recs) ->
  new f
  = Ok (_compute_global_properties f
          (raw_entries (length (concat pre)) recs)).
Proof.
  intros Hp Hrecs Hnd. unfold new.
  rewrite (create_index_parsed f pre recs) by done. simpl.
  rewrite set_all_fresh; [done|]. simpl. by rewrite raw_entries_keys.
Qed.

(** C2, as the code has it. Take any file and read it as its lines: the
    lines before the first header line, then the records, each a header
    line and the lines up to the next one. Let every header line carry an
    identifier, let the identifiers be pairwise distinct, and let every
    other line of a record hold symbols with blanks at its ends only (the
    line may be blank, the header may go on after the identifier, the
    last line may lack its line end), ["-"] being the only gap symbol
    that occurs. Whenever the collection can be read into memory, the
    file-backed collection can be built, the two have the same length and
    the same identifiers, and they report the same [aligned],
    [fixed_length], [width] and [has_gaps]. When moreover the file is
    ASCII text with ["\n"] line ends, then at every position, and under
    every identifier, whose record has its symbols together directly
    after its header line, both return the same sequence: same
    characters, same identifier. *)
Theorem file_backed_agrees_with_memory
    (f : str) (pre : list str) (recs : list (str * list str))
    (M : ProteinSequences.t) :
  parsed f pre recs -> Forall raw_record recs -> NoDup (raw_id <$> recs) ->
  FastaIO.from_fasta f = Ok M ->
  exists F : t,
    new f = Ok F
    /\ M = raw_member <$> recs
    /\ dict_keys (_index F) = raw_id <$> recs
    /\ aligned F = ProteinSequences.aligned M
    /\ fixed_length F = ProteinSequences.fixed_length M
    /\ ProteinSequences.width M = Ok (width F)
    /\ has_gaps F = ProteinSequences.has_gaps M
    /\ len F = length M
    /\ (plain_text f ->
        forall i r, recs !! i = Some r -> compact r ->
          exists s,
            py_index M (Z.of_nat i) = Ok s
            /\ ProteinSequence._id s = Some (raw_id r)
            /\ getitem F (inl (Z.of_nat i)) = Ok s
            /\ getitem F (inr (raw_id r)) = Ok s).
Proof.
  intros Hp Hrecs Hnd HM.
  destruct (from_fasta_parsed f pre recs M Hp Hrecs HM) as [-> Hvalid].
  set (p := length (concat pre)).
  exists (_compute_global_properties f (raw_entries p recs)).
  destruct (raw_entries_values p recs) as (Hlen & Hbase & _).
  assert (Haligned :
    aligned (_compute_global_properties f (raw_entries p recs))
    = ProteinSequences.aligned (raw_member <$> recs)).
  { unfold aligned, _compute_global_properties, ProteinSequences.aligned.
    simpl. by rewrite Hlen. }
  assert (Hkeys : dict_keys (raw_entries p recs) = raw_id <$> recs).
  { unfold dict_keys. change (map fst ?l) with (l.*1).
    apply raw_entries_keys. }
  split_and!.
  - by apply new_parsed.
  - done.
  - exact Hkeys.
  - exact Haligned.
  - unfold fixed_length, _compute_global_properties,
      ProteinSequences.fixed_length. simpl.
    rewrite Hbase, raw_members_base_length by done.
    apply bool_decide_ext. symmetry. apply size_one_inj. apply _.
  - unfold ProteinSequences.width. rewrite <- Haligned.
    unfold aligned, width, _compute_global_properties. simpl. rewrite Hlen.
    destruct (bool_decide _) eqn:Ha; [|done].
    apply bool_decide_eq_true in Ha.
    assert (Ha' : ProteinSequences.aligned (raw_member <$> recs) = true)
      by (by apply bool_decide_eq_true).
    destruct (aligned_head _ Ha') as (s0 & rest & Heq & _).
    rewrite Heq in Ha |- *.
    rewrite (elements_size_one _ (ProteinSequence.len s0) Ha); [done|].
    apply elem_of_list_to_set. rewrite fmap_cons. by left.
  - unfold has_gaps, _compute_global_properties. simpl.
    by apply raw_entries_has_gaps.
  - unfold len, _compute_global_properties. simpl.
    rewrite length_fmap. rewrite <- (length_fmap fst (raw_entries p recs)).
    rewrite raw_entries_keys. by rewrite length_fmap.
  - intros _ i r Hi Hc. exists (raw_member r).
    assert (Hv : all_valid (raw_content r)).
    { by eapply Forall_lookup_1 in Hvalid. }
    destruct (getitem_compact f pre recs
                (_compute_global_properties f (raw_entries p recs)) i r)
      as [Hid Hpos]; try done.
    split_and!; [|done|done|done].
    apply py_index_lookup. by rewrite list_lookup_fmap, Hi.
Qed.

(** C6. For a collection [C] of length [L] in memory and a batch size
    [n >= 1], [iter_batches] yields [ceil(L/n)] batches; batch [k] is the
    window of [n] members of [C] that starts at member [k*n], so the
    batches are contiguous, disjoint and in order; every batch but the
    last has [n] members, the last has [L mod n] when that is not zero
    and [n] otherwise; the batches concatenated are [C]. A file-backed
    collection reads the members that its index lists, in that order,
    and yields the batches of their list, or raises what the first read
    that fails raises. On a file of ASCII text with ["\n"] line ends
    whose records carry distinct identifiers and hold valid symbols,
    together directly after the header line, the file-backed collection
    [F] yields [ceil(len F / n)] batches, batch [k] is the window of [n]
    records that starts at record [k*n], every member of a batch is the
    member that [F] returns at its position, and the batches concatenated
    are the records in file order. *)
Theorem iter_batches_partition (C : ProteinSequences.t) (n : Z) :
  1 <= n ->
  (exists bs,
     ProteinSequences.iter_batches C n = Ok bs
     /\ Z.of_nat (length bs) = (Z.of_nat (length C) + n - 1) / n
     /\ (forall k b, bs !! k = Some b ->
           b = take (Z.to_nat n) (drop (k * Z.to_nat n) C))
     /\ (forall k b, bs !! k = Some b -> (S k < length bs)%nat ->
           Z.of_nat (length b) = n)
     /\ (forall b, last bs = Some b ->
           Z.of_nat (length b)
           = if Z.of_nat (length C) mod n =? 0 then n
             else Z.of_nat (length C) mod n)
     /\ concat bs = C)
  /\ (forall F : t,
        iter_batches F n
        = (members ← mapR (fun id => getitem F (inr id))
                          (dict_keys (_index F));
           ProteinSequences.iter_batches members n))
  /\ (forall f pre recs,
        plain_text f -> parsed f pre recs -> Forall raw_record recs ->
        Forall compact recs ->
        Forall (fun r => all_valid (raw_content r)) recs ->
        NoDup (raw_id <$> recs) ->
        exists (F : t) bs,
          new f = Ok F
          /\ len F = length recs
          /\ (forall i r, recs !! i = Some r ->
                getitem F (inl (Z.of_nat i)) = Ok (raw_member r))
          /\ iter_batches F n = Ok bs
          /\ Z.of_nat (length bs) = (Z.of_nat (len F) + n - 1) / n
          /\ (forall k b, bs !! k = Some b ->
                b = take (Z.to_nat n)
                      (drop (k * Z.to_nat n) (raw_member <$> recs)))
          /\ concat bs = raw_member <$> recs).
Proof.
  intros Hn. split_and!.
  - by apply batches_are_windows.
  - intros F.
    destruct (mapR (fun id => getitem F (inr id)) (dict_keys (_index F)))
      as [members|e] eqn:Hmem; simpl.
    + by apply on_file_batches_of_members.
    + by apply on_file_batches_raise.
  - intros f pre recs _ Hp Hrecs Hcompact Hvalid Hnd.
    set (F := _compute_global_properties f
                (raw_entries (length (concat pre)) recs)).
    assert (Hkeys : dict_keys (_index F) = raw_id <$> recs).
    { unfold dict_keys. change (map fst ?l) with (l.*1).
      apply raw_entries_keys. }
    assert (Hget : forall i r, recs !! i = Some r ->
              getitem F (inr (raw_id r)) = Ok (raw_member r)
              /\ getitem F (inl (Z.of_nat i)) = Ok (raw_member r)).
    { intros i r Hi.
      apply (getitem_compact f pre recs F i r); try done.
      - by eapply Forall_lookup_1 in Hcompact.
      - by eapply Forall_lookup_1 in Hvalid. }
    assert (Hmem : mapR (fun id => getitem F (inr id)) (dict_keys (_index F))
                   = Ok (raw_member <$> recs)).
    { rewrite Hkeys. apply mapR_Ok_Forall2.
      apply Forall2_same_length_lookup_2; [by rewrite !length_fmap|].
      intros i id s Hid Hs.
      rewrite list_lookup_fmap in Hid. rewrite list_lookup_fmap in Hs.
      destruct (recs !! i) as [r|] eqn:Hi; [|done].
      simpl in Hid, Hs. injection Hid as <-. injection Hs as <-.
      by apply (Hget i r). }
    destruct (on_file_batches_of_members F _ n Hmem) as [Hlen Hb].
    destruct (batches_are_windows (raw_member <$> recs) n Hn)
      as (bs & Hbs & Hcount & Hwin & _ & _ & Hcat).
    rewrite length_fmap in Hlen, Hcount.
    exists F, bs. split_and!.
    + by apply new_parsed.
    + done.
    + intros i r Hi. by apply (Hget i r).
    + by rewrite Hb.
    + by rewrite <- Hlen.
    + done.
    + done.
Qed.

End AgreementOnAnyFile.

Lemma all_valid_forallb `{E : Env} (cs : str) :
  forallb ProteinCharacter.valid_symbol cs = true -> all_valid cs.
Proof.
  intros H. apply Forall_forall. intros c Hc%list_elem_of_In.
  by apply (proj1 (forallb_forall _ _) H).
Qed.

(** A file with a line before the first header, a header that goes on
    after the identifier, blanks after the symbols, a blank line, and no
    line end after the last line. *)
Lemma file_backed_agrees_with_memory_witness :
  exists F : ProteinSequencesOnFile.t,
    ProteinSequencesOnFile.new
      (text ["; two records"; ">a first"; "ACDE  "; ""; ">b"] ++ lit "AC-E")
    = Ok F
    /\ ProteinSequencesOnFile.aligned F
       = ProteinSequences.aligned
           [pseq "ACDE" (Some "a"); pseq "AC-E" (Some "b")]
    /\ ProteinSequencesOnFile.fixed_length F
       = ProteinSequences.fixed_length (E := demo_env)
           [pseq "ACDE" (Some "a"); pseq "AC-E" (Some "b")]
    /\ ProteinSequences.width [pseq "ACDE" (Some "a"); pseq "AC-E" (Some "b")]
       = Ok (ProteinSequencesOnFile.width F)
    /\ ProteinSequencesOnFile.has_gaps F
       = ProteinSequences.has_gaps (E := demo_env)
           [pseq "ACDE" (Some "a"); pseq "AC-E" (Some "b")]
    /\ ProteinSequencesOnFile.len F = 2%nat
    /\ ProteinSequencesOnFile.getitem (E := demo_env) F (inl 1)
       = Ok (pseq "AC-E" (Some "b"))
    /\ ProteinSequencesOnFile.getitem (E := demo_env) F (inr (lit "a"))
       = Ok (pseq "ACDE" (Some "a")).
Proof.
  destruct (file_backed_agrees_with_memory (E := demo_env)
              (text ["; two records"; ">a first"; "ACDE  "; ""; ">b"]
               ++ lit "AC-E")
              [ended (lit "; two records")]
              [(ended (lit ">a first"), [ended (lit "ACDE  "); ended (lit "")]);
               (ended (lit ">b"), [lit "AC-E"])]
              [pseq "ACDE" (Some "a"); pseq "AC-E" (Some "b")])
    as (F & HF & _ & _ & Ha & Hf & Hw & Hg & Hl & Hget).
  - split; [vm_compute; reflexivity|].
    constructor; [reflexivity | constructor].
  - constructor; [|constructor; [|constructor]].
    + split_and!; [reflexivity | eexists; vm_compute; reflexivity |].
      constructor; [|constructor; [|constructor]].
      * split_and!; [reflexivity | | apply demo_dash_only].
        unfold no_space. vm_compute. repeat constructor.
      * split_and!; [reflexivity | | apply demo_dash_only].
        unfold no_space. vm_compute. repeat constructor.
    + split_and!; [reflexivity | eexists; vm_compute; reflexivity |].
      constructor; [|constructor].
      split_and!; [reflexivity | | apply demo_dash_only].
      unfold no_space. vm_compute. repeat constructor.
  - change (NoDup [lit "a"; lit "b"]).
    apply NoDup_cons. split; [|apply NoDup_singleton].
    intros H%list_elem_of_singleton. discriminate H.
  - vm_compute. reflexivity.
  - exists F. split_and!; try done.
    + destruct (Hget eq_refl 1%nat _ eq_refl) as (s & Hs & _ & Hpos & _).
      * unfold compact, no_space. vm_compute. repeat constructor.
      * injection Hs as <-. exact Hpos.
    + destruct (Hget eq_refl 0%nat _ eq_refl) as (s & Hs & _ & _ & Hid).
      * unfold compact, no_space. vm_compute. repeat constructor.
      * injection Hs as <-. exact Hid.
Defined.

Lemma iter_batches_partition_witness :
  (exists bs,
     ProteinSequences.iter_batches
       [pseq "ACDE" (Some "a"); pseq "AC-E" (Some "b"); pseq "ACDF" None] 2
     = Ok bs
     /\ Z.of_nat (length bs) = (Z.of_nat 3 + 2 - 1) / 2
     /\ (forall k b, bs !! k = Some b ->
           b = take (Z.to_nat 2) (drop (k * Z.to_nat 2)
                 [pseq "ACDE" (Some "a"); pseq "AC-E" (Some "b");
                  pseq "ACDF" None]))
     /\ (forall k b, bs !! k = Some b -> (S k < length bs)%nat ->
           Z.of_nat (length b) = 2)
     /\ (forall b, last bs = Some b ->
           Z.of_nat (length b)
           = if Z.of_nat 3 mod 2 =? 0 then 2 else Z.of_nat 3 mod 2)
     /\ concat bs
        = [pseq "ACDE" (Some "a"); pseq "AC-E" (Some "b"); pseq "ACDF" None])
  /\ (exists (F : ProteinSequencesOnFile.t) bs,
        ProteinSequencesOnFile.new
          (text [">a first"; "ACDE"; ">b"; "AC-E "; ""; ">c"; "ACDF"])
        = Ok F
        /\ ProteinSequencesOnFile.len F = 3%nat
        /\ ProteinSequencesOnFile.iter_batches (E := demo_env) F 2 = Ok bs
        /\ Z.of_nat (length bs) = (Z.of_nat 3 + 2 - 1) / 2
        /\ concat bs
           = [pseq "ACDE" (Some "a"); pseq "AC-E" (Some "b");
              pseq "ACDF" (Some "c")]).
Proof.
  destruct (iter_batches_partition (E := demo_env)
              [pseq "ACDE" (Some "a"); pseq "AC-E" (Some "b"); pseq "ACDF" None]
              2 ltac:(lia)) as (Hmem & _ & Hfile).
  split; [exact Hmem|].
  destruct (Hfile
              (text [">a first"; "ACDE"; ">b"; "AC-E "; ""; ">c"; "ACDF"])
              []
              [(ended (lit ">a first"), [ended (lit "ACDE")]);
               (ended (lit ">b"), [ended (lit "AC-E "); ended (lit "")]);
               (ended (lit ">c"), [ended (lit "ACDF")])])
    as (F & bs & HF & Hlen & _ & Hbs & Hcount & _ & Hcat).
  - vm_compute. reflexivity.
  - split; [vm_compute; reflexivity | constructor].
  - repeat first
      [ apply Forall_nil_2
      | apply Forall_cons_2;
        [split_and!;
         [ reflexivity
         | eexists; vm_compute; reflexivity
         | repeat first
             [ apply Forall_nil_2
             | apply Forall_cons_2;
               [split_and!;
                [ reflexivity
                | unfold no_space; vm_compute; repeat constructor
                | apply demo_dash_only ]|] ] ]|] ].
  - repeat first
      [ apply Forall_nil_2
      | apply Forall_cons_2;
        [unfold compact, no_space; vm_compute; repeat constructor|] ].
  - repeat first
      [ apply Forall_nil_2
      | apply Forall_cons_2;
        [apply all_valid_forallb; vm_compute; reflexivity|] ].
  - change (NoDup [lit "a"; lit "b"; lit "c"]).
    repeat (apply NoDup_cons; split;
            [intros H; repeat (apply elem_of_cons in H as [H|H];
                               [discriminate H|]);
             by apply elem_of_nil in H|]).
    apply NoDup_nil_2.
  - exists F, bs. rewrite Hlen in Hcount. by split_and!.
Defined.

(** C6 as stated fails for the file-backed collection: on this file of
    two records its length is 2, so a batch size of 1 should give two
    batches; the second record holds a symbol that is not valid, which is
    found only when the member is read, and the iteration raises. *)
Lemma iter_batches_partition_counterexample :
  (F ← ProteinSequencesOnFile.new (text [">a"; "AC"; ">b"; "A1"]);
   Ok (ProteinSequencesOnFile.len F)) = Ok 2%nat
  /\ (F ← ProteinSequencesOnFile.new (text [">a"; "AC"; ">b"; "A1"]);
      ProteinSequencesOnFile.getitem (E := demo_env) F (inl 0))
     = Ok (pseq "AC" (Some "a"))
  /\ (F ← ProteinSequencesOnFile.new (text [">a"; "AC"; ">b"; "A1"]);
      ProteinSequencesOnFile.iter_batches (E := demo_env) F 1)
     = Raise (ValueError (InvalidCharacter "1"%char)).
Proof. split_and!; vm_compute; reflexivity. Qed.
